(** * Retrieval core of the RAG backend: embeddings and vector indexes

    A shallow embedding of [backend/retrieval/embeddings.py] and
    [backend/retrieval/index.py].

    - Python [float] is IEEE 754 binary64: it is modelled by Rocq's primitive
      floats, whose operations are the same binary64 operations.
    - Python [int] is [Z]; [len] is [length] injected into [Z].
    - A raised exception is an [outcome]; a method that mutates [self] returns
      the new state next to its outcome, so that what was changed before a
      [raise] stays changed.
    - [random.Random] is an interface ([RandomSource]): the index code only
      relies on what [sample], [shuffle] and [random] promise.
    - [logging] calls have no effect on the state and are left out. *)

From Stdlib Require Import String.
From Stdlib Require Import ZArith List Bool Lia Permutation Sorted.
From Stdlib Require Import Floats.
Import ListNotations.

Local Open Scope Z_scope.

(** ** Exceptions *)

Inductive exn : Type :=
| ValueError (msg : string)
| RuntimeError (msg : string)
| IndexError
| ZeroDivisionError.

Inductive outcome (A : Type) : Type :=
| Ok (a : A)
| Raise (e : exn).

Arguments Ok {A} a.
Arguments Raise {A} e.

Definition bind {A B : Type} (m : outcome A) (f : A -> outcome B) : outcome B :=
  match m with
  | Ok a => f a
  | Raise e => Raise e
  end.

Notation "x <- m ;; k" := (bind m (fun x => k))
  (at level 61, m at next level, right associativity).

Fixpoint mapM {A B : Type} (f : A -> outcome B) (l : list A) : outcome (list B) :=
  match l with
  | [] => Ok []
  | a :: l' => b <- f a ;; bs <- mapM f l' ;; Ok (b :: bs)
  end.

Fixpoint foldM {A B : Type} (f : B -> A -> outcome B) (l : list A) (b : B) : outcome B :=
  match l with
  | [] => Ok b
  | a :: l' => b' <- f b a ;; foldM f l' b'
  end.

(** The error kinds of the specification, read off the raise sites. *)

Definition DimensionMismatch (e : exn) : Prop :=
  e = ValueError "vector dimension mismatch"
  \/ e = ValueError "query dimension mismatch"
  \/ e = ValueError "dimension mismatch".

Definition NotTrained (e : exn) : Prop :=
  e = RuntimeError "Index must be fit before adding items"
  \/ e = RuntimeError "Index has not been trained".

Definition InvalidConfig (e : exn) : Prop :=
  e = ValueError "n_lists must be positive"
  \/ e = ValueError "dimension must be positive"
  \/ e = ValueError "invalid ngram_range"
  \/ e = ValueError "Not enough data to initialise centroids".

(** ** Floats *)

Module Float.

Definition zero : float := 0%float.

(** [float(n)] for an [int] with [0 <= n < 2^63]. *)
Definition of_int (n : Z) : float :=
  PrimFloat.of_uint63 (Uint63.of_Z n).

(** [x / y] raises [ZeroDivisionError] when [y == 0.0]. *)
Definition div (x y : float) : outcome float :=
  if PrimFloat.eqb y zero then Raise ZeroDivisionError
  else Ok (PrimFloat.div x y).

(** Position of a float that is not a NaN in the order of [<]: the sign
    class first, then exponent and mantissa. *)
Definition rank (f : spec_float) : Z * Z * Z :=
  match f with
  | S754_nan => (0, 0, 0)
  | S754_infinity true => (-2, 0, 0)
  | S754_infinity false => (2, 0, 0)
  | S754_zero _ => (0, 0, 0)
  | S754_finite true m e => (-1, - e, - Z.pos m)
  | S754_finite false m e => (1, e, Z.pos m)
  end.

Definition lex3 (a b : Z * Z * Z) : comparison :=
  let '(a1, a2, a3) := a in
  let '(b1, b2, b3) := b in
  match a1 ?= b1 with
  | Eq => match a2 ?= b2 with
          | Eq => a3 ?= b3
          | c => c
          end
  | c => c
  end.

Definition not_nan (x : float) : Prop := PrimFloat.is_nan x = false.

(** [tie x y]: neither is smaller than the other. *)
Definition tie (x y : float) : Prop :=
  PrimFloat.ltb x y = false /\ PrimFloat.ltb y x = false.

End Float.

(** ** Python built-ins used by the retrieval code *)

Definition len {A : Type} (l : list A) : Z := Z.of_nat (length l).

(** [range(n)] *)
Definition range (n : Z) : list nat := seq 0 (Z.to_nat n).

Section Builtins.

Context {A : Type}.

(** [l[:k]]: the first [k] elements, or all but the last [-k] when [k] is
    negative. *)
Definition slice_to (k : Z) (l : list A) : list A :=
  if 0 <=? k then firstn (Z.to_nat k) l
  else firstn (length l - Z.to_nat (- k)) l.

(** [l[i]] for [0 <= i]. *)
Definition get (l : list A) (i : nat) : outcome A :=
  match nth_error l i with
  | Some x => Ok x
  | None => Raise IndexError
  end.

(** [l[i] = f(l[i])] in place, for [0 <= i]. *)
Fixpoint update (l : list A) (i : nat) (f : A -> A) : outcome (list A) :=
  match l, i with
  | [], _ => Raise IndexError
  | x :: l', O => Ok (f x :: l')
  | x :: l', S i' => r <- update l' i' f ;; Ok (x :: r)
  end.

Variable key : A -> float.

(** [l.sort(key=key, reverse=True)] and [sorted(l, key=key, reverse=True)]
    on keys that are numbers: descending by key, elements of equal key in
    their original order. The built-in sort compares keys with [<] only; when
    a key is NaN the order it returns depends on its merge strategy, which
    this definition does not follow. It is the built-in sort on keys without
    NaN, and what is proved about an order assumes such keys. *)
Fixpoint insert_desc (x : A) (l : list A) : list A :=
  match l with
  | [] => [x]
  | y :: l' =>
      if PrimFloat.ltb (key x) (key y) then y :: insert_desc x l'
      else x :: y :: l'
  end.

Fixpoint sort_desc (l : list A) : list A :=
  match l with
  | [] => []
  | x :: l' => insert_desc x (sort_desc l')
  end.

(** [max(l, key=key)] keeps the first element whose key no later key
    exceeds. *)
Fixpoint max_from (best : A) (l : list A) : A :=
  match l with
  | [] => best
  | x :: l' =>
      if PrimFloat.ltb (key best) (key x) then max_from x l'
      else max_from best l'
  end.

Definition max_by (l : list A) : outcome A :=
  match l with
  | [] => Raise (ValueError "max() arg is an empty sequence")
  | x :: l' => Ok (max_from x l')
  end.

End Builtins.

(** ** embeddings.py *)

Definition Vector : Type := list float.

Definition _zero_vector (dimension : Z) : Vector :=
  map (fun _ => Float.zero) (range dimension).

(** [sum(...)] over floats, accumulated from left to right starting at 0.
    (CPython from 3.12 on carries a compensation term along; it changes the
    last bits of a sum only, and nothing below depends on them.) *)
Definition fsum (l : list float) : float :=
  fold_left PrimFloat.add l Float.zero.

(** The argument of [math.sqrt] is a sum of squares, never negative, so the
    domain error of [math.sqrt] cannot occur. *)
Definition _l2_norm (vector : Vector) : float :=
  PrimFloat.sqrt (fsum (map (fun value => PrimFloat.mul value value) vector)).

Definition _normalise (vector : Vector) : outcome Vector :=
  let norm := _l2_norm vector in
  if PrimFloat.eqb norm Float.zero then Ok vector
  else mapM (fun value => Float.div value norm) vector.

Definition cosine_similarity (vec_a vec_b : Vector) : outcome float :=
  if negb (len vec_a =? len vec_b) then Raise (ValueError "dimension mismatch")
  else
    let norm_a := _l2_norm vec_a in
    let norm_b := _l2_norm vec_b in
    if PrimFloat.eqb norm_a Float.zero || PrimFloat.eqb norm_b Float.zero
    then Ok Float.zero
    else
      let dot := fsum (map (fun ab => PrimFloat.mul (fst ab) (snd ab))
                           (combine vec_a vec_b)) in
      Float.div dot (PrimFloat.mul norm_a norm_b).

(** [collections.Counter]: a dict of counts in order of first insertion. *)
Definition Counter : Type := list (string * Z).

(** [grams[gram] += 1] *)
Fixpoint incr (grams : Counter) (gram : string) : Counter :=
  match grams with
  | [] => [(gram, 1)]
  | (g, c) :: rest =>
      if String.eqb g gram then (g, c + 1) :: rest
      else (g, c) :: incr rest gram
  end.

Module LocalEmbeddingModel.

Section Model.

(** The built-in [hash] on [str] (salted per process) and [str.lower]. *)
Variable hash : string -> Z.
Variable lower : string -> string.

Record t : Type := {
  dimension : Z;
  ngram_range : Z * Z
}.

Definition init (dimension : Z) (ngram_range : Z * Z) : outcome t :=
  if dimension <=? 0 then Raise (ValueError "dimension must be positive")
  else if (fst ngram_range <=? 0) || (snd ngram_range <? fst ngram_range)
  then Raise (ValueError "invalid ngram_range")
  else Ok {| dimension := dimension; ngram_range := ngram_range |}.

(** The windows [text[index : index + n]] for [index] in
    [range(len(text) - n + 1)]. *)
Definition windows (text : string) (n : Z) : list string :=
  map (fun index => String.substring index (Z.to_nat n) text)
      (range (Z.of_nat (String.length text) - n + 1)).

Definition _generate_ngrams (self : t) (text : string) : Counter :=
  let text := lower text in
  let '(start, stop) := ngram_range self in
  fold_left
    (fun grams n => fold_left incr (windows text n) grams)
    (map (fun i => start + Z.of_nat i) (range (stop + 1 - start)))
    [].

(** One round of the accumulation loop: [vector[hash(gram) % D] += count]. *)
Definition accumulate (self : t) (vector : Vector) (entry : string * Z) : outcome Vector :=
  let '(gram, count) := entry in
  if dimension self =? 0 then Raise ZeroDivisionError
  else
    let bucket := hash gram mod dimension self in
    update vector (Z.to_nat bucket)
           (fun x => PrimFloat.add x (Float.of_int count)).

Definition embed (self : t) (text : string) : outcome Vector :=
  let grams := _generate_ngrams self text in
  vector <- foldM (accumulate self) grams (_zero_vector (dimension self)) ;;
  _normalise vector.

Definition embed_many (self : t) (texts : list string) : outcome (list Vector) :=
  mapM (embed self) texts.

End Model.

End LocalEmbeddingModel.

(** ** random.Random

    The generator is a state [G]; every draw returns the next state.
    [sample g n k] is [random.sample] on a population of [n] positions: [k]
    distinct positions below [n]. [shuffle] permutes. The laws are the
    documented contract of the [random] module; nothing else about the
    generator is used by the indexes. *)

Class RandomSource (G : Type) : Type := {
  sample : G -> nat -> nat -> list nat * G;
  shuffle : G -> list nat -> list nat * G;
  random : G -> float * G;
  sample_length : forall g n k,
    (k <= n)%nat -> length (fst (sample g n k)) = k;
  sample_NoDup : forall g n k, NoDup (fst (sample g n k));
  sample_bound : forall g n k,
    Forall (fun i => (i < n)%nat) (fst (sample g n k));
  shuffle_perm : forall g l, Permutation (fst (shuffle g l)) l
}.

(** The elements of [population] at the drawn positions. *)
Definition select {A : Type} (population : list A) (positions : list nat) : list A :=
  flat_map (fun i => match nth_error population i with
                     | Some x => [x]
                     | None => []
                     end) positions.

(** [rng.uniform(a, b)] is [a + (b - a) * rng.random()]. *)
Definition uniform {G : Type} `{RandomSource G} (g : G) (a b : float) : float * G :=
  let (r, g') := random g in
  (PrimFloat.add a (PrimFloat.mul (PrimFloat.sub b a) r), g').

(** ** index.py *)

Definition Metadata : Type := list (string * string).

(** [obj_id] is the identity of the Python object ([id(item)]): two entries
    that refer to the same object share it. *)
Record IndexedVector : Type := {
  vector : Vector;
  metadata : Metadata;
  obj_id : nat
}.

Definition Result : Type := list (float * Metadata).

(** The scoring comprehension shared by both [search] methods. *)
Definition score_all (query : Vector) (candidates : list IndexedVector) : outcome Result :=
  mapM (fun item =>
          s <- cosine_similarity query (vector item) ;; Ok (s, metadata item))
       candidates.

(** [scores.sort(key=lambda pair: pair[0], reverse=True); scores[:k]] *)
Definition rank_top (k : Z) (scores : Result) : Result :=
  slice_to k (sort_desc fst scores).

Module HNSWIndex.

Section WithRandom.

Context {G : Type} `{RandomSource G}.

Record t : Type := {
  dimension : Z;
  ef : Z;
  _rng : G;
  _items : list IndexedVector
}.

(** [__init__]; [g] is [random.Random(seed)]. *)
Definition init (dimension ef : Z) (g : G) : outcome t :=
  Ok {| dimension := dimension; ef := Z.max ef 1; _rng := g; _items := [] |}.

Definition append (self : t) (item : IndexedVector) : t :=
  {| dimension := dimension self; ef := ef self; _rng := _rng self;
     _items := _items self ++ [item] |}.

Definition set_rng (self : t) (g : G) : t :=
  {| dimension := dimension self; ef := ef self; _rng := g;
     _items := _items self |}.

Fixpoint add (self : t) (items : list IndexedVector) : t * outcome unit :=
  match items with
  | [] => (self, Ok tt)
  | item :: rest =>
      if negb (len (vector item) =? dimension self)
      then (self, Raise (ValueError "vector dimension mismatch"))
      else add (append self item) rest
  end.

(** The top-up loop of [search]: every stored item whose object is not among
    the sampled ones is appended, and the loop leaves once the candidates
    number [ef] or more. *)
Fixpoint top_up (ef : Z) (seen : list nat) (items candidates : list IndexedVector)
  : list IndexedVector :=
  match items with
  | [] => candidates
  | item :: rest =>
      if existsb (Nat.eqb (obj_id item)) seen then top_up ef seen rest candidates
      else
        let candidates := candidates ++ [item] in
        if ef <=? len candidates then candidates
        else top_up ef seen rest candidates
  end.

(** The candidates that [search] scores, for a non-empty store. *)
Definition candidates (self : t) : outcome (list IndexedVector) * G :=
  let items := _items self in
  let k := Z.min (len items) (ef self) in
  if k <? 0
  then (Raise (ValueError "Sample larger than population or is negative"),
        _rng self)
  else
    let (positions, g) := sample (_rng self) (length items) (Z.to_nat k) in
    let sampled := select items positions in
    if len sampled <? len items
    then (Ok (top_up (ef self) (map obj_id sampled) items sampled), g)
    else (Ok sampled, g).

Definition search (self : t) (query : Vector) (k : Z) : t * outcome Result :=
  if negb (len query =? dimension self)
  then (self, Raise (ValueError "query dimension mismatch"))
  else
    match _items self with
    | [] => (self, Ok [])
    | _ :: _ =>
        let (cs, g) := candidates self in
        (set_rng self g,
         cs <- cs ;; scores <- score_all query cs ;; Ok (rank_top k scores))
    end.

End WithRandom.

Arguments t G : clear implicits.

End HNSWIndex.

Module IVFIndex.

Section WithRandom.

Context {G : Type} `{RandomSource G}.

Record t : Type := {
  dimension : Z;
  n_lists : Z;
  iterations : Z;
  _rng : G;
  _centroids : list Vector;
  _lists : list (list IndexedVector)
}.

(** [__init__]; [g] is [random.Random(seed)]. *)
Definition init (dimension n_lists iterations : Z) (g : G) : outcome t :=
  if n_lists <=? 0 then Raise (ValueError "n_lists must be positive")
  else Ok {| dimension := dimension; n_lists := n_lists;
             iterations := Z.max iterations 1; _rng := g;
             _centroids := []; _lists := [] |}.

Definition set_model (self : t) (g : G) (centroids : list Vector)
  (lists : list (list IndexedVector)) : t :=
  {| dimension := dimension self; n_lists := n_lists self;
     iterations := iterations self; _rng := g;
     _centroids := centroids; _lists := lists |}.

(** [[rng.uniform(-1.0, 1.0) for _ in range(dimension)]] *)
Fixpoint noise (d : nat) (g : G) : Vector * G :=
  match d with
  | O => ([], g)
  | S d' =>
      let (x, g1) := uniform g (-1)%float 1%float in
      let (v, g2) := noise d' g1 in
      (x :: v, g2)
  end.

(** The padding loop of [_initialise_centroids], [m] rounds. *)
Fixpoint pad (m : nat) (d : nat) (g : G) (centroids : list Vector)
  (lists : list (list IndexedVector))
  : G * list Vector * list (list IndexedVector) :=
  match m with
  | O => (g, centroids, lists)
  | S m' =>
      let (v, g1) := noise d g in
      pad m' d g1 (centroids ++ [v]) (lists ++ [[]])
  end.

Definition _initialise_centroids (self : t) (data : list Vector) : t * outcome unit :=
  let (indices, g) := shuffle (_rng self) (range (len data)) in
  let selected := slice_to (n_lists self) indices in
  match mapM (get data) selected with
  | Raise e => (set_model self g (_centroids self) (_lists self), Raise e)
  | Ok centroids =>
      let lists := map (fun _ => []) centroids in
      if len centroids <? n_lists self
      then
        let '(g, centroids, lists) :=
          pad (Z.to_nat (n_lists self - len centroids))
              (Z.to_nat (dimension self)) g centroids lists in
        (set_model self g centroids lists, Ok tt)
      else (set_model self g centroids lists, Ok tt)
  end.

(** [_assign] reads the centroids only. *)
Definition assign (centroids : list Vector) (vector : Vector) : outcome nat :=
  match centroids with
  | [] => Raise (RuntimeError "Index has not been trained")
  | _ :: _ =>
      scores <- mapM (cosine_similarity vector) centroids ;;
      max_by (fun idx => nth idx scores Float.zero) (range (len scores))
  end.

Definition _assign (self : t) (vector : Vector) : outcome nat :=
  assign (_centroids self) vector.

(** First loop of a training round:
    [assignments[self._assign(vector)].append(vector)]. *)
Definition assign_all (centroids : list Vector) (data : list Vector)
  : outcome (list (list Vector)) :=
  foldM (fun assignments vector =>
           idx <- assign centroids vector ;;
           update assignments idx (fun l => l ++ [vector]))
        data (map (fun _ => []) centroids).

(** [for dim, value in enumerate(vector): centroid[dim] += value] *)
Definition add_into (centroid : Vector) (vector : Vector) : outcome Vector :=
  foldM (fun c dv => update c (fst dv) (fun x => PrimFloat.add x (snd dv)))
        (combine (seq 0 (length vector)) vector) centroid.

(** The mean of a non-empty group of assigned vectors. *)
Definition mean (dimension : Z) (assigned : list Vector) : outcome Vector :=
  centroid <- foldM add_into assigned (_zero_vector dimension) ;;
  mapM (fun value => Float.div value (Float.of_int (len assigned))) centroid.

(** Second loop of a training round, from position [idx] on. The centroids
    replaced before a [raise] stay replaced. *)
Fixpoint recompute (dimension : Z) (centroids : list Vector) (idx : nat)
  (assignments : list (list Vector)) : list Vector * outcome unit :=
  match assignments with
  | [] => (centroids, Ok tt)
  | [] :: rest => recompute dimension centroids (S idx) rest
  | assigned :: rest =>
      match (c <- mean dimension assigned ;; update centroids idx (fun _ => c)) with
      | Raise e => (centroids, Raise e)
      | Ok centroids' => recompute dimension centroids' (S idx) rest
      end
  end.

Fixpoint train (rounds : nat) (dimension : Z) (centroids : list Vector)
  (data : list Vector) : list Vector * outcome unit :=
  match rounds with
  | O => (centroids, Ok tt)
  | S rounds' =>
      match assign_all centroids data with
      | Raise e => (centroids, Raise e)
      | Ok assignments =>
          match recompute dimension centroids 0 assignments with
          | (centroids', Raise e) => (centroids', Raise e)
          | (centroids', Ok _) => train rounds' dimension centroids' data
          end
      end
  end.

Definition fit (self : t) (data : list Vector) : t * outcome unit :=
  if len data <? n_lists self
  then (self, Raise (ValueError "Not enough data to initialise centroids"))
  else if existsb (fun vector => negb (len vector =? dimension self)) data
  then (self, Raise (ValueError "vector dimension mismatch"))
  else
    match _initialise_centroids self data with
    | (self1, Raise e) => (self1, Raise e)
    | (self1, Ok _) =>
        match train (Z.to_nat (iterations self1)) (dimension self1)
                    (_centroids self1) data with
        | (centroids, Raise e) =>
            (set_model self1 (_rng self1) centroids (_lists self1), Raise e)
        | (centroids, Ok _) =>
            (set_model self1 (_rng self1) centroids
                       (map (fun _ => []) centroids), Ok tt)
        end
    end.

(** The loop of [add]. *)
Fixpoint add_loop (self : t) (items : list IndexedVector) : t * outcome unit :=
  match items with
  | [] => (self, Ok tt)
  | item :: rest =>
      if negb (len (vector item) =? dimension self)
      then (self, Raise (ValueError "vector dimension mismatch"))
      else
        match (bucket <- _assign self (vector item) ;;
               update (_lists self) bucket (fun l => l ++ [item])) with
        | Raise e => (self, Raise e)
        | Ok lists =>
            add_loop (set_model self (_rng self) (_centroids self) lists) rest
        end
  end.

Definition add (self : t) (items : list IndexedVector) : t * outcome unit :=
  match _centroids self with
  | [] => (self, Raise (RuntimeError "Index must be fit before adding items"))
  | _ :: _ => add_loop self items
  end.

(** [n_probe or min(2, len(self._centroids))]: [None] and [0] are falsy. *)
Definition probes (self : t) (n_probe : option Z) : Z :=
  match n_probe with
  | Some n => if n =? 0 then Z.min 2 (len (_centroids self)) else n
  | None => Z.min 2 (len (_centroids self))
  end.

(** [search] leaves the index as it is. *)
Definition search (self : t) (query : Vector) (k : Z) (n_probe : option Z)
  : outcome Result :=
  if negb (len query =? dimension self)
  then Raise (ValueError "query dimension mismatch")
  else
    match _centroids self with
    | [] => Ok []
    | _ :: _ =>
        let n_probe := probes self n_probe in
        scores <- mapM (cosine_similarity query) (_centroids self) ;;
        let ranked :=
          slice_to n_probe
            (sort_desc (fun idx => nth idx scores Float.zero)
                       (range (len scores))) in
        buckets <- mapM (get (_lists self)) ranked ;;
        let candidates := concat buckets in
        results <- score_all query candidates ;;
        Ok (rank_top k results)
    end.

End WithRandom.

Arguments t G : clear implicits.

End IVFIndex.

(** ** Vocabulary of the specification *)

(** The exhaustive scan: score every item in storage order, sort, cut. *)
Definition brute_force (items : list IndexedVector) (query : Vector) (k : Z)
  : outcome Result :=
  scores <- score_all query items ;; Ok (rank_top k scores).

(** Two results rank alike, ties aside: the same length and equal scores at
    every rank. *)
Definition same_ranking (r1 r2 : Result) : Prop :=
  Forall2 (fun a b => PrimFloat.eqb (fst a) (fst b) = true) r1 r2.

(** [res] is a top-[k] of the scored pool: [k] entries of the pool (all of
    them when the pool is smaller), in descending order of score, and no
    entry left out scores above an entry of [res]. *)
Definition is_top_k (k : nat) (pool res : Result) : Prop :=
  exists rest,
    Permutation (res ++ rest) pool
    /\ length res = Nat.min k (length pool)
    /\ StronglySorted (fun a b => PrimFloat.ltb (fst a) (fst b) = false) res
    /\ Forall (fun x => Forall (fun r => PrimFloat.ltb (fst r) (fst x) = false) res)
              rest.

(** Every score of the pool is a number. *)
Definition scores_comparable (pool : Result) : Prop :=
  Forall (fun s => Float.not_nan (fst s)) pool.

(** What the code does with an item: [_assign] returns bucket [i] for its
    vector. *)
Definition assigned_to (centroids : list Vector) (i : nat) (item : IndexedVector) : bool :=
  match IVFIndex.assign centroids (vector item) with
  | Ok bucket => Nat.eqb bucket i
  | Raise _ => false
  end.

(** Centroid [i] is the nearest to the vector [v]: the cosine similarity of
    [v] to every centroid is defined and, when each of them is a number, none
    is above the similarity to centroid [i] and every centroid before [i] is
    strictly less similar (of equally similar centroids the first one is the
    nearest). *)
Definition nearest (centroids : list Vector) (i : nat) (v : Vector) : Prop :=
  exists scores,
    mapM (cosine_similarity v) centroids = Ok scores
    /\ (i < length centroids)%nat
    /\ (Forall Float.not_nan scores ->
        (forall j, (j < length centroids)%nat ->
                   PrimFloat.ltb (nth i scores Float.zero)
                                 (nth j scores Float.zero) = false)
        /\ (forall j, (j < i)%nat ->
                      PrimFloat.ltb (nth j scores Float.zero)
                                    (nth i scores Float.zero) = true)).

Section Trained.

Context {G : Type} `{RandomSource G}.

(** Bucket [i] holds only items that [_assign] sends to bucket [i]. *)
Definition routed (self : IVFIndex.t G) : Prop :=
  len (IVFIndex._centroids self) = IVFIndex.n_lists self
  /\ len (IVFIndex._lists self) = IVFIndex.n_lists self
  /\ forall i item,
      In item (nth i (IVFIndex._lists self) []) ->
      assigned_to (IVFIndex._centroids self) i item = true.

(** Centroids and buckets are paired position by position: [n_lists] of
    each, and bucket [i] holds only items whose nearest centroid is
    centroid [i]. *)
Definition paired (self : IVFIndex.t G) : Prop :=
  len (IVFIndex._centroids self) = IVFIndex.n_lists self
  /\ len (IVFIndex._lists self) = IVFIndex.n_lists self
  /\ forall i item,
      In item (nth i (IVFIndex._lists self) []) ->
      nearest (IVFIndex._centroids self) i (vector item).

(** The states reached from [self1] by calls of [add], successful or not.
    [search] returns no state: it leaves the index as it is. *)
Inductive after (self1 : IVFIndex.t G) : IVFIndex.t G -> Prop :=
| after_refl : after self1 self1
| after_add (self : IVFIndex.t G) (items : list IndexedVector)
    (self' : IVFIndex.t G) (r : outcome unit) :
    after self1 self -> IVFIndex.add self items = (self', r) ->
    after self1 self'.

End Trained.

(** ** embeddings.py: the remaining helpers *)

(** [_add_inplace(target, source)]: [target[index] += value] for every
    position of [source]. *)
Definition _add_inplace (target source : Vector) : outcome Vector :=
  foldM (fun t iv => update t (fst iv) (fun x => PrimFloat.add x (snd iv)))
        (combine (seq 0 (length source)) source) target.

Definition _scale (vector : Vector) (scalar : float) : Vector :=
  map (fun value => PrimFloat.mul value scalar) vector.

Definition _mean (vectors : list Vector) : outcome Vector :=
  match vectors with
  | [] => Raise (ValueError "Cannot compute mean of empty sequence")
  | first :: _ =>
      let dimension := len first in
      accumulator <-
        foldM (fun accumulator vector =>
                 if negb (len vector =? dimension)
                 then Raise (ValueError "dimension mismatch in mean computation")
                 else _add_inplace accumulator vector)
              vectors (_zero_vector dimension) ;;
      mapM (fun value => Float.div value (Float.of_int (len vectors)))
           accumulator
  end.

(** ** api.py: the state shared by the HTTP handlers

    The lock serialises the calls and is left out. *)

Module RetrievalState.

Section WithRandom.

Context {G : Type} `{RandomSource G}.

(** [Optional[HNSWIndex | IVFIndex]] *)
Inductive index_t : Type :=
| Hnsw (ix : HNSWIndex.t G)
| Ivf (ix : IVFIndex.t G).

Record t : Type := {
  embedding_model : LocalEmbeddingModel.t;
  index : option index_t
}.

(** [self.index.dimension] and [self.index.__class__.__name__] *)
Definition index_dimension (ix : index_t) : Z :=
  match ix with
  | Hnsw ix => HNSWIndex.dimension ix
  | Ivf ix => IVFIndex.dimension ix
  end.

Definition class_name (ix : index_t) : string :=
  match ix with
  | Hnsw _ => "HNSWIndex"
  | Ivf _ => "IVFIndex"
  end.

(** [LocalEmbeddingModel()]: the defaults of its constructor. *)
Definition default_model : LocalEmbeddingModel.t :=
  {| LocalEmbeddingModel.dimension := 256;
     LocalEmbeddingModel.ngram_range := (2, 4) |}.

(** [__init__] *)
Definition init : t :=
  {| embedding_model := default_model; index := None |}.

(** [ensure_index(kind, dimension)]; [g] is the generator that a new index
    gets ([random.Random(None)]). An index is truthy whenever it is not
    [None]. *)
Definition ensure_index (self : t) (kind : string) (dimension : Z) (g : G)
  : t * outcome unit :=
  let keep :=
    match index self with
    | Some ix => (index_dimension ix =? dimension) && String.eqb (class_name ix) kind
    | None => false
    end in
  if keep then (self, Ok tt)
  else
    match LocalEmbeddingModel.init dimension (2, 4) with
    | Raise e => (self, Raise e)
    | Ok model =>
        let self := {| embedding_model := model; index := index self |} in
        let created :=
          if String.eqb kind "HNSWIndex"
          then ix <- HNSWIndex.init dimension 32 g ;; Ok (Hnsw ix)
          else if String.eqb kind "IVFIndex"
          then ix <- IVFIndex.init dimension 4 5 g ;; Ok (Ivf ix)
          else Raise (ValueError ("Unsupported index type: " ++ kind)) in
        match created with
        | Ok ix => ({| embedding_model := model; index := Some ix |}, Ok tt)
        | Raise e => (self, Raise e)
        end
    end.

(** [add_vector(vector, metadata)]; [oid] is the identity of the
    [IndexedVector] that the call creates. *)
Definition add_vector (self : t) (vector : Vector) (metadata : Metadata)
  (oid : nat) : t * outcome unit :=
  match index self with
  | None => (self, Raise (RuntimeError "Index has not been initialised"))
  | Some ix =>
      let item := {| vector := vector; metadata := metadata; obj_id := oid |} in
      match ix with
      | Hnsw ix =>
          let (ix', r) := HNSWIndex.add ix [item] in
          ({| embedding_model := embedding_model self;
              index := Some (Hnsw ix') |}, r)
      | Ivf ix =>
          let (ix', r) := IVFIndex.add ix [item] in
          ({| embedding_model := embedding_model self;
              index := Some (Ivf ix') |}, r)
      end
  end.

(** [search(vector, k, **kwargs)]; the handler passes [n_probe] or nothing,
    and the Sampled Flat Index ignores it. The payload pairs each score with
    its metadata, as the result of the index does. *)
Definition search (self : t) (vector : Vector) (k : Z) (n_probe : option Z)
  : t * outcome Result :=
  match index self with
  | None => (self, Ok [])
  | Some (Hnsw ix) =>
      let (ix', r) := HNSWIndex.search ix vector k in
      ({| embedding_model := embedding_model self;
          index := Some (Hnsw ix') |}, r)
  | Some (Ivf ix) => (self, IVFIndex.search ix vector k n_probe)
  end.

(** The states that the handlers can reach. *)
Inductive reachable : t -> Prop :=
| reach_init : reachable init
| reach_ensure_index (self : t) (kind : string) (dimension : Z) (g : G) :
    reachable self -> reachable (fst (ensure_index self kind dimension g))
| reach_add_vector (self : t) (vector : Vector) (metadata : Metadata)
    (oid : nat) :
    reachable self -> reachable (fst (add_vector self vector metadata oid))
| reach_search (self : t) (vector : Vector) (k : Z) (n_probe : option Z) :
    reachable self -> reachable (fst (search self vector k n_probe)).

End WithRandom.

Arguments t G : clear implicits.
Arguments index_t G : clear implicits.

End RetrievalState.
(** * Ingestion and generation: chunking, deduplication, context fusion

    A shallow embedding of [backend/ingestion/chunking.py],
    [backend/ingestion/deduplication.py], [backend/generation/fusion.py] and
    [backend/generation/response.py].

    - A [str] is a [string]: a sequence of characters, [len] its length.
    - A [dict] with [str] keys is an association list in insertion order,
      with one entry per key.
    - [hashlib.sha256], [str.strip] and [str.split] are library functions and
      are parameters of the code that calls them. *)

From Stdlib Require Import DecimalString.
From Equations Require Import Equations.

(** ** Python built-ins used by the ingestion and generation code *)

(** [str(n)] for an [int] *)
Definition str_int (n : Z) : string := NilZero.string_of_int (Z.to_int n).

(** [text[start:stop]] for [0 <= start <= stop]; the slice ends where the
    text ends. *)
Definition str_slice (text : string) (start stop : Z) : string :=
  String.substring (Z.to_nat start) (Z.to_nat (stop - start)) text.

(** ["\n".join(parts)] *)
Definition join_lines (parts : list string) : string :=
  String.concat (String (Ascii.ascii_of_nat 10) EmptyString) parts.

Section Dict.

Context {V : Type}.

(** [key in d] and [d[key]] *)
Fixpoint dict_get (d : list (string * V)) (key : string) : option V :=
  match d with
  | [] => None
  | (k, v) :: rest => if String.eqb k key then Some v else dict_get rest key
  end.

(** [d.get(key, default)] *)
Definition dict_get_or (d : list (string * V)) (key : string) (default : V) : V :=
  match dict_get d key with
  | Some v => v
  | None => default
  end.

(** [d[key] = value]: a key that is present keeps its place. *)
Fixpoint dict_set (d : list (string * V)) (key : string) (value : V)
  : list (string * V) :=
  match d with
  | [] => [(key, value)]
  | (k, v) :: rest =>
      if String.eqb k key then (k, value) :: rest
      else (k, v) :: dict_set rest key value
  end.

(** [d.update(other)] *)
Definition dict_update (d other : list (string * V)) : list (string * V) :=
  fold_left (fun d entry => dict_set d (fst entry) (snd entry)) other d.

(** [d.setdefault(key, value)], for its effect on [d] *)
Definition dict_setdefault (d : list (string * V)) (key : string) (value : V)
  : list (string * V) :=
  match dict_get d key with
  | Some _ => d
  | None => dict_set d key value
  end.

End Dict.

(** ** chunking.py *)

Module TextChunk.

Record t : Type := {
  id : Z;
  text : string;
  metadata : Metadata
}.

End TextChunk.

Section Chunking.

Variable text : string.
Variable chunk_size overlap : Z.
Variable meta : Metadata.

(** What the three checks of [chunk_text] leave: the loop is only entered
    with an overlap below the chunk size, which is why it ends. *)
Hypothesis valid : overlap < chunk_size.

(** [TextChunk(id=index, text=text[start:end], metadata=...)] with the
    metadata of the call and the two positions. *)
Definition make_chunk (start stop index : Z) : TextChunk.t :=
  {| TextChunk.id := index;
     TextChunk.text := str_slice text start stop;
     TextChunk.metadata :=
       dict_update meta [("start"%string, str_int start);
                         ("end"%string, str_int stop)] |}.

(** The [while start < text_length] loop, from [start] and [index]; it
    returns the chunks that it appends. *)
Equations chunk_loop (start index : Z) : list TextChunk.t
  by wf (Z.to_nat (Z.of_nat (String.length text) - start)) lt :=
chunk_loop start index with Z_lt_dec start (Z.of_nat (String.length text)) := {
  | right _ => []
  | left _ with Z.eq_dec (Z.min (start + chunk_size)
                                (Z.of_nat (String.length text)))
                         (Z.of_nat (String.length text)) := {
    | left _ =>
        [make_chunk start
                    (Z.min (start + chunk_size) (Z.of_nat (String.length text)))
                    index]
    | right _ =>
        make_chunk start
                   (Z.min (start + chunk_size) (Z.of_nat (String.length text)))
                   index
        :: chunk_loop (Z.min (start + chunk_size)
                             (Z.of_nat (String.length text)) - overlap)
                      (index + 1) } }.
Next Obligation.
  lia.
Qed.

End Chunking.

(** [chunk_text(text, chunk_size=..., overlap=..., metadata=...)];
    [metadata or {}] is the empty dict for [None]. *)
Definition chunk_text (text : string) (chunk_size overlap : Z)
  (metadata : option Metadata) : outcome (list TextChunk.t) :=
  if chunk_size <=? 0 then Raise (ValueError "chunk_size must be positive")
  else if overlap <? 0 then Raise (ValueError "overlap must be non-negative")
  else
    match Z_lt_dec overlap chunk_size with
    | right _ => Raise (ValueError "overlap must be smaller than chunk_size")
    | left valid =>
        let meta := match metadata with Some m => m | None => [] end in
        Ok (chunk_loop text chunk_size overlap meta valid 0 0)
    end.

(** ** deduplication.py *)

Module DeduplicatedResult.

Record t : Type := {
  unique_chunks : list TextChunk.t;
  duplicates : list (string * list string)
}.

End DeduplicatedResult.

Section Deduplication.

(** [hashlib.sha256(data).hexdigest()] on the UTF-8 encoding of a text (the
    encoding of [salt + text] is what the two [update] calls feed), and
    [str.strip]. *)
Variable sha256 : string -> string.
Variable strip : string -> string.

Definition _hash_text (text salt : string) : string :=
  sha256 (salt ++ text)%string.

(** One round of the loop of [deduplicate_chunks] on the three collections
    [seen], [duplicates] and [ordered]. *)
Definition dedup_round (salt : string)
  (state : list (string * TextChunk.t) * list (string * list string)
           * list TextChunk.t)
  (chunk : TextChunk.t)
  : list (string * TextChunk.t) * list (string * list string)
    * list TextChunk.t :=
  let '(seen, duplicates, ordered) := state in
  let fingerprint := _hash_text (strip (TextChunk.text chunk)) salt in
  match dict_get seen fingerprint with
  | Some _ =>
      let duplicates := dict_setdefault duplicates fingerprint [] in
      (seen,
       dict_set duplicates fingerprint
                (dict_get_or duplicates fingerprint []
                 ++ [str_int (TextChunk.id chunk)]),
       ordered)
  | None => (dict_set seen fingerprint chunk, duplicates, ordered ++ [chunk])
  end.

Definition deduplicate_chunks (chunks : list TextChunk.t) (salt : string)
  : DeduplicatedResult.t :=
  let '(_, duplicates, ordered) :=
    fold_left (dedup_round salt) chunks ([], [], []) in
  {| DeduplicatedResult.unique_chunks := ordered;
     DeduplicatedResult.duplicates := duplicates |}.

End Deduplication.

(** ** fusion.py *)

Module ContextSnippet.

Record t : Type := {
  content : string;
  metadata : Metadata;
  score : float
}.

End ContextSnippet.

Module ContextFusion.

Record t : Type := {
  max_tokens : Z
}.

Definition init (max_tokens : Z) : outcome t :=
  if max_tokens <=? 0 then Raise (ValueError "max_tokens must be positive")
  else Ok {| max_tokens := max_tokens |}.

Section Fusion.

(** [str.split] without arguments: the whitespace separated tokens. *)
Variable split : string -> list string.

Definition _token_estimate (text : string) : Z :=
  Z.max 1 (len (split text)).

(** The loop of [fuse] over the ordered snippets, with the budget left and
    the snippets selected so far. *)
Fixpoint fuse_loop (budget : Z) (fused ordered : list ContextSnippet.t)
  : list ContextSnippet.t :=
  match ordered with
  | [] => fused
  | snippet :: rest =>
      let cost := _token_estimate (ContextSnippet.content snippet) in
      if budget <? cost then fuse_loop budget fused rest
      else
        let fused := fused ++ [snippet] in
        let budget := budget - cost in
        if budget <=? 0 then fused else fuse_loop budget fused rest
  end.

Definition fuse (self : t) (snippets : list ContextSnippet.t)
  : list ContextSnippet.t :=
  let ordered := sort_desc ContextSnippet.score snippets in
  fuse_loop (max_tokens self) [] ordered.

End Fusion.

End ContextFusion.

(** ** response.py *)

Module Citation.

Record t : Type := {
  text : string;
  source : string;
  score : float
}.

End Citation.

Module GeneratedResponse.

Record t : Type := {
  answer : string;
  citations : list Citation.t
}.

End GeneratedResponse.

Module ResponseGenerator.

Record t : Type := {
  fusion : ContextFusion.t
}.

(** [ContextFusion()]: the default of its constructor. *)
Definition default_fusion : ContextFusion.t :=
  {| ContextFusion.max_tokens := 512 |}.

(** [__init__(fusion=None)]; a [ContextFusion] object is always truthy. *)
Definition init (fusion : option ContextFusion.t) : t :=
  {| fusion := match fusion with Some f => f | None => default_fusion end |}.

Section Generation.

Variable split : string -> list string.

Definition _build_answer (question : string) (snippets : list ContextSnippet.t)
  : string :=
  let parts := ["Question: " ++ question]%string in
  let parts :=
    fold_left
      (fun parts entry =>
         parts ++ ["Snippet " ++ str_int (Z.of_nat (fst entry)) ++ ": "
                   ++ ContextSnippet.content (snd entry)]%string)
      (combine (seq 1 (length snippets)) snippets) parts in
  let parts :=
    parts ++ ["Answer: Based on the retrieved information, the question can be addressed using the cited snippets above."%string] in
  join_lines parts.

Definition _build_citations (snippets : list ContextSnippet.t)
  : list Citation.t :=
  map (fun snippet =>
         {| Citation.text := ContextSnippet.content snippet;
            Citation.source :=
              dict_get_or (ContextSnippet.metadata snippet) "source"%string
                          "unknown"%string;
            Citation.score := ContextSnippet.score snippet |})
      snippets.

Definition generate (self : t) (question : string)
  (snippets : list ContextSnippet.t) : GeneratedResponse.t :=
  let fused := ContextFusion.fuse split (fusion self) snippets in
  {| GeneratedResponse.answer := _build_answer question fused;
     GeneratedResponse.citations := _build_citations fused |}.

End Generation.

End ResponseGenerator.
(** * The gateway: [backend/api/gateway.py]

    [PipelineState] is the state that the HTTP handler drives. Its lock
    serialises the calls and is left out. The index parameters and the
    retrieval parameters are taken as the integers that [int(...)] and the
    index expect. *)

(** A value of a JSON document as the gateway looks at it: a [str], a
    [dict], or any other object, [None] among them. Of an object the gateway
    only asks [str(value)] and the truth value; a [dict] and any other
    object carry what [str] returns for them. *)
#[warnings="-register-all"] Inductive object : Type :=
| Str (s : string)
| Dict (items : list (string * object)) (repr : string)
| Other (repr : string) (truth : bool).

Definition py_none : object := Other "None" false.

(** [str(value)] *)
Definition str (value : object) : string :=
  match value with
  | Str s => s
  | Dict _ repr => repr
  | Other repr _ => repr
  end.

(** The truth value of an object: an empty [str] and an empty [dict] are
    false. *)
Definition truthy (value : object) : bool :=
  match value with
  | Str s => negb (String.eqb s "")
  | Dict items _ => match items with [] => false | _ :: _ => true end
  | Other _ truth => truth
  end.

(** [value.items()] of a [dict] *)
Definition dict_items (value : object) : list (string * object) :=
  match value with
  | Dict items _ => items
  | _ => []
  end.

Definition _stringify_metadata (metadata : list (string * object)) : Metadata :=
  map (fun entry => (fst entry, str (snd entry))) metadata.

(** The dicts that [configure], [ingest] and [query] return, without their
    constant ["status"] entry. *)
Module Configured.

Record t : Type := {
  index : string;
  dimension : Z;
  chunk_size : Z;
  overlap : Z;
  index_params : list (string * Z);
  generator_max_tokens : option Z
}.

End Configured.

Module Summary.

Record t : Type := {
  name : object;
  metadata : Metadata;
  chunks : Z
}.

End Summary.

Module Ingested.

Record t : Type := {
  documents : list Summary.t;
  chunks : Z;
  duplicates : list (string * list string)
}.

End Ingested.

Module Answered.

Record t : Type := {
  answer : string;
  citations : list Citation.t;
  snippets : list ContextSnippet.t
}.

End Answered.

Module PipelineState.

Section WithRandom.

Context {G : Type} `{RandomSource G}.

(** The built-in [hash] on [str], [str.lower], [hashlib.sha256], [str.strip]
    and [str.split]. *)
Variable hash : string -> Z.
Variable lower : string -> string.
Variable sha256 : string -> string.
Variable strip : string -> string.
Variable split : string -> list string.

(** [Optional[VectorIndex]]: the two indexes that [_initialise_index]
    creates. *)
Inductive index_t : Type :=
| Hnsw (ix : HNSWIndex.t G)
| Ivf (ix : IVFIndex.t G).

Record t : Type := {
  embedding_model : LocalEmbeddingModel.t;
  index : option index_t;
  generator : ResponseGenerator.t;
  chunk_size : Z;
  overlap : Z;
  _ingested_documents : list (list (string * object));
  _chunk_counter : Z
}.

Definition init : t :=
  {| embedding_model :=
       {| LocalEmbeddingModel.dimension := 256;
          LocalEmbeddingModel.ngram_range := (2, 4) |};
     index := None;
     generator := ResponseGenerator.init None;
     chunk_size := 400;
     overlap := 40;
     _ingested_documents := [];
     _chunk_counter := 0 |}.

Definition set_embedding_model (self : t) (model : LocalEmbeddingModel.t) : t :=
  {| embedding_model := model;
     index := index self;
     generator := generator self;
     chunk_size := chunk_size self;
     overlap := overlap self;
     _ingested_documents := _ingested_documents self;
     _chunk_counter := _chunk_counter self |}.

Definition set_index (self : t) (ix : option index_t) : t :=
  {| embedding_model := embedding_model self;
     index := ix;
     generator := generator self;
     chunk_size := chunk_size self;
     overlap := overlap self;
     _ingested_documents := _ingested_documents self;
     _chunk_counter := _chunk_counter self |}.

Definition set_chunk_counter (self : t) (counter : Z) : t :=
  {| embedding_model := embedding_model self;
     index := index self;
     generator := generator self;
     chunk_size := chunk_size self;
     overlap := overlap self;
     _ingested_documents := _ingested_documents self;
     _chunk_counter := counter |}.

Definition append_ingested (self : t) (entry : list (string * object)) : t :=
  {| embedding_model := embedding_model self;
     index := index self;
     generator := generator self;
     chunk_size := chunk_size self;
     overlap := overlap self;
     _ingested_documents := _ingested_documents self ++ [entry];
     _chunk_counter := _chunk_counter self |}.

(** [_initialise_index(index_type, dimension, params)]; [g] is the generator
    of the new index. *)
Definition _initialise_index (index_type : string) (dimension : Z)
  (params : list (string * Z)) (g : G) : outcome index_t :=
  let index_type := lower index_type in
  if String.eqb index_type "hnsw"
  then
    let ef := dict_get_or params "ef" 32 in
    ix <- HNSWIndex.init dimension ef g ;; Ok (Hnsw ix)
  else if String.eqb index_type "ivf"
  then
    let n_lists := dict_get_or params "n_lists" 4 in
    let iterations := dict_get_or params "iterations" 5 in
    ix <- IVFIndex.init dimension n_lists iterations g ;; Ok (Ivf ix)
  else Raise (ValueError ("Unsupported index type: " ++ index_type)).

(** [configure(index_type=..., dimension=..., chunk_size=..., overlap=...,
    generator_max_tokens=..., index_params=...)]: every assignment that
    precedes a [raise] stays. *)
Definition configure (self : t) (index_type : string)
  (dimension chunk_size overlap : Z) (generator_max_tokens : option Z)
  (index_params : option (list (string * Z))) (g : G)
  : t * outcome Configured.t :=
  let params := match index_params with Some p => p | None => [] end in
  match LocalEmbeddingModel.init dimension (2, 4) with
  | Raise e => (self, Raise e)
  | Ok model =>
      let self := set_embedding_model self model in
      match _initialise_index index_type dimension params g with
      | Raise e => (self, Raise e)
      | Ok ix =>
          let self := set_index self (Some ix) in
          let created :=
            match generator_max_tokens with
            | Some max_tokens =>
                fusion <- ContextFusion.init max_tokens ;;
                Ok (ResponseGenerator.init (Some fusion))
            | None => Ok (ResponseGenerator.init None)
            end in
          match created with
          | Raise e => (self, Raise e)
          | Ok generator =>
              ({| embedding_model := model;
                  index := Some ix;
                  generator := generator;
                  chunk_size := chunk_size;
                  overlap := overlap;
                  _ingested_documents := [];
                  _chunk_counter := 0 |},
               Ok {| Configured.index := index_type;
                     Configured.dimension := dimension;
                     Configured.chunk_size := chunk_size;
                     Configured.overlap := overlap;
                     Configured.index_params := params;
                     Configured.generator_max_tokens := generator_max_tokens |})
          end
      end
  end.

(** [_prepare_chunks(document, document_id=...)] *)
Definition _prepare_chunks (self : t) (document : list (string * object))
  (document_id : Z) : outcome (list TextChunk.t) :=
  match dict_get_or document "content" (Str "") with
  | Str content =>
      if String.eqb (strip content) ""
      then Raise (ValueError "Document content must be a non-empty string")
      else
        match dict_get_or document "metadata" (Dict [] "{}") with
        | Dict metadata _ =>
            let label :=
              str (dict_get_or document "name"
                     (dict_get_or metadata "source"
                        (Str ("document-" ++ str_int document_id)))) in
            let chunk_metadata :=
              [("document_id"%string, str_int document_id);
               ("source"%string, label)] in
            let chunk_metadata :=
              dict_update chunk_metadata (_stringify_metadata metadata) in
            chunk_text content (chunk_size self) (overlap self)
                       (Some chunk_metadata)
        | _ => Raise (ValueError "Document metadata must be a dictionary")
        end
  | _ => Raise (ValueError "Document content must be a non-empty string")
  end.

(** [_embed_chunks(chunks)]; [fresh] is the identity of the first
    [IndexedVector] that the call creates, the others follow it. *)
Fixpoint _embed_chunks (self : t) (chunks : list TextChunk.t) (fresh : nat)
  : t * outcome (list IndexedVector) :=
  match chunks with
  | [] => (self, Ok [])
  | chunk :: rest =>
      let metadata := TextChunk.metadata chunk in
      let metadata :=
        dict_setdefault metadata "chunk_id" (str_int (_chunk_counter self)) in
      let metadata := dict_setdefault metadata "text" (TextChunk.text chunk) in
      let metadata :=
        _stringify_metadata
          (map (fun entry => (fst entry, Str (snd entry))) metadata) in
      match LocalEmbeddingModel.embed hash lower (embedding_model self)
                                      (TextChunk.text chunk) with
      | Raise e => (self, Raise e)
      | Ok vector =>
          let item :=
            {| vector := vector; metadata := metadata; obj_id := fresh |} in
          let self := set_chunk_counter self (_chunk_counter self + 1) in
          let (self, vectors) := _embed_chunks self rest (S fresh) in
          (self, vectors <- vectors ;; Ok (item :: vectors))
      end
  end.

(** The training step of [ingest]: an [IVFIndex] without centroids is fit
    on the vectors of the document at hand. *)
Definition fit_if_untrained (ix : index_t) (indexed_vectors : list IndexedVector)
  : index_t * outcome unit :=
  match ix with
  | Ivf ivf =>
      match IVFIndex._centroids ivf with
      | [] =>
          let raw_vectors := map vector indexed_vectors in
          if len raw_vectors <? IVFIndex.n_lists ivf
          then
            (ix,
             Raise (ValueError
                      ("Not enough unique chunks to initialise IVF index; "
                       ++ "expected at least " ++ str_int (IVFIndex.n_lists ivf)
                       ++ ", received " ++ str_int (len raw_vectors))))
          else
            let (ivf, r) := IVFIndex.fit ivf raw_vectors in (Ivf ivf, r)
      | _ :: _ => (ix, Ok tt)
      end
  | Hnsw _ => (ix, Ok tt)
  end.

(** [self.index.add(indexed_vectors)] *)
Definition index_add (ix : index_t) (items : list IndexedVector)
  : index_t * outcome unit :=
  match ix with
  | Hnsw hnsw => let (hnsw, r) := HNSWIndex.add hnsw items in (Hnsw hnsw, r)
  | Ivf ivf => let (ivf, r) := IVFIndex.add ivf items in (Ivf ivf, r)
  end.

(** The loop of [ingest] from document number [doc_index], on the index
    object [ix] that [self.index] refers to throughout, with the three
    collections that it fills. *)
Fixpoint ingest_loop (self : t) (ix : index_t)
  (documents : list (list (string * object))) (doc_index : Z) (fresh : nat)
  (summaries : list Summary.t) (total_chunks : Z)
  (duplicates_summary : list (string * list string))
  : t * index_t * outcome Ingested.t :=
  match documents with
  | [] =>
      (self, ix,
       Ok {| Ingested.documents := summaries;
             Ingested.chunks := total_chunks;
             Ingested.duplicates := duplicates_summary |})
  | document :: rest =>
      match _prepare_chunks self document
                            (len (_ingested_documents self) + doc_index) with
      | Raise e => (self, ix, Raise e)
      | Ok chunks =>
          let dedup_result := deduplicate_chunks sha256 strip chunks "" in
          match _embed_chunks
                  self (DeduplicatedResult.unique_chunks dedup_result) fresh with
          | (self, Raise e) => (self, ix, Raise e)
          | (self, Ok indexed_vectors) =>
              match fit_if_untrained ix indexed_vectors with
              | (ix, Raise e) => (self, ix, Raise e)
              | (ix, Ok _) =>
                  match index_add ix indexed_vectors with
                  | (ix, Raise e) => (self, ix, Raise e)
                  | (ix, Ok _) =>
                      let total_chunks := total_chunks + len indexed_vectors in
                      let duplicates_summary :=
                        dict_update duplicates_summary
                                    (DeduplicatedResult.duplicates dedup_result) in
                      let summary :=
                        {| Summary.name := dict_get_or document "name" py_none;
                           Summary.metadata :=
                             _stringify_metadata
                               (dict_items
                                  (dict_get_or document "metadata"
                                               (Dict [] "{}")));
                           Summary.chunks := len indexed_vectors |} in
                      let summaries := summaries ++ [summary] in
                      let label :=
                        if truthy (Summary.name summary)
                        then Summary.name summary
                        else Str (dict_get_or (Summary.metadata summary)
                                              "source" "unknown"%string) in
                      let self :=
                        append_ingested
                          self
                          [("label"%string, label);
                           ("chunks"%string,
                            Str (str_int (Summary.chunks summary)))] in
                      ingest_loop self ix rest (doc_index + 1)
                                  (fresh + length indexed_vectors)
                                  summaries total_chunks duplicates_summary
                  end
              end
          end
      end
  end.

(** [ingest(documents)]; [fresh] is the identity of the first
    [IndexedVector] that the call creates. *)
Definition ingest (self : t) (documents : list (list (string * object)))
  (fresh : nat) : t * outcome Ingested.t :=
  match index self with
  | None => (self, Raise (RuntimeError "Pipeline has not been configured"))
  | Some ix =>
      let '(self, ix, r) := ingest_loop self ix documents 1 fresh [] 0 [] in
      (set_index self (Some ix), r)
  end.

(** [_build_snippets(results)] *)
Fixpoint _build_snippets (results : Result) : list ContextSnippet.t :=
  match results with
  | [] => []
  | (score, metadata) :: rest =>
      let text := dict_get_or metadata "text" ""%string in
      if String.eqb text "" then _build_snippets rest
      else
        let snippet_metadata :=
          dict_setdefault
            metadata "source"
            (dict_get_or metadata "source_path"
                         (dict_get_or metadata "source" "unknown"%string)) in
        {| ContextSnippet.content := text;
           ContextSnippet.metadata := snippet_metadata;
           ContextSnippet.score := score |}
        :: _build_snippets rest
  end.

(** [self.index.search(vector, k=k, **retrieval_params)] with the retrieval
    parameter [n_probe] or none; the Sampled Flat Index ignores it. *)
Definition index_search (ix : index_t) (vector : Vector) (k : Z)
  (n_probe : option Z) : index_t * outcome Result :=
  match ix with
  | Hnsw hnsw =>
      let (hnsw, r) := HNSWIndex.search hnsw vector k in (Hnsw hnsw, r)
  | Ivf ivf => (ix, IVFIndex.search ivf vector k n_probe)
  end.

(** [query(question, k=..., retrieval_params=...)] *)
Definition query (self : t) (question : string) (k : Z) (n_probe : option Z)
  : t * outcome Answered.t :=
  match index self with
  | None => (self, Raise (RuntimeError "Pipeline has not been configured"))
  | Some ix =>
      if String.eqb (strip question) ""
      then (self, Raise (ValueError "Question must be a non-empty string"))
      else
        match LocalEmbeddingModel.embed hash lower (embedding_model self)
                                        question with
        | Raise e => (self, Raise e)
        | Ok vector =>
            let (ix, results) := index_search ix vector k n_probe in
            let self := set_index self (Some ix) in
            match results with
            | Raise e => (self, Raise e)
            | Ok results =>
                let snippets := _build_snippets results in
                let generated :=
                  ResponseGenerator.generate split (generator self) question
                                             snippets in
                (self,
                 Ok {| Answered.answer := GeneratedResponse.answer generated;
                       Answered.citations :=
                         GeneratedResponse.citations generated;
                       Answered.snippets := snippets |})
            end
        end
  end.

End WithRandom.

Arguments t G : clear implicits.
Arguments index_t G : clear implicits.

End PipelineState.

(** ** A scripted random source to run the model

    The state is the list of the draws still to come, each a list of
    positions: [sample] and [shuffle] hand out the next one. A scripted draw
    that is not a possible outcome of the call (wrong length, a repeated or
    out-of-range position) is replaced by the positions in order. It stands
    in for [random.Random(seed)] where a concrete generator is needed to
    evaluate the model, and it meets the laws of [RandomSource]. *)

Module Replay.

Definition t : Type := list (list nat).

Fixpoint distinct (l : list nat) : bool :=
  match l with
  | [] => true
  | i :: l' => negb (existsb (Nat.eqb i) l') && distinct l'
  end.

(** [draw] is a possible result of sampling [k] of [n] positions. *)
Definition possible (draw : list nat) (n k : nat) : bool :=
  Nat.eqb (length draw) k && distinct draw
  && forallb (fun i => Nat.ltb i n) draw.

Definition sample (g : t) (n k : nat) : list nat * t :=
  match g with
  | draw :: g' =>
      if possible draw n k then (draw, g') else (firstn k (seq 0 n), g')
  | [] => (firstn k (seq 0 n), [])
  end.

Definition shuffle (g : t) (l : list nat) : list nat * t :=
  match g with
  | draw :: g' =>
      if possible draw (length l) (length l) then (select l draw, g')
      else (l, g')
  | [] => (l, [])
  end.

Definition random (g : t) : float * t := (0.5%float, g).

End Replay.

(** ** The scripted random source meets the laws *)

Lemma distinct_NoDup (l : list nat) : Replay.distinct l = true -> NoDup l.
Proof.
  induction l as [|i l IH]; cbn [Replay.distinct]; intros E; [constructor|].
  apply andb_prop in E. destruct E as [E1 E2]. constructor; auto.
  intros Hi. apply negb_true_iff in E1.
  assert (E : existsb (Nat.eqb i) l = true).
  { apply existsb_exists. exists i. split; [assumption | apply Nat.eqb_refl]. }
  congruence.
Qed.

Lemma possible_spec (draw : list nat) (n k : nat) :
  Replay.possible draw n k = true ->
  length draw = k /\ NoDup draw /\ Forall (fun i => (i < n)%nat) draw.
Proof.
  unfold Replay.possible. intros E.
  apply andb_prop in E. destruct E as [E E3].
  apply andb_prop in E. destruct E as [E1 E2].
  split; [now apply Nat.eqb_eq|]. split; [now apply distinct_NoDup|].
  apply Forall_forall. intros i Hi. rewrite forallb_forall in E3.
  now apply Nat.ltb_lt, E3.
Qed.

Lemma in_order_spec (n k : nat) :
  length (firstn k (seq 0 n)) = Nat.min k n
  /\ NoDup (firstn k (seq 0 n))
  /\ Forall (fun i => (i < n)%nat) (firstn k (seq 0 n)).
Proof.
  split; [now rewrite length_firstn, length_seq|]. split.
  - apply NoDup_app_remove_r with (l' := skipn k (seq 0 n)).
    rewrite firstn_skipn. apply seq_NoDup.
  - apply Forall_forall. intros i Hi.
    assert (Hs : In i (seq 0 n)).
    { rewrite <- (firstn_skipn k (seq 0 n)). apply in_or_app. now left. }
    apply in_seq in Hs. lia.
Qed.

Lemma replay_sample_spec (g : Replay.t) (n k : nat) :
  ((k <= n)%nat -> length (fst (Replay.sample g n k)) = k)
  /\ NoDup (fst (Replay.sample g n k))
  /\ Forall (fun i => (i < n)%nat) (fst (Replay.sample g n k)).
Proof.
  destruct (in_order_spec n k) as (I1 & I2 & I3).
  assert (I : ((k <= n)%nat -> length (firstn k (seq 0 n)) = k)
              /\ NoDup (firstn k (seq 0 n))
              /\ Forall (fun i => (i < n)%nat) (firstn k (seq 0 n)))
    by (repeat split; auto; lia).
  unfold Replay.sample. destruct g as [|draw g]; [exact I|].
  destruct (Replay.possible draw n k) eqn:E; [|exact I].
  cbn [fst]. destruct (possible_spec draw n k E) as (H1 & H2 & H3).
  repeat split; auto.
Qed.

Lemma replay_sample_length (g : Replay.t) (n k : nat) :
  (k <= n)%nat -> length (fst (Replay.sample g n k)) = k.
Proof. apply replay_sample_spec. Qed.

Lemma replay_sample_NoDup (g : Replay.t) (n k : nat) :
  NoDup (fst (Replay.sample g n k)).
Proof. apply replay_sample_spec. Qed.

Lemma replay_sample_bound (g : Replay.t) (n k : nat) :
  Forall (fun i => (i < n)%nat) (fst (Replay.sample g n k)).
Proof. apply replay_sample_spec. Qed.

Lemma select_all {A : Type} (l : list A) : select l (seq 0 (length l)) = l.
Proof.
  unfold select.
  induction l as [|x l IH] using rev_ind; [reflexivity|].
  rewrite length_app. cbn [length]. rewrite Nat.add_1_r, seq_S, flat_map_app.
  cbn [flat_map Nat.add]. rewrite nth_error_app2, Nat.sub_diag by lia.
  cbn [nth_error app]. rewrite <- IH at 2. f_equal.
  rewrite !flat_map_concat_map. f_equal.
  apply map_ext_in. intros i Hi. apply in_seq in Hi.
  rewrite nth_error_app1 by lia. reflexivity.
Qed.

Lemma select_perm {A : Type} (l : list A) (positions : list nat) :
  Permutation positions (seq 0 (length l)) -> Permutation (select l positions) l.
Proof.
  intros HP. rewrite <- (select_all l) at 2.
  unfold select. now apply Permutation_flat_map.
Qed.

Lemma full_draw_perm (positions : list nat) (n : nat) :
  length positions = n -> NoDup positions ->
  Forall (fun i => (i < n)%nat) positions ->
  Permutation positions (seq 0 n).
Proof.
  intros HL HN HB. apply NoDup_Permutation_bis; auto.
  - rewrite length_seq. lia.
  - intros i Hi. apply in_seq. rewrite Forall_forall in HB.
    specialize (HB i Hi). lia.
Qed.

Lemma replay_shuffle_perm (g : Replay.t) (l : list nat) :
  Permutation (fst (Replay.shuffle g l)) l.
Proof.
  unfold Replay.shuffle. destruct g as [|draw g]; [reflexivity|].
  destruct (Replay.possible draw (length l) (length l)) eqn:E; [|reflexivity].
  cbn [fst]. destruct (possible_spec _ _ _ E) as (H1 & H2 & H3).
  now apply select_perm, full_draw_perm.
Qed.

#[global] Instance replay_source : RandomSource Replay.t := {
  sample := Replay.sample;
  shuffle := Replay.shuffle;
  random := Replay.random;
  sample_length := replay_sample_length;
  sample_NoDup := replay_sample_NoDup;
  sample_bound := replay_sample_bound;
  shuffle_perm := replay_shuffle_perm
}.

(** ** Sample data to run the model *)

Module Demo.

Definition item (x y : float) (name : string) (i : nat) : IndexedVector :=
  {| vector := [x; y]; metadata := [("text"%string, name)]; obj_id := i |}.

(** Three stored directions; the query of the examples is [[1.0; 0.0]], to
    which they score 0.0, -1.0 and 1.0. *)
Definition items : list IndexedVector :=
  [item 0 1 "north" 0; item (-1) 0 "west" 1; item 1 0 "east" 2].

Definition scored : Result :=
  [(0%float, [("text", "north")]);
   ((-1)%float, [("text", "west")]);
   (1%float, [("text", "east")])]%string.

Definition query : Vector := [1%float; 0%float].

(** [HNSWIndex(dimension=2, ef=ef, seed=...)] after [add(items)]; [draws]
    are the samples that the generator will hand out. *)
Definition hnsw (ef : Z) (draws : Replay.t) : HNSWIndex.t Replay.t :=
  match HNSWIndex.init 2 ef draws with
  | Ok self => fst (HNSWIndex.add self items)
  | Raise _ => HNSWIndex.Build_t 2 1 draws []
  end.

(** [IVFIndex(dimension=2, n_lists=2, iterations=3, seed=...)] whose
    generator shuffles three indices to [[1; 0; 2]]. *)
Definition ivf_new : IVFIndex.t Replay.t :=
  {| IVFIndex.dimension := 2; IVFIndex.n_lists := 2;
     IVFIndex.iterations := 3; IVFIndex._rng := [[1; 0; 2]%nat];
     IVFIndex._centroids := []; IVFIndex._lists := [] |}.

(** After [fit] on the vectors of [items]. *)
Definition ivf_fitted : IVFIndex.t Replay.t :=
  fst (IVFIndex.fit ivf_new (map vector items)).

(** After [fit], then [add(items)]. *)
Definition ivf : IVFIndex.t Replay.t :=
  fst (IVFIndex.add ivf_fitted items).

End Demo.

(** * Properties *)

(** ** The order of floats

    [<] on binary64 is a strict order in which NaN is related to nothing;
    away from NaN, "not smaller" is transitive and a tie is [==]. *)

Lemma SFcompare_rank (f1 f2 : spec_float) :
  f1 <> S754_nan -> f2 <> S754_nan ->
  SFcompare f1 f2 = Some (Float.lex3 (Float.rank f1) (Float.rank f2)).
Proof.
  intros H1 H2.
  destruct f1 as [[]|[]| |[] m1 e1]; destruct f2 as [[]|[]| |[] m2 e2];
    try congruence; try reflexivity; cbn [SFcompare Float.rank Float.lex3].
  change (-1 ?= -1) with Eq. cbv iota.
  rewrite Z.compare_opp, (Z.compare_antisym e1 e2).
  destruct (e1 ?= e2)%Z; cbn; try reflexivity.
Qed.

Lemma lex3_refl (a : Z * Z * Z) : Float.lex3 a a = Eq.
Proof.
  destruct a as [[a1 a2] a3]. unfold Float.lex3.
  now rewrite !Z.compare_refl.
Qed.

Ltac lex3_cases :=
  unfold Float.lex3;
  repeat match goal with
         | |- context [(?x ?= ?y)%Z] => destruct (Z.compare_spec x y)
         | H : context [(?x ?= ?y)%Z] |- _ => destruct (Z.compare_spec x y)
         end;
  try congruence; try lia.

Lemma lex3_asym (a b : Z * Z * Z) :
  Float.lex3 a b = Lt -> Float.lex3 b a = Gt.
Proof.
  destruct a as [[a1 a2] a3], b as [[b1 b2] b3]. lex3_cases.
Qed.

Lemma lex3_trans (a b c : Z * Z * Z) :
  Float.lex3 a b = Lt -> Float.lex3 b c = Lt -> Float.lex3 a c = Lt.
Proof.
  destruct a as [[a1 a2] a3], b as [[b1 b2] b3], c as [[c1 c2] c3]. lex3_cases.
Qed.

Lemma lex3_negtrans (a b c : Z * Z * Z) :
  Float.lex3 a b <> Lt -> Float.lex3 b c <> Lt -> Float.lex3 a c <> Lt.
Proof.
  destruct a as [[a1 a2] a3], b as [[b1 b2] b3], c as [[c1 c2] c3]. lex3_cases.
Qed.

Lemma lex3_tie (a b : Z * Z * Z) :
  Float.lex3 a b <> Lt -> Float.lex3 b a <> Lt -> Float.lex3 a b = Eq.
Proof.
  destruct a as [[a1 a2] a3], b as [[b1 b2] b3]. lex3_cases.
Qed.

Lemma not_nan_spec (x : float) :
  Float.not_nan x <-> Prim2SF x <> S754_nan.
Proof.
  unfold Float.not_nan, PrimFloat.is_nan. rewrite eqb_spec. unfold SFeqb.
  split.
  - intros H E. rewrite E in H. discriminate.
  - intros H. rewrite (SFcompare_rank _ _ H H), lex3_refl. reflexivity.
Qed.

Lemma ltb_rank (x y : float) :
  Float.not_nan x -> Float.not_nan y ->
  PrimFloat.ltb x y =
  match Float.lex3 (Float.rank (Prim2SF x)) (Float.rank (Prim2SF y)) with
  | Lt => true
  | _ => false
  end.
Proof.
  intros Hx Hy. apply not_nan_spec in Hx, Hy.
  rewrite ltb_spec. unfold SFltb. now rewrite (SFcompare_rank _ _ Hx Hy).
Qed.

Lemma ltb_not_nan (x y : float) :
  PrimFloat.ltb x y = true -> Float.not_nan x /\ Float.not_nan y.
Proof.
  rewrite ltb_spec. unfold SFltb. intros H.
  split; apply not_nan_spec; intros E; rewrite E in H.
  - discriminate.
  - destruct (Prim2SF x); discriminate.
Qed.

Lemma ltb_irrefl (x : float) : PrimFloat.ltb x x = false.
Proof.
  destruct (PrimFloat.ltb x x) eqn:E; [|reflexivity].
  destruct (ltb_not_nan _ _ E) as [Hx _].
  rewrite (ltb_rank _ _ Hx Hx), lex3_refl in E. discriminate.
Qed.

Lemma ltb_asym (x y : float) :
  PrimFloat.ltb x y = true -> PrimFloat.ltb y x = false.
Proof.
  intros H. destruct (ltb_not_nan _ _ H) as [Hx Hy].
  rewrite (ltb_rank _ _ Hx Hy) in H. rewrite (ltb_rank _ _ Hy Hx).
  destruct (Float.lex3 (Float.rank (Prim2SF x)) (Float.rank (Prim2SF y))) eqn:E;
    try discriminate.
  now rewrite (lex3_asym _ _ E).
Qed.

Lemma ltb_trans (x y z : float) :
  PrimFloat.ltb x y = true -> PrimFloat.ltb y z = true ->
  PrimFloat.ltb x z = true.
Proof.
  intros H1 H2.
  destruct (ltb_not_nan _ _ H1) as [Hx Hy], (ltb_not_nan _ _ H2) as [_ Hz].
  rewrite (ltb_rank _ _ Hx Hy) in H1. rewrite (ltb_rank _ _ Hy Hz) in H2.
  rewrite (ltb_rank _ _ Hx Hz).
  destruct (Float.lex3 (Float.rank (Prim2SF x)) (Float.rank (Prim2SF y))) eqn:E1;
    try discriminate.
  destruct (Float.lex3 (Float.rank (Prim2SF y)) (Float.rank (Prim2SF z))) eqn:E2;
    try discriminate.
  now rewrite (lex3_trans _ _ _ E1 E2).
Qed.

(** "Not smaller" chains through a float that is not a NaN. *)
Lemma ltb_negtrans (x y z : float) :
  Float.not_nan y ->
  PrimFloat.ltb x y = false -> PrimFloat.ltb y z = false ->
  PrimFloat.ltb x z = false.
Proof.
  intros Hy H1 H2.
  destruct (PrimFloat.ltb x z) eqn:E; [|reflexivity].
  destruct (ltb_not_nan _ _ E) as [Hx Hz].
  rewrite (ltb_rank _ _ Hx Hy) in H1. rewrite (ltb_rank _ _ Hy Hz) in H2.
  rewrite (ltb_rank _ _ Hx Hz) in E.
  assert (A : Float.lex3 (Float.rank (Prim2SF x)) (Float.rank (Prim2SF z)) <> Lt).
  { apply lex3_negtrans with (b := Float.rank (Prim2SF y)); intros F;
      rewrite F in *; discriminate. }
  destruct (Float.lex3 (Float.rank (Prim2SF x)) (Float.rank (Prim2SF z)));
    congruence.
Qed.

Lemma tie_eqb (x y : float) :
  Float.not_nan x -> Float.not_nan y ->
  Float.tie x y -> PrimFloat.eqb x y = true.
Proof.
  intros Hx Hy [H1 H2].
  rewrite (ltb_rank _ _ Hx Hy) in H1. rewrite (ltb_rank _ _ Hy Hx) in H2.
  rewrite eqb_spec. unfold SFeqb.
  apply not_nan_spec in Hx, Hy. rewrite (SFcompare_rank _ _ Hx Hy).
  rewrite lex3_tie; [reflexivity | |]; intros F; rewrite F in *; discriminate.
Qed.

Lemma tie_refl (x : float) : Float.tie x x.
Proof. split; apply ltb_irrefl. Qed.

Lemma tie_sym (x y : float) : Float.tie x y -> Float.tie y x.
Proof. intros [H1 H2]. now split. Qed.


Lemma tie_ltb_r (x a b : float) :
  Float.not_nan a -> Float.not_nan b -> Float.tie a b ->
  PrimFloat.ltb x a = PrimFloat.ltb x b.
Proof.
  intros Ha Hb [H1 H2].
  destruct (PrimFloat.ltb x a) eqn:Ea, (PrimFloat.ltb x b) eqn:Eb; try reflexivity.
  - rewrite (ltb_negtrans x b a Hb Eb H2) in Ea. discriminate.
  - rewrite (ltb_negtrans x a b Ha Ea H1) in Eb. discriminate.
Qed.

(** ** The outcome monad *)

Definition oks {A B : Type} (f : A -> outcome B) (l : list A) : list B :=
  flat_map (fun a => match f a with Ok b => [b] | Raise _ => [] end) l.

Definition all_ok {A B : Type} (f : A -> outcome B) (l : list A) : Prop :=
  Forall (fun a => exists b, f a = Ok b) l.

Lemma mapM_oks {A B : Type} (f : A -> outcome B) (l : list A) (r : list B) :
  mapM f l = Ok r <-> all_ok f l /\ r = oks f l.
Proof.
  revert r. induction l as [|a l IH]; intros r; cbn [mapM].
  - split.
    + intros E. injection E as <-. split; [constructor | reflexivity].
    + intros [_ ->]. reflexivity.
  - unfold all_ok, oks in *. cbn [flat_map]. split.
    + intros E. destruct (f a) as [b|e] eqn:Ea; cbn [bind] in E; [|discriminate].
      destruct (mapM f l) as [bs|e] eqn:El; cbn [bind] in E; [|discriminate].
      injection E as <-. destruct (proj1 (IH bs) eq_refl) as [Hall ->].
      split; [constructor; eauto | reflexivity].
    + intros [Hall ->]. inversion Hall as [|? ? [b Eb] Hl]; subst.
      rewrite Eb. cbn [bind]. rewrite (proj2 (IH _) (conj Hl eq_refl)).
      reflexivity.
Qed.

Lemma mapM_perm {A B : Type} (f : A -> outcome B) (l l' : list A) (r : list B) :
  Permutation l l' -> mapM f l = Ok r ->
  exists r', mapM f l' = Ok r' /\ Permutation r' r.
Proof.
  intros HP E. apply mapM_oks in E. destruct E as [Hall ->].
  exists (oks f l'). split.
  - apply mapM_oks. split; [|reflexivity].
    unfold all_ok. now rewrite <- HP.
  - unfold oks. now apply Permutation_flat_map, Permutation_sym.
Qed.

Lemma mapM_length {A B : Type} (f : A -> outcome B) (l : list A) (r : list B) :
  mapM f l = Ok r -> length r = length l.
Proof.
  revert r. induction l as [|a l IH]; intros r; cbn [mapM].
  - intros E. now injection E as <-.
  - destruct (f a) as [b|e]; cbn [bind]; [|discriminate].
    destruct (mapM f l) as [bs|e]; cbn [bind]; [|discriminate].
    intros E. injection E as <-. cbn [length]. now rewrite (IH bs).
Qed.

(** ** Sorting by a float key *)

Section Sorting.

Context {A : Type}.
Variable key : A -> float.

(** [a] may stand before [b] in a descending order. *)
Definition not_below (a b : A) : Prop := PrimFloat.ltb (key a) (key b) = false.

Definition comparable (l : list A) : Prop :=
  Forall (fun a => Float.not_nan (key a)) l.

(** How many elements of [l] have a key above [x]. *)
Fixpoint count_above (x : float) (l : list A) : nat :=
  match l with
  | [] => O
  | a :: l' => (if PrimFloat.ltb x (key a) then 1 else 0) + count_above x l'
  end.

Lemma insert_desc_perm (x : A) (l : list A) :
  Permutation (insert_desc key x l) (x :: l).
Proof.
  induction l as [|y l IH]; cbn [insert_desc]; [reflexivity|].
  destruct (PrimFloat.ltb (key x) (key y)); [|reflexivity].
  rewrite IH. apply perm_swap.
Qed.

Lemma sort_desc_perm (l : list A) : Permutation (sort_desc key l) l.
Proof.
  induction l as [|x l IH]; cbn [sort_desc]; [reflexivity|].
  rewrite insert_desc_perm. now apply perm_skip.
Qed.

Lemma insert_desc_sorted (x : A) (l : list A) :
  comparable l ->
  StronglySorted not_below l -> StronglySorted not_below (insert_desc key x l).
Proof.
  intros Hc Hs. induction Hs as [|y l Hs IH Hy]; cbn [insert_desc].
  - repeat constructor.
  - inversion Hc as [|? ? Hny Hc']; subst.
    destruct (PrimFloat.ltb (key x) (key y)) eqn:E.
    + constructor; [now apply IH|].
      apply (Permutation_Forall (Permutation_sym (insert_desc_perm x l))).
      constructor; [|assumption]. unfold not_below. now apply ltb_asym.
    + constructor; [now constructor|].
      constructor; [exact E|].
      apply Forall_forall. intros z Hz. rewrite Forall_forall in Hy.
      unfold not_below. apply ltb_negtrans with (y := key y); auto.
      now apply Hy.
Qed.

Lemma sort_desc_sorted (l : list A) :
  comparable l -> StronglySorted not_below (sort_desc key l).
Proof.
  induction l as [|x l IH]; intros Hc; cbn [sort_desc]; [constructor|].
  inversion Hc; subst. apply insert_desc_sorted; auto.
  unfold comparable. now rewrite sort_desc_perm.
Qed.

Lemma count_above_perm (x : float) (l l' : list A) :
  Permutation l l' -> count_above x l = count_above x l'.
Proof.
  induction 1; cbn [count_above]; lia.
Qed.

Lemma count_above_none (a : A) (l : list A) :
  Forall (not_below a) l -> count_above (key a) l = O.
Proof.
  induction 1 as [|z l Hz _ IH]; cbn [count_above]; [reflexivity|].
  unfold not_below in Hz. now rewrite Hz, IH.
Qed.

Lemma count_above_head (a : A) (l : list A) :
  StronglySorted not_below (a :: l) -> count_above (key a) (a :: l) = O.
Proof.
  intros Hs. inversion Hs as [|? ? _ Ha]; subst.
  cbn [count_above]. rewrite ltb_irrefl. now apply count_above_none.
Qed.

(** Two descending lists with the same counts above every threshold agree
    rank by rank, up to ties. *)
Lemma sorted_counts_tie (l1 : list A) : forall l2 : list A,
  comparable l1 -> comparable l2 ->
  StronglySorted not_below l1 -> StronglySorted not_below l2 ->
  length l1 = length l2 ->
  (forall x, count_above x l1 = count_above x l2) ->
  Forall2 (fun a b => Float.tie (key a) (key b)) l1 l2.
Proof.
  induction l1 as [|a l1 IH]; intros [|b l2] Hc1 Hc2 Hs1 Hs2 HL HE;
    try discriminate; [constructor|].
  inversion Hc1 as [|? ? Ha Hc1']; inversion Hc2 as [|? ? Hb Hc2']; subst.
  assert (Ht : Float.tie (key a) (key b)).
  { split.
    - destruct (PrimFloat.ltb (key a) (key b)) eqn:E; [|reflexivity].
      specialize (HE (key a)). rewrite (count_above_head a l1 Hs1) in HE.
      cbn [count_above] in HE. rewrite E in HE. discriminate.
    - destruct (PrimFloat.ltb (key b) (key a)) eqn:E; [|reflexivity].
      specialize (HE (key b)). rewrite (count_above_head b l2 Hs2) in HE.
      cbn [count_above] in HE. rewrite E in HE. discriminate. }
  constructor; [exact Ht|].
  inversion Hs1; inversion Hs2; subst.
  apply IH; auto.
  intros x. specialize (HE x). cbn [count_above] in HE.
  rewrite (tie_ltb_r x (key a) (key b) Ha Hb Ht) in HE. lia.
Qed.

Lemma sorted_perm_tie (l1 l2 : list A) :
  comparable l1 ->
  StronglySorted not_below l1 -> StronglySorted not_below l2 ->
  Permutation l1 l2 ->
  Forall2 (fun a b => Float.tie (key a) (key b)) l1 l2.
Proof.
  intros Hc Hs1 Hs2 HP. apply sorted_counts_tie; auto.
  - unfold comparable. now rewrite <- HP.
  - now apply Permutation_length.
  - intros x. now apply count_above_perm.
Qed.

(** Sorting two arrangements of the same elements gives the same ranking up
    to ties. *)
Lemma sort_desc_perm_tie (l1 l2 : list A) :
  comparable l1 -> Permutation l1 l2 ->
  Forall2 (fun a b => Float.tie (key a) (key b))
          (sort_desc key l1) (sort_desc key l2).
Proof.
  intros Hc HP.
  assert (Hc2 : comparable l2) by (unfold comparable; now rewrite <- HP).
  apply sorted_perm_tie.
  - unfold comparable. now rewrite sort_desc_perm.
  - now apply sort_desc_sorted.
  - now apply sort_desc_sorted.
  - now rewrite !sort_desc_perm.
Qed.

Lemma sorted_app_inv (l1 l2 : list A) :
  StronglySorted not_below (l1 ++ l2) ->
  StronglySorted not_below l1
  /\ Forall (fun x => Forall (fun r => not_below r x) l1) l2.
Proof.
  induction l1 as [|a l1 IH]; cbn [app]; intros Hs.
  - split; [constructor|]. apply Forall_forall. intros; constructor.
  - inversion Hs as [|? ? Hs' Ha]; subst.
    destruct (IH Hs') as [H1 H2]. apply Forall_app in Ha. destruct Ha as [Ha1 Ha2].
    split; [now constructor|].
    rewrite Forall_forall in *. intros x Hx. constructor; auto.
Qed.

End Sorting.

(** ** Ranking *)

Lemma Forall2_firstn {A B : Type} (R : A -> B -> Prop) (n : nat) :
  forall (l1 : list A) (l2 : list B),
    Forall2 R l1 l2 -> Forall2 R (firstn n l1) (firstn n l2).
Proof.
  induction n as [|n IH]; intros l1 l2 HF; cbn [firstn]; [constructor|].
  destruct HF; [constructor|]. constructor; auto.
Qed.

Lemma Forall2_slice_to {A B : Type} (R : A -> B -> Prop) (k : Z)
  (l1 : list A) (l2 : list B) :
  Forall2 R l1 l2 -> Forall2 R (slice_to k l1) (slice_to k l2).
Proof.
  intros HF. unfold slice_to. rewrite (Forall2_length HF).
  destruct (0 <=? k); now apply Forall2_firstn.
Qed.

Lemma firstn_incl {A : Type} (n : nat) (l : list A) : incl (firstn n l) l.
Proof.
  intros x Hx. rewrite <- (firstn_skipn n l). apply in_or_app. now left.
Qed.

Lemma slice_to_incl {A : Type} (k : Z) (l : list A) : incl (slice_to k l) l.
Proof.
  unfold slice_to. destruct (0 <=? k); apply firstn_incl.
Qed.

Lemma rank_top_is_top_k (k : Z) (pool : Result) :
  scores_comparable pool -> 0 <= k ->
  is_top_k (Z.to_nat k) pool (rank_top k pool).
Proof.
  intros Hc Hk. unfold rank_top, slice_to.
  replace (0 <=? k) with true by (symmetry; now apply Z.leb_le).
  pose proof (sort_desc_sorted fst pool Hc) as Hs.
  rewrite <- (firstn_skipn (Z.to_nat k) (sort_desc fst pool)) in Hs.
  apply sorted_app_inv in Hs. destruct Hs as [Hs1 Hs2].
  exists (skipn (Z.to_nat k) (sort_desc fst pool)).
  repeat split; auto.
  - rewrite firstn_skipn. apply sort_desc_perm.
  - rewrite length_firstn, (Permutation_length (sort_desc_perm fst pool)).
    reflexivity.
Qed.

Lemma is_top_k_perm (k : nat) (pool pool' res : Result) :
  Permutation pool pool' -> is_top_k k pool res -> is_top_k k pool' res.
Proof.
  intros HP (rest & H1 & H2 & H3 & H4). exists rest.
  repeat split; auto.
  - now rewrite H1.
  - now rewrite <- (Permutation_length HP).
Qed.

Lemma rank_top_perm (k : Z) (pool pool' : Result) :
  scores_comparable pool -> Permutation pool pool' ->
  same_ranking (rank_top k pool) (rank_top k pool').
Proof.
  intros Hc HP. unfold same_ranking, rank_top.
  assert (Hc' : scores_comparable pool')
    by (unfold scores_comparable; now rewrite <- HP).
  pose proof (Forall2_slice_to _ k _ _ (sort_desc_perm_tie fst pool pool' Hc HP))
    as HF.
  assert (H1 : Forall (fun a => Float.not_nan (fst a))
                      (slice_to k (sort_desc fst pool))).
  { apply Forall_forall. intros a Ha. apply slice_to_incl in Ha.
    apply (Permutation_in _ (sort_desc_perm fst pool)) in Ha.
    unfold scores_comparable in Hc. rewrite Forall_forall in Hc. auto. }
  assert (H2 : Forall (fun a => Float.not_nan (fst a))
                      (slice_to k (sort_desc fst pool'))).
  { apply Forall_forall. intros a Ha. apply slice_to_incl in Ha.
    apply (Permutation_in _ (sort_desc_perm fst pool')) in Ha.
    unfold scores_comparable in Hc'. rewrite Forall_forall in Hc'. auto. }
  revert H1 H2. induction HF as [|a b l1 l2 Ht HF IH]; intros H1 H2;
    [constructor|].
  inversion H1; inversion H2; subst. constructor; auto.
  now apply tie_eqb.
Qed.

(** ** Sampled Flat Index *)

Section HNSW.

Context {G : Type} `{RandomSource G}.

(** With [ef] at least the size of the store the sample is the whole store,
    rearranged, and the top-up loop is not entered. *)
Lemma candidates_cover_store (self : HNSWIndex.t G) :
  len (HNSWIndex._items self) <= HNSWIndex.ef self ->
  exists cs g,
    HNSWIndex.candidates self = (Ok cs, g)
    /\ Permutation cs (HNSWIndex._items self).
Proof.
  intros Hef. unfold HNSWIndex.candidates, len in *.
  set (items := HNSWIndex._items self) in *.
  rewrite Z.min_l by lia.
  replace (Z.of_nat (length items) <? 0) with false by (symmetry; apply Z.ltb_ge; lia).
  rewrite Nat2Z.id.
  pose proof (sample_length (HNSWIndex._rng self) (length items) (length items)
                            (Nat.le_refl _)) as HL.
  pose proof (sample_NoDup (HNSWIndex._rng self) (length items) (length items)) as HN.
  pose proof (sample_bound (HNSWIndex._rng self) (length items) (length items)) as HB.
  destruct (sample (HNSWIndex._rng self) (length items) (length items))
    as [positions g]. cbn [fst] in *.
  assert (HP : Permutation (select items positions) items)
    by (apply select_perm; now apply full_draw_perm).
  rewrite (Permutation_length HP), Z.ltb_irrefl.
  now exists (select items positions), g.
Qed.

Lemma search_cover_store (self : HNSWIndex.t G) (query : Vector) (k : Z)
  (scored : Result) :
  len query = HNSWIndex.dimension self ->
  len (HNSWIndex._items self) <= HNSWIndex.ef self ->
  score_all query (HNSWIndex._items self) = Ok scored ->
  exists scored',
    snd (HNSWIndex.search self query k) = Ok (rank_top k scored')
    /\ Permutation scored' scored.
Proof.
  intros Hq Hef Hs. unfold HNSWIndex.search.
  rewrite Hq, Z.eqb_refl. cbn [negb].
  destruct (HNSWIndex._items self) as [|item items] eqn:Ei.
  - cbn in Hs. injection Hs as <-. exists []. split; [|constructor].
    cbn [snd]. unfold rank_top, slice_to. cbn [sort_desc].
    destruct (0 <=? k); now rewrite firstn_nil.
  - destruct (candidates_cover_store self) as (cs & g & Ec & HP).
    { now rewrite Ei. }
    rewrite Ec. cbn [snd bind]. rewrite Ei in HP.
    destruct (mapM_perm _ _ _ _ (Permutation_sym HP) Hs) as (scored' & E' & HP').
    unfold score_all in *. rewrite E'. cbn [bind]. now exists scored'.
Qed.

End HNSW.

Section HNSWMore.

Context {G : Type} `{RandomSource G}.

Lemma select_length {A : Type} (l : list A) (positions : list nat) :
  Forall (fun i => (i < length l)%nat) positions ->
  length (select l positions) = length positions.
Proof.
  unfold select. induction 1 as [|i positions Hi _ IH]; [reflexivity|].
  cbn [flat_map]. rewrite length_app, IH.
  destruct (nth_error l i) eqn:E; [reflexivity|].
  apply nth_error_None in E. lia.
Qed.

Definition seen_all (seen : list nat) (items : list IndexedVector) : bool :=
  forallb (fun item => existsb (Nat.eqb (obj_id item)) seen) items.

(** Once the candidates number [ef - 1] or more, the top-up loop appends
    the first unseen item and leaves. *)
Lemma top_up_length (ef : Z) (seen : list nat) (items : list IndexedVector) :
  forall cands : list IndexedVector,
    ef <= len cands + 1 ->
    length (HNSWIndex.top_up ef seen items cands)
    = (length cands + if seen_all seen items then 0 else 1)%nat.
Proof.
  induction items as [|item items IH]; intros cands Hef;
    cbn [HNSWIndex.top_up seen_all forallb].
  - lia.
  - destruct (existsb (Nat.eqb (obj_id item)) seen); cbn [andb].
    + now apply IH.
    + replace (ef <=? len (cands ++ [item])) with true.
      * rewrite length_app. reflexivity.
      * symmetry. apply Z.leb_le. unfold len in *. rewrite length_app.
        cbn [length]. lia.
Qed.

Lemma seen_all_short (seen : list nat) (items : list IndexedVector) :
  NoDup (map obj_id items) -> (length seen < length items)%nat ->
  seen_all seen items = false.
Proof.
  intros HN HL. destruct (seen_all seen items) eqn:E; [|reflexivity].
  exfalso. unfold seen_all in E. rewrite forallb_forall in E.
  assert (Hi : incl (map obj_id items) seen).
  { intros i Hi. apply in_map_iff in Hi. destruct Hi as (item & <- & Hitem).
    specialize (E item Hitem). apply existsb_exists in E.
    destruct E as (j & Hj & Ej). apply Nat.eqb_eq in Ej. now subst. }
  pose proof (NoDup_incl_length HN Hi) as HLe. rewrite length_map in HLe. lia.
Qed.

(** With distinct stored objects and [1 <= ef < |store|], [search] scores
    [ef + 1] candidates. *)
Lemma candidates_beyond_ef (self : HNSWIndex.t G) :
  NoDup (map obj_id (HNSWIndex._items self)) ->
  1 <= HNSWIndex.ef self < len (HNSWIndex._items self) ->
  exists cs g,
    HNSWIndex.candidates self = (Ok cs, g)
    /\ len cs = HNSWIndex.ef self + 1.
Proof.
  intros HN Hef. unfold HNSWIndex.candidates, len in *.
  set (items := HNSWIndex._items self) in *.
  set (ef := HNSWIndex.ef self) in *.
  rewrite Z.min_r by lia.
  replace (ef <? 0) with false by (symmetry; apply Z.ltb_ge; lia).
  assert (Hk : (Z.to_nat ef <= length items)%nat) by lia.
  pose proof (sample_length (HNSWIndex._rng self) (length items) (Z.to_nat ef) Hk) as HL.
  pose proof (sample_bound (HNSWIndex._rng self) (length items) (Z.to_nat ef)) as HB.
  destruct (sample (HNSWIndex._rng self) (length items) (Z.to_nat ef))
    as [positions g]. cbn [fst] in *.
  pose proof (select_length items positions HB) as HS.
  replace (Z.of_nat (length (select items positions)) <? Z.of_nat (length items))
    with true by (symmetry; apply Z.ltb_lt; lia).
  eexists. exists g. split; [reflexivity|].
  rewrite top_up_length by (unfold len; lia).
  rewrite seen_all_short; [lia | assumption | rewrite length_map; lia].
Qed.

Lemma add_app (items1 items2 : list IndexedVector) : forall self : HNSWIndex.t G,
  HNSWIndex.add self (items1 ++ items2)
  = match HNSWIndex.add self items1 with
    | (self1, Ok _) => HNSWIndex.add self1 items2
    | (self1, Raise e) => (self1, Raise e)
    end.
Proof.
  induction items1 as [|item items1 IH]; intros self;
    cbn [app HNSWIndex.add]; [reflexivity|].
  destruct (negb (len (vector item) =? HNSWIndex.dimension self));
    [reflexivity | apply IH].
Qed.

(** A batch of items of the right dimension is stored whole, in order. *)
Lemma add_valid (items : list IndexedVector) : forall self : HNSWIndex.t G,
  Forall (fun item => len (vector item) = HNSWIndex.dimension self) items ->
  HNSWIndex.add self items
  = ({| HNSWIndex.dimension := HNSWIndex.dimension self;
        HNSWIndex.ef := HNSWIndex.ef self;
        HNSWIndex._rng := HNSWIndex._rng self;
        HNSWIndex._items := HNSWIndex._items self ++ items |}, Ok tt).
Proof.
  induction items as [|item items IH]; intros self HF; cbn [HNSWIndex.add].
  - rewrite app_nil_r. now destruct self.
  - inversion HF as [|? ? Hi HF']; subst. rewrite Hi, Z.eqb_refl. cbn [negb].
    rewrite IH by exact HF'. unfold HNSWIndex.append. cbn.
    now rewrite <- app_assoc.
Qed.

(** [search] changes nothing but the generator. *)
Lemma search_state (self : HNSWIndex.t G) (query : Vector) (k : Z) :
  exists g, fst (HNSWIndex.search self query k) = HNSWIndex.set_rng self g.
Proof.
  unfold HNSWIndex.search.
  destruct (negb (len query =? HNSWIndex.dimension self)).
  - exists (HNSWIndex._rng self). now destruct self.
  - destruct (HNSWIndex._items self) eqn:E.
    + exists (HNSWIndex._rng self). now destruct self.
    + destruct (HNSWIndex.candidates self) as [cs g]. now exists g.
Qed.

Lemma select_incl {A : Type} (l : list A) (positions : list nat) :
  incl (select l positions) l.
Proof.
  unfold select. intros x Hx. apply in_flat_map in Hx.
  destruct Hx as (i & _ & Hx). destruct (nth_error l i) eqn:E; [|contradiction].
  destruct Hx as [<-|[]]. eapply nth_error_In; eauto.
Qed.

Lemma top_up_incl (ef : Z) (seen : list nat) (items pool : list IndexedVector) :
  forall cands : list IndexedVector,
    incl items pool -> incl cands pool ->
    incl (HNSWIndex.top_up ef seen items cands) pool.
Proof.
  induction items as [|item items IH]; intros cands Hi Hc;
    cbn [HNSWIndex.top_up]; [assumption|].
  assert (Hi' : incl items pool) by (intros x Hx; apply Hi; now right).
  destruct (existsb (Nat.eqb (obj_id item)) seen); [now apply IH|].
  assert (Hc' : incl (cands ++ [item]) pool).
  { apply incl_app; [assumption|]. intros x [<-|[]]. apply Hi. now left. }
  destruct (ef <=? len (cands ++ [item])); [assumption | now apply IH].
Qed.

(** Whatever is scored is stored. *)
Lemma candidates_incl (self : HNSWIndex.t G) (cs : list IndexedVector) (g : G) :
  HNSWIndex.candidates self = (Ok cs, g) -> incl cs (HNSWIndex._items self).
Proof.
  unfold HNSWIndex.candidates.
  destruct (Z.min _ _ <? 0); [discriminate|].
  destruct (sample _ _ _) as [positions g'].
  destruct (len _ <? len _); intros E; injection E as <- _.
  - apply top_up_incl; [apply incl_refl | apply select_incl].
  - apply select_incl.
Qed.

Lemma mapM_incl {A B : Type} (f : A -> outcome B) (l l' : list A) (r : list B) :
  incl l' l -> mapM f l = Ok r -> exists r', mapM f l' = Ok r'.
Proof.
  intros Hi E. apply mapM_oks in E. destruct E as [Hall _].
  exists (oks f l'). apply mapM_oks. split; [|reflexivity].
  unfold all_ok in *. rewrite Forall_forall in *. auto.
Qed.

End HNSWMore.

Lemma Forall2_eq_in {A : Type} (R : A -> A -> Prop) (l1 l2 : list A) :
  Forall2 R l1 l2 ->
  (forall a b, In a l1 -> In b l2 -> R a b -> a = b) ->
  l1 = l2.
Proof.
  induction 1 as [|a b l1 l2 Hab _ IH]; intros HR; [reflexivity|].
  f_equal.
  - apply HR; simpl; auto.
  - apply IH. intros x y Hx Hy. apply HR; simpl; auto.
Qed.

(** Without ties between different entries the ranking does not depend on
    the arrangement of the pool at all. *)
Lemma rank_top_perm_eq (k : Z) (pool pool' : Result) :
  scores_comparable pool -> Permutation pool pool' ->
  (forall a b, In a pool -> In b pool ->
               PrimFloat.eqb (fst a) (fst b) = true -> a = b) ->
  rank_top k pool = rank_top k pool'.
Proof.
  intros Hc HP Hinj. unfold rank_top. f_equal.
  apply Forall2_eq_in with (R := fun a b => Float.tie (fst a) (fst b)).
  - now apply sort_desc_perm_tie.
  - intros a b Ha Hb Ht.
    apply (Permutation_in _ (sort_desc_perm fst pool)) in Ha.
    apply (Permutation_in _ (sort_desc_perm fst pool')) in Hb.
    apply (Permutation_in _ (Permutation_sym HP)) in Hb.
    unfold scores_comparable in Hc. rewrite Forall_forall in Hc.
    apply Hinj; auto. apply tie_eqb; auto.
Qed.

(** ** Lists updated in place *)

Lemma update_length {A : Type} (f : A -> A) (l : list A) :
  forall (i : nat) (l' : list A),
    update l i f = Ok l' -> length l' = length l.
Proof.
  induction l as [|x l IH]; intros i l' E; cbn [update] in E; [discriminate|].
  destruct i as [|i].
  - injection E as <-. reflexivity.
  - destruct (update l i f) as [r|e] eqn:Er; cbn [bind] in E; [|discriminate].
    injection E as <-. cbn [length]. now rewrite (IH i r).
Qed.

Lemma update_ok {A : Type} (f : A -> A) (l : list A) :
  forall i : nat, (i < length l)%nat -> exists l', update l i f = Ok l'.
Proof.
  induction l as [|x l IH]; intros i Hi; cbn [length] in Hi; [lia|].
  destruct i as [|i]; cbn [update]; [eauto|].
  destruct (IH i) as [r Er]; [lia|]. rewrite Er. cbn [bind]. eauto.
Qed.

Lemma update_bound {A : Type} (f : A -> A) (l : list A) :
  forall (i : nat) (l' : list A), update l i f = Ok l' -> (i < length l)%nat.
Proof.
  induction l as [|x l IH]; intros i l' E; cbn [update] in E; [discriminate|].
  destruct i as [|i]; cbn [length]; [lia|].
  destruct (update l i f) as [r|e] eqn:Er; cbn [bind] in E; [|discriminate].
  specialize (IH i r Er). lia.
Qed.

Lemma update_nth {A : Type} (f : A -> A) (d : A) (l : list A) :
  forall (i : nat) (l' : list A),
    update l i f = Ok l' ->
    forall j, nth j l' d = if Nat.eqb j i then f (nth j l d) else nth j l d.
Proof.
  induction l as [|x l IH]; intros i l' E j; cbn [update] in E; [discriminate|].
  destruct i as [|i].
  - injection E as <-. destruct j; reflexivity.
  - destruct (update l i f) as [r|e] eqn:Er; cbn [bind] in E; [|discriminate].
    injection E as <-. destruct j as [|j]; [reflexivity|].
    cbn [nth Nat.eqb]. now apply IH.
Qed.

Lemma update_append_concat {A : Type} (x : A) (lists : list (list A)) :
  forall (i : nat) (lists' : list (list A)),
    update lists i (fun l => l ++ [x]) = Ok lists' ->
    Permutation (concat lists') (concat lists ++ [x]).
Proof.
  induction lists as [|l lists IH]; intros i lists' E; cbn [update] in E;
    [discriminate|].
  destruct i as [|i].
  - injection E as <-. cbn [concat]. rewrite <- !app_assoc.
    apply Permutation_app_head, Permutation_app_comm.
  - destruct (update lists i _) as [r|e] eqn:Er; cbn [bind] in E; [|discriminate].
    injection E as <-. cbn [concat]. rewrite <- app_assoc.
    apply Permutation_app_head. now apply (IH i).
Qed.

Lemma mapM_get_all {A : Type} (l : list A) :
  mapM (get l) (seq 0 (length l)) = Ok l.
Proof.
  apply mapM_oks. split.
  - apply Forall_forall. intros i Hi. apply in_seq in Hi. unfold get.
    destruct (nth_error l i) eqn:E; [eauto|].
    apply nth_error_None in E. lia.
  - rewrite <- (select_all l) at 1. unfold select, oks, get.
    rewrite !flat_map_concat_map. f_equal. apply map_ext.
    intros i. now destruct (nth_error l i).
Qed.

Lemma concat_perm {A : Type} (l l' : list (list A)) :
  Permutation l l' -> Permutation (concat l) (concat l').
Proof.
  induction 1 as [|x l l' _ IH|x y l|l l' l'' _ IH1 _ IH2]; cbn [concat].
  - constructor.
  - now apply Permutation_app_head.
  - rewrite !app_assoc. apply Permutation_app_tail, Permutation_app_comm.
  - now transitivity (concat l').
Qed.

(** ** Clustered Inverted Index *)

Section IVF.

Context {G : Type} `{RandomSource G}.

(** Everything of the index but the generator, the centroids and the
    buckets. *)
Definition same_config (self self' : IVFIndex.t G) : Prop :=
  IVFIndex.dimension self' = IVFIndex.dimension self
  /\ IVFIndex.n_lists self' = IVFIndex.n_lists self
  /\ IVFIndex.iterations self' = IVFIndex.iterations self.

Lemma recompute_length (dimension : Z) (assignments : list (list Vector)) :
  forall (centroids : list Vector) (idx : nat) (centroids' : list Vector)
         (r : outcome unit),
    IVFIndex.recompute dimension centroids idx assignments = (centroids', r) ->
    length centroids' = length centroids.
Proof.
  induction assignments as [|assigned rest IH]; intros cs idx cs' r E;
    cbn [IVFIndex.recompute] in E.
  - now injection E as <- _.
  - destruct assigned as [|v assigned]; [now apply IH in E|].
    destruct (IVFIndex.mean dimension (v :: assigned)) as [c|e];
      cbn [bind] in E; [|now injection E as <- _].
    destruct (update cs idx (fun _ => c)) as [cs1|e] eqn:Eu;
      [|now injection E as <- _].
    apply IH in E. rewrite E. now apply update_length in Eu.
Qed.

Lemma train_length (rounds : nat) (dimension : Z) (data : list Vector) :
  forall (centroids centroids' : list Vector) (r : outcome unit),
    IVFIndex.train rounds dimension centroids data = (centroids', r) ->
    length centroids' = length centroids.
Proof.
  induction rounds as [|rounds IH]; intros cs cs' r E; cbn [IVFIndex.train] in E.
  - now injection E as <- _.
  - destruct (IVFIndex.assign_all cs data) as [assignments|e];
      [|now injection E as <- _].
    destruct (IVFIndex.recompute dimension cs 0 assignments) as [cs1 [u|e]] eqn:Er.
    + apply IH in E. rewrite E. now apply recompute_length in Er.
    + injection E as <- _. now apply recompute_length in Er.
Qed.

Lemma initialise_centroids_count (self self1 : IVFIndex.t G) (data : list Vector) :
  0 < IVFIndex.n_lists self <= len data ->
  IVFIndex._initialise_centroids self data = (self1, Ok tt) ->
  len (IVFIndex._centroids self1) = IVFIndex.n_lists self
  /\ same_config self self1.
Proof.
  intros Hn E. unfold IVFIndex._initialise_centroids in E.
  pose proof (shuffle_perm (IVFIndex._rng self) (range (len data))) as HP.
  destruct (shuffle (IVFIndex._rng self) (range (len data))) as [indices g].
  cbn [fst] in HP.
  assert (HL : length indices = length data).
  { rewrite (Permutation_length HP). unfold range, len.
    now rewrite length_seq, Nat2Z.id. }
  destruct (mapM (get data) (slice_to (IVFIndex.n_lists self) indices))
    as [centroids|e] eqn:Em; [|discriminate].
  apply mapM_length in Em.
  assert (HC : len centroids = IVFIndex.n_lists self).
  { unfold len in *. rewrite Em. unfold slice_to.
    replace (0 <=? IVFIndex.n_lists self) with true
      by (symmetry; apply Z.leb_le; lia).
    rewrite length_firstn. lia. }
  rewrite HC, Z.ltb_irrefl in E. injection E as <-.
  cbn. repeat split; auto.
Qed.

(** After a successful [fit] there are [n_lists] centroids, each paired with
    an empty bucket. *)
Lemma fit_counts (self self1 : IVFIndex.t G) (data : list Vector) :
  0 < IVFIndex.n_lists self ->
  IVFIndex.fit self data = (self1, Ok tt) ->
  len (IVFIndex._centroids self1) = IVFIndex.n_lists self
  /\ IVFIndex._lists self1 = map (fun _ => []) (IVFIndex._centroids self1)
  /\ same_config self self1.
Proof.
  intros Hn E. unfold IVFIndex.fit in E.
  destruct (len data <? IVFIndex.n_lists self) eqn:Ed; [discriminate|].
  apply Z.ltb_ge in Ed.
  destruct (existsb (fun vector => negb (len vector =? IVFIndex.dimension self)) data);
    [discriminate|].
  destruct (IVFIndex._initialise_centroids self data) as [self0 [[]|e]] eqn:Ei;
    [|discriminate].
  destruct (initialise_centroids_count self self0 data (conj Hn Ed) Ei)
    as (HC & Hd & Hl & Hi).
  destruct (IVFIndex.train _ _ _ data) as [centroids [[]|e]] eqn:Et;
    [|discriminate].
  apply train_length in Et. injection E as <-. cbn.
  unfold len in *. rewrite Et. repeat split; auto.
Qed.

(** [add] never touches the centroids, the configuration or the number of
    buckets, whether it succeeds or raises. *)
Lemma add_loop_frame (items : list IndexedVector) :
  forall (self self' : IVFIndex.t G) (r : outcome unit),
    IVFIndex.add_loop self items = (self', r) ->
    IVFIndex._centroids self' = IVFIndex._centroids self
    /\ length (IVFIndex._lists self') = length (IVFIndex._lists self)
    /\ IVFIndex._rng self' = IVFIndex._rng self
    /\ same_config self self'.
Proof.
  induction items as [|item items IH]; intros self self' r E;
    cbn [IVFIndex.add_loop] in E.
  - injection E as <- _. unfold same_config; repeat split; reflexivity.
  - destruct (negb (len (vector item) =? IVFIndex.dimension self)).
    { injection E as <- _. unfold same_config; repeat split; reflexivity. }
    destruct (IVFIndex._assign self (vector item)) as [bucket|e];
      cbn [bind] in E; [|injection E as <- _; unfold same_config; repeat split; reflexivity].
    destruct (update (IVFIndex._lists self) bucket _) as [lists|e] eqn:Eu;
      [|injection E as <- _; unfold same_config; repeat split; reflexivity].
    apply IH in E. unfold same_config in *. cbn in E.
    destruct E as (E1 & E2 & E3 & E4 & E5 & E6).
    apply update_length in Eu. repeat split; congruence.
Qed.

Lemma add_frame (items : list IndexedVector) (self self' : IVFIndex.t G)
  (r : outcome unit) :
  IVFIndex.add self items = (self', r) ->
  IVFIndex._centroids self' = IVFIndex._centroids self
  /\ length (IVFIndex._lists self') = length (IVFIndex._lists self)
  /\ IVFIndex._rng self' = IVFIndex._rng self
  /\ same_config self self'.
Proof.
  unfold IVFIndex.add. intros E.
  destruct (IVFIndex._centroids self) eqn:Ec.
  - injection E as <- _.
    unfold same_config; repeat split; try reflexivity; assumption.
  - apply add_loop_frame in E. now rewrite Ec in E.
Qed.

(** After a successful [add] every bucket holds what it held, followed by
    the items of the batch whose nearest centroid is its own, in order. *)
Lemma add_loop_buckets (items : list IndexedVector) :
  forall self self' : IVFIndex.t G,
    IVFIndex.add_loop self items = (self', Ok tt) ->
    forall i,
      nth i (IVFIndex._lists self') []
      = nth i (IVFIndex._lists self) []
        ++ filter (assigned_to (IVFIndex._centroids self) i) items.
Proof.
  induction items as [|item items IH]; intros self self' E i;
    cbn [IVFIndex.add_loop] in E.
  - injection E as <-. cbn [filter]. now rewrite app_nil_r.
  - destruct (negb (len (vector item) =? IVFIndex.dimension self));
      [discriminate|].
    unfold IVFIndex._assign in E. cbn [filter]. unfold assigned_to at 1.
    destruct (IVFIndex.assign (IVFIndex._centroids self) (vector item))
      as [bucket|e]; cbn [bind] in E; [|discriminate].
    destruct (update (IVFIndex._lists self) bucket _) as [lists|e] eqn:Eu;
      [|discriminate].
    rewrite (IH _ _ E i). cbn.
    rewrite (update_nth _ [] _ _ _ Eu i). rewrite (Nat.eqb_sym bucket i).
    destruct (Nat.eqb i bucket); [now rewrite <- app_assoc | reflexivity].
Qed.

Lemma add_loop_concat (items : list IndexedVector) :
  forall self self' : IVFIndex.t G,
    IVFIndex.add_loop self items = (self', Ok tt) ->
    Permutation (concat (IVFIndex._lists self'))
                (concat (IVFIndex._lists self) ++ items).
Proof.
  induction items as [|item items IH]; intros self self' E;
    cbn [IVFIndex.add_loop] in E.
  - injection E as <-. now rewrite app_nil_r.
  - destruct (negb (len (vector item) =? IVFIndex.dimension self));
      [discriminate|].
    destruct (IVFIndex._assign self (vector item)) as [bucket|e];
      cbn [bind] in E; [|discriminate].
    destruct (update (IVFIndex._lists self) bucket _) as [lists|e] eqn:Eu;
      [|discriminate].
    apply IH in E. cbn in E. rewrite E.
    rewrite (update_append_concat _ _ _ _ Eu), <- app_assoc. reflexivity.
Qed.

Lemma add_loop_app (items1 items2 : list IndexedVector) :
  forall self : IVFIndex.t G,
    IVFIndex.add_loop self (items1 ++ items2)
    = match IVFIndex.add_loop self items1 with
      | (self1, Ok _) => IVFIndex.add_loop self1 items2
      | (self1, Raise e) => (self1, Raise e)
      end.
Proof.
  induction items1 as [|item items1 IH]; intros self;
    cbn [app IVFIndex.add_loop]; [reflexivity|].
  destruct (negb (len (vector item) =? IVFIndex.dimension self));
    [reflexivity|].
  destruct (bucket <- IVFIndex._assign self (vector item) ;;
            update (IVFIndex._lists self) bucket (fun l => l ++ [item]));
    [apply IH | reflexivity].
Qed.

Lemma nth_empty_buckets {A B : Type} (l : list A) (i : nat) :
  nth i (map (fun _ => @nil B) l) [] = [].
Proof. revert i. induction l; destruct i; cbn; auto. Qed.

Lemma concat_empty {A B : Type} (l : list A) :
  concat (map (fun _ => @nil B) l) = [].
Proof. induction l; cbn; auto. Qed.

(** Probing [n_lists] buckets of a trained index gathers every bucket. *)
Lemma search_all_buckets (self : IVFIndex.t G) (query : Vector) (k : Z)
  (cscores : list float) (scored : Result) :
  len query = IVFIndex.dimension self ->
  0 < IVFIndex.n_lists self ->
  len (IVFIndex._centroids self) = IVFIndex.n_lists self ->
  length (IVFIndex._lists self) = length (IVFIndex._centroids self) ->
  mapM (cosine_similarity query) (IVFIndex._centroids self) = Ok cscores ->
  score_all query (concat (IVFIndex._lists self)) = Ok scored ->
  exists scored',
    IVFIndex.search self query k (Some (IVFIndex.n_lists self))
    = Ok (rank_top k scored')
    /\ Permutation scored' scored.
Proof.
  intros Hq Hn Hc Hl Hcs Hs. unfold IVFIndex.search, IVFIndex.probes.
  rewrite Hq, Z.eqb_refl. cbn [negb].
  destruct (IVFIndex._centroids self) as [|c cs] eqn:Ec.
  { unfold len in Hc. cbn in Hc. lia. }
  rewrite Hcs. cbn [bind].
  replace (IVFIndex.n_lists self =? 0) with false
    by (symmetry; apply Z.eqb_neq; lia).
  pose proof (mapM_length _ _ _ Hcs) as Hlen.
  set (key := fun idx : nat => nth idx cscores Float.zero).
  assert (Hr : slice_to (IVFIndex.n_lists self)
                        (sort_desc key (range (len cscores)))
               = sort_desc key (range (len cscores))).
  { unfold slice_to.
    replace (0 <=? IVFIndex.n_lists self) with true
      by (symmetry; apply Z.leb_le; lia).
    apply firstn_all2.
    rewrite (Permutation_length (sort_desc_perm key _)).
    unfold range, len in *. rewrite length_seq. lia. }
  rewrite Hr.
  assert (HP : Permutation (seq 0 (length (IVFIndex._lists self)))
                           (sort_desc key (range (len cscores)))).
  { rewrite sort_desc_perm. unfold range, len.
    now rewrite Nat2Z.id, Hlen, Hl. }
  destruct (mapM_perm _ _ _ _ HP (mapM_get_all (IVFIndex._lists self)))
    as (buckets & Eb & Pb).
  rewrite Eb. cbn [bind].
  assert (Pc : Permutation (concat (IVFIndex._lists self)) (concat buckets)).
  { now apply concat_perm, Permutation_sym. }
  destruct (mapM_perm _ _ _ _ Pc Hs) as (scored' & Es & Ps).
  unfold score_all in *. rewrite Es. cbn [bind]. now exists scored'.
Qed.

Lemma add_cases (items : list IndexedVector) (self self' : IVFIndex.t G)
  (r : outcome unit) :
  IVFIndex.add self items = (self', r) ->
  self = self' \/ IVFIndex.add_loop self items = (self', r).
Proof.
  unfold IVFIndex.add. destruct (IVFIndex._centroids self).
  - intros E. injection E as <- _. now left.
  - now right.
Qed.

Lemma add_ok_loop (items : list IndexedVector) (self self' : IVFIndex.t G) :
  IVFIndex.add self items = (self', Ok tt) ->
  IVFIndex.add_loop self items = (self', Ok tt).
Proof.
  unfold IVFIndex.add. destruct (IVFIndex._centroids self);
    [discriminate | auto].
Qed.

(** Whatever [add] leaves in a bucket was there before or belongs there. *)
Lemma add_loop_members (items : list IndexedVector) :
  forall (self self' : IVFIndex.t G) (r : outcome unit),
    IVFIndex.add_loop self items = (self', r) ->
    forall i item,
      In item (nth i (IVFIndex._lists self') []) ->
      In item (nth i (IVFIndex._lists self) [])
      \/ assigned_to (IVFIndex._centroids self) i item = true.
Proof.
  induction items as [|x items IH]; intros self self' r E i item Hin;
    cbn [IVFIndex.add_loop] in E.
  - injection E as <- _. now left.
  - destruct (negb (len (vector x) =? IVFIndex.dimension self)).
    { injection E as <- _. now left. }
    unfold IVFIndex._assign in E.
    destruct (IVFIndex.assign (IVFIndex._centroids self) (vector x))
      as [bucket|e] eqn:Ea; cbn [bind] in E; [|injection E as <- _; now left].
    destruct (update (IVFIndex._lists self) bucket _) as [lists|e] eqn:Eu;
      [|injection E as <- _; now left].
    destruct (IH _ _ _ E i item Hin) as [Hold|Hnew]; [|now right].
    cbn in Hold. rewrite (update_nth _ [] _ _ _ Eu i) in Hold.
    destruct (Nat.eqb i bucket) eqn:Eb; [|now left].
    apply in_app_or in Hold. destruct Hold as [Hold|[<-|[]]]; [now left|].
    right. unfold assigned_to. rewrite Ea. now rewrite Nat.eqb_sym.
Qed.

Lemma add_routed (items : list IndexedVector) (self self' : IVFIndex.t G)
  (r : outcome unit) :
  routed self -> IVFIndex.add self items = (self', r) -> routed self'.
Proof.
  intros (P1 & P2 & P3) E.
  destruct (add_frame items self self' r E) as (F1 & F2 & _ & _ & F4 & _).
  unfold routed, len in *. rewrite F1, F2, F4. repeat split; auto.
  destruct (add_cases items self self' r E) as [<-|E']; [exact P3|].
  intros i item Hin.
  destruct (add_loop_members items self self' r E' i item Hin); auto.
Qed.

Lemma after_invariant (self1 self2 : IVFIndex.t G) :
  routed self1 -> after self1 self2 ->
  routed self2
  /\ IVFIndex._centroids self2 = IVFIndex._centroids self1
  /\ same_config self1 self2.
Proof.
  intros P A. induction A as [|self items self' r A IH E].
  - unfold same_config. repeat split; auto; apply P.
  - destruct IH as (IP & IC & ID & IN & II).
    destruct (add_frame items self self' r E) as (F1 & _ & _ & FD & FN & FI).
    split; [eapply add_routed; eauto|].
    unfold same_config. repeat split; congruence.
Qed.

End IVF.

(** ** Embedding model *)

Section Embedding.

Variable hash : string -> Z.
Variable lower : string -> string.

Lemma zero_vector_length (dimension : Z) :
  length (_zero_vector dimension) = Z.to_nat dimension.
Proof. unfold _zero_vector, range. now rewrite length_map, length_seq. Qed.

Lemma fsum_zero_squares (n : list nat) :
  fsum (map (fun value => PrimFloat.mul value value)
            (map (fun _ => Float.zero) n)) = Float.zero.
Proof.
  unfold fsum. induction n as [|i n IH]; [reflexivity|]. exact IH.
Qed.

(** The norm of the zero vector is [0.0], so [_normalise] returns it as it
    is. *)
Lemma normalise_zero_vector (dimension : Z) :
  _normalise (_zero_vector dimension) = Ok (_zero_vector dimension).
Proof.
  unfold _normalise, _l2_norm, _zero_vector. now rewrite fsum_zero_squares.
Qed.

(** [_normalise] never divides by zero and keeps the length. *)
Lemma normalise_total (vector : Vector) :
  exists v, _normalise vector = Ok v /\ length v = length vector.
Proof.
  unfold _normalise. set (norm := _l2_norm vector).
  destruct (PrimFloat.eqb norm Float.zero) eqn:E; [eauto|].
  assert (Hall : all_ok (fun value => Float.div value norm) vector).
  { apply Forall_forall. intros x _. unfold Float.div. rewrite E. eauto. }
  exists (oks (fun value => Float.div value norm) vector).
  assert (Em : mapM (fun value => Float.div value norm) vector
               = Ok (oks (fun value => Float.div value norm) vector))
    by (now apply mapM_oks).
  split; [exact Em | now apply mapM_length in Em].
Qed.

Lemma accumulate_total (self : LocalEmbeddingModel.t) (grams : Counter) :
  0 < LocalEmbeddingModel.dimension self ->
  forall vector : Vector,
    len vector = LocalEmbeddingModel.dimension self ->
    exists v,
      foldM (LocalEmbeddingModel.accumulate hash self) grams vector = Ok v
      /\ len v = LocalEmbeddingModel.dimension self.
Proof.
  intros HD. induction grams as [|[gram count] grams IH]; intros vector Hl;
    cbn [foldM]; [eauto|].
  unfold LocalEmbeddingModel.accumulate at 1.
  replace (LocalEmbeddingModel.dimension self =? 0) with false
    by (symmetry; apply Z.eqb_neq; lia).
  pose proof (Z.mod_pos_bound (hash gram) _ HD) as Hb.
  destruct (update_ok (fun x => PrimFloat.add x (Float.of_int count)) vector
                      (Z.to_nat (hash gram mod LocalEmbeddingModel.dimension self)))
    as (v1 & E1).
  { unfold len in Hl. lia. }
  rewrite E1. cbn [bind]. apply IH.
  apply update_length in E1. unfold len in *. now rewrite E1.
Qed.

(** A model built by [init] embeds every text into a vector of the
    configured dimension, without raising. *)
Lemma embed_total (dimension : Z) (ngram_range : Z * Z)
  (self : LocalEmbeddingModel.t) (text : string) :
  LocalEmbeddingModel.init dimension ngram_range = Ok self ->
  exists v,
    LocalEmbeddingModel.embed hash lower self text = Ok v
    /\ len v = dimension.
Proof.
  unfold LocalEmbeddingModel.init.
  destruct (dimension <=? 0) eqn:Ed; [discriminate|]. apply Z.leb_gt in Ed.
  destruct (_ || _); [discriminate|]. intros E.
  assert (Hd : LocalEmbeddingModel.dimension self = dimension)
    by (injection E as <-; reflexivity).
  clear E. unfold LocalEmbeddingModel.embed.
  destruct (accumulate_total self
              (LocalEmbeddingModel._generate_ngrams lower self text)
              ltac:(lia)
              (_zero_vector (LocalEmbeddingModel.dimension self)))
    as (v & Ev & Hv).
  { unfold len. rewrite zero_vector_length. lia. }
  rewrite Ev. cbn [bind].
  destruct (normalise_total v) as (w & Ew & Hw).
  exists w. split; [exact Ew|]. unfold len in *. rewrite Hw. lia.
Qed.

(** With no n-gram to count, [embed] returns the zero vector. *)
Lemma embed_without_ngrams (self : LocalEmbeddingModel.t) (text : string) :
  LocalEmbeddingModel._generate_ngrams lower self text = [] ->
  LocalEmbeddingModel.embed hash lower self text
  = Ok (_zero_vector (LocalEmbeddingModel.dimension self)).
Proof.
  intros E. unfold LocalEmbeddingModel.embed. rewrite E. cbn [foldM bind].
  apply normalise_zero_vector.
Qed.

Lemma windows_short (text : string) (n : Z) :
  Z.of_nat (String.length text) < n ->
  LocalEmbeddingModel.windows text n = [].
Proof.
  intros Hn. unfold LocalEmbeddingModel.windows, range.
  replace (Z.to_nat (Z.of_nat (String.length text) - n + 1)) with O by lia.
  reflexivity.
Qed.

(** A text shorter than the smallest window has no n-gram; the empty text
    is one. *)
Lemma generate_ngrams_short (self : LocalEmbeddingModel.t) (text : string) :
  Z.of_nat (String.length (lower text))
  < fst (LocalEmbeddingModel.ngram_range self) ->
  LocalEmbeddingModel._generate_ngrams lower self text = [].
Proof.
  unfold LocalEmbeddingModel._generate_ngrams.
  destruct (LocalEmbeddingModel.ngram_range self) as [start stop].
  cbn [fst]. intros Hs.
  assert (HF : Forall (fun n => start <= n)
                      (map (fun i => start + Z.of_nat i)
                           (range (stop + 1 - start)))).
  { apply Forall_forall. intros n Hn. apply in_map_iff in Hn.
    destruct Hn as (i & <- & _). lia. }
  induction HF as [|n ns Hn _ IH]; cbn [fold_left]; [reflexivity|].
  rewrite windows_short by lia. exact IH.
Qed.

Lemma embed_short_text (self : LocalEmbeddingModel.t) (text : string) :
  Z.of_nat (String.length (lower text))
  < fst (LocalEmbeddingModel.ngram_range self) ->
  LocalEmbeddingModel.embed hash lower self text
  = Ok (_zero_vector (LocalEmbeddingModel.dimension self)).
Proof.
  intros Hs. now apply embed_without_ngrams, generate_ngrams_short.
Qed.

End Embedding.

(** ** The nearest centroid *)

Lemma max_from_in {A : Type} (key : A -> float) (l : list A) :
  forall best, In (max_from key best l) (best :: l).
Proof.
  induction l as [|x l IH]; intros best; cbn [max_from]; [now left|].
  destruct (PrimFloat.ltb (key best) (key x)).
  - right. apply IH.
  - destruct (IH best) as [E|Hin]; [now left | right; now right].
Qed.

Section FirstBest.

Context {A : Type}.
Variable key : A -> float.

(** [r] is the first element of [l] that none exceeds: the ones before it
    are strictly below it. *)
Definition first_best (l : list A) (r : A) : Prop :=
  exists l1 l2,
    l = l1 ++ r :: l2
    /\ Forall (fun x => PrimFloat.ltb (key x) (key r) = true) l1
    /\ Forall (fun x => PrimFloat.ltb (key r) (key x) = false) l2.

Lemma max_from_first_best (l : list A) :
  forall (pre mid : list A) (best : A),
    comparable key (pre ++ best :: mid ++ l) ->
    Forall (fun x => PrimFloat.ltb (key x) (key best) = true) pre ->
    Forall (fun x => PrimFloat.ltb (key best) (key x) = false) mid ->
    first_best (pre ++ best :: mid ++ l) (max_from key best l).
Proof.
  induction l as [|x l IH]; intros pre mid best Hc Hpre Hmid; cbn [max_from].
  - exists pre, mid. rewrite app_nil_r. auto.
  - destruct (PrimFloat.ltb (key best) (key x)) eqn:E.
    + replace (pre ++ best :: mid ++ x :: l)
        with ((pre ++ best :: mid) ++ x :: [] ++ l)
        by (now rewrite <- app_assoc).
      apply IH.
      * cbn [app]. now rewrite <- app_assoc.
      * apply Forall_app. split.
        -- apply Forall_forall. intros p Hp. rewrite Forall_forall in Hpre.
           apply ltb_trans with (y := key best); auto.
        -- constructor; [exact E|].
           apply Forall_forall. intros m Hm. rewrite Forall_forall in Hmid.
           destruct (PrimFloat.ltb (key m) (key x)) eqn:Em; [reflexivity|].
           exfalso.
           assert (Hnm : Float.not_nan (key m)).
           { unfold comparable in Hc. rewrite Forall_forall in Hc.
             apply Hc. apply in_or_app. right. right.
             apply in_or_app. now left. }
           rewrite (ltb_negtrans (key best) (key m) (key x) Hnm
                                 (Hmid m Hm) Em) in E.
           discriminate.
      * constructor.
    + replace (pre ++ best :: mid ++ x :: l)
        with (pre ++ best :: (mid ++ [x]) ++ l)
        by (now rewrite <- app_assoc).
      apply IH; auto.
      * now rewrite <- app_assoc.
      * apply Forall_app. split; [exact Hmid | now constructor].
Qed.

Lemma sort_desc_head_first_best (l : list A) :
  comparable key l -> l <> [] ->
  exists r s, sort_desc key l = r :: s /\ first_best l r.
Proof.
  induction l as [|x l IH]; intros Hc Hne; [congruence|].
  inversion Hc as [|? ? Hx Hc']; subst. cbn [sort_desc].
  destruct l as [|y l'].
  - exists x, []. split; [reflexivity|]. exists [], []. auto.
  - destruct (IH Hc') as (r & s & Es & (l1 & l2 & El & H1 & H2));
      [discriminate|].
    rewrite Es. cbn [insert_desc].
    destruct (PrimFloat.ltb (key x) (key r)) eqn:E.
    + exists r, (insert_desc key x s). split; [reflexivity|].
      exists (x :: l1), l2. rewrite El. split; [reflexivity|].
      split; [now constructor | exact H2].
    + exists x, (r :: s). split; [reflexivity|].
      exists [], (y :: l'). split; [reflexivity|]. split; [constructor|].
      pose proof (sort_desc_sorted key (y :: l') Hc') as Hs.
      rewrite Es in Hs. inversion Hs as [|? ? _ Hr]; subst.
      assert (Hrn : Float.not_nan (key r)).
      { unfold comparable in Hc'. rewrite Forall_forall in Hc'. apply Hc'.
        apply (Permutation_in _ (sort_desc_perm key (y :: l'))).
        rewrite Es. now left. }
      apply Forall_forall. intros z Hz.
      apply (Permutation_in _ (Permutation_sym (sort_desc_perm key (y :: l'))))
        in Hz.
      rewrite Es in Hz. destruct Hz as [<-|Hz]; [exact E|].
      rewrite Forall_forall in Hr.
      apply ltb_negtrans with (y := key r); auto. now apply Hr.
Qed.

Lemma first_best_unique (l : list A) (r r' : A) (l1 l2 l1' l2' : list A) :
  l = l1 ++ r :: l2 -> l = l1' ++ r' :: l2' ->
  Forall (fun x => PrimFloat.ltb (key x) (key r) = true) l1 ->
  Forall (fun x => PrimFloat.ltb (key r) (key x) = false) l2 ->
  Forall (fun x => PrimFloat.ltb (key x) (key r') = true) l1' ->
  Forall (fun x => PrimFloat.ltb (key r') (key x) = false) l2' ->
  l1 = l1' /\ r = r' /\ l2 = l2'.
Proof.
  intros E E' H1 H2 H1' H2'. rewrite E in E'.
  apply app_eq_app in E'. destruct E' as (m & [[Ea Eb]|[Ea Eb]]).
  - destruct m as [|x m].
    + rewrite app_nil_r in Ea. cbn in Eb. injection Eb as <- <-. auto.
    + exfalso. cbn in Eb. injection Eb as <- Eb. subst l1 l2'.
      apply Forall_app in H1. destruct H1 as [_ H1]. inversion H1; subst.
      rewrite Forall_forall in H2'.
      assert (Hin : In r (m ++ r :: l2)) by (apply in_or_app; right; now left).
      specialize (H2' r Hin).
      match goal with Hlt : PrimFloat.ltb (key r') (key r) = true |- _ =>
        rewrite H2' in Hlt; discriminate end.
  - destruct m as [|x m].
    + rewrite app_nil_r in Ea. cbn in Eb. injection Eb as <- <-. auto.
    + exfalso. cbn in Eb. injection Eb as <- Eb. subst l1' l2.
      apply Forall_app in H1'. destruct H1' as [_ H1']. inversion H1'; subst.
      rewrite Forall_forall in H2.
      assert (Hin : In r' (m ++ r' :: l2')) by (apply in_or_app; right; now left).
      specialize (H2 r' Hin).
      match goal with Hlt : PrimFloat.ltb (key r) (key r') = true |- _ =>
        rewrite H2 in Hlt; discriminate end.
Qed.

(** On keys that are numbers, [max] and the head of the descending sort
    pick the same element. *)
Lemma sort_desc_head_is_max (x : A) (l : list A) :
  comparable key (x :: l) ->
  exists s, sort_desc key (x :: l) = max_from key x l :: s.
Proof.
  intros Hc.
  destruct (sort_desc_head_first_best (x :: l) Hc) as (r & s & Es & Hr);
    [discriminate|].
  pose proof (max_from_first_best l [] [] x Hc (Forall_nil _) (Forall_nil _))
    as Hm.
  cbn [app] in Hm.
  destruct Hr as (l1 & l2 & E & H1 & H2).
  destruct Hm as (l1' & l2' & E' & H1' & H2').
  destruct (first_best_unique _ _ _ _ _ _ _ E E' H1 H2 H1' H2') as (_ & <- & _).
  now exists s.
Qed.

End FirstBest.

Lemma seq_split_from (n : nat) : forall (s i : nat) (l1 l2 : list nat),
  seq s n = l1 ++ i :: l2 ->
  (forall j, In j l1 <-> (s <= j < i)%nat)
  /\ (forall j, In j l2 <-> (i < j < s + n)%nat).
Proof.
  induction n as [|n IH]; intros s i l1 l2 E; cbn [seq] in E.
  - destruct l1; discriminate.
  - destruct l1 as [|a l1]; cbn [app] in E; injection E as <- E.
    + subst l2. split; intros j; [cbn; lia|]. rewrite in_seq. lia.
    + assert (Hi : In i (seq (S s) n))
        by (rewrite E; apply in_or_app; right; now left).
      apply in_seq in Hi.
      destruct (IH _ _ _ _ E) as [I1 I2]. split; intros j.
      * cbn [In]. rewrite I1. lia.
      * rewrite I2. lia.
Qed.

Lemma seq_split_at (n i : nat) (l1 l2 : list nat) :
  seq 0 n = l1 ++ i :: l2 ->
  (forall j, In j l1 <-> (j < i)%nat)
  /\ (forall j, In j l2 <-> (i < j < n)%nat).
Proof.
  intros E. destruct (seq_split_from n 0 i l1 l2 E) as [S1 S2].
  split; intros j; [rewrite S1 | rewrite S2]; lia.
Qed.

(** On centroids whose similarities to the vector are numbers, [_assign]
    returns the first position of maximal similarity. *)
Lemma assign_first_best (centroids : list Vector) (v : Vector)
  (scores : list float) (i : nat) :
  mapM (cosine_similarity v) centroids = Ok scores ->
  Forall Float.not_nan scores ->
  IVFIndex.assign centroids v = Ok i ->
  (forall j, (j < length centroids)%nat ->
             PrimFloat.ltb (nth i scores Float.zero)
                           (nth j scores Float.zero) = false)
  /\ (forall j, (j < i)%nat ->
                PrimFloat.ltb (nth j scores Float.zero)
                              (nth i scores Float.zero) = true).
Proof.
  intros Em Hc. unfold IVFIndex.assign.
  destruct centroids as [|c cs] eqn:Ec; [discriminate|].
  rewrite <- Ec in *. rewrite Em. cbn [bind].
  pose proof (mapM_length _ _ _ Em) as HL.
  unfold range, len. rewrite Nat2Z.id.
  destruct (length scores) as [|n] eqn:En; [rewrite Ec in HL; discriminate|].
  set (key := fun idx : nat => nth idx scores Float.zero).
  cbn [seq max_by]. intros Ei. injection Ei as Ei.
  assert (Hcomp : comparable key (seq 0 (S n))).
  { apply Forall_forall. intros j Hj. apply in_seq in Hj. unfold key.
    rewrite Forall_forall in Hc. apply Hc, nth_In. lia. }
  pose proof (max_from_first_best key (seq 1 n) [] [] 0%nat Hcomp
                                  (Forall_nil _) (Forall_nil _)) as Hfb.
  cbn [app] in Hfb. change (0%nat :: seq 1 n) with (seq 0 (S n)) in Hfb.
  rewrite Ei in Hfb. destruct Hfb as (l1 & l2 & E & H1 & H2).
  destruct (seq_split_at (S n) i l1 l2 E) as [S1 S2].
  rewrite <- HL. split.
  - intros j Hj. fold (key i) (key j).
    destruct (Nat.lt_trichotomy j i) as [Hlt|[->|Hgt]].
    + apply ltb_asym. rewrite Forall_forall in H1. apply H1, S1, Hlt.
    + apply ltb_irrefl.
    + rewrite Forall_forall in H2. apply H2, S2. lia.
  - intros j Hj. fold (key i) (key j).
    rewrite Forall_forall in H1. apply H1, S1, Hj.
Qed.

(** The bucket that [_assign] returns is that of the nearest centroid. *)
Lemma assign_nearest (centroids : list Vector) (v : Vector) (i : nat) :
  IVFIndex.assign centroids v = Ok i -> nearest centroids i v.
Proof.
  intros Ea. pose proof Ea as Ea'. unfold IVFIndex.assign in Ea'.
  destruct centroids as [|c cs] eqn:Ec; [discriminate|].
  rewrite <- Ec in *.
  destruct (mapM (cosine_similarity v) centroids) as [scores|e] eqn:Em;
    cbn [bind] in Ea'; [|discriminate].
  exists scores. split; [exact Em|].
  pose proof (mapM_length _ _ _ Em) as HL. split.
  - unfold range, len in Ea'. rewrite Nat2Z.id in Ea'.
    destruct (length scores) as [|n] eqn:En; [rewrite Ec in HL; discriminate|].
    cbn [seq max_by] in Ea'. injection Ea' as Ei.
    pose proof (max_from_in (fun idx => nth idx scores Float.zero)
                            (seq 1 n) 0%nat) as Hin.
    rewrite Ei in Hin. change (0%nat :: seq 1 n) with (seq 0 (S n)) in Hin.
    apply in_seq in Hin. lia.
  - intros Hc. exact (assign_first_best centroids v scores i Em Hc Ea).
Qed.

Lemma routed_paired {G : Type} `{RandomSource G} (self : IVFIndex.t G) :
  routed self -> paired self.
Proof.
  intros (H1 & H2 & H3). split; [exact H1|]. split; [exact H2|].
  intros i item Hin. specialize (H3 i item Hin). unfold assigned_to in H3.
  destruct (IVFIndex.assign (IVFIndex._centroids self) (vector item))
    as [bucket|e] eqn:Ea; [|discriminate].
  apply Nat.eqb_eq in H3. subst bucket. now apply assign_nearest.
Qed.

(** * The claims *)

(** C1. Sampled Flat Index: when [ef] is at least the number of stored items,
    [search(query, k)] succeeds whenever the exhaustive scan does and returns
    a top-[k] of the stored items by cosine similarity, ranked as the
    exhaustive scan ranks them (ties aside), whatever the state of the
    random generator. The scores are taken to be numbers (no NaN). *)
Theorem hnsw_search_exact_when_ef_covers_store
  {G : Type} `{RandomSource G} (self : HNSWIndex.t G) (query : Vector) (k : Z)
  (scored : Result) :
  len query = HNSWIndex.dimension self ->
  len (HNSWIndex._items self) <= HNSWIndex.ef self ->
  0 <= k ->
  score_all query (HNSWIndex._items self) = Ok scored ->
  scores_comparable scored ->
  exists res,
    snd (HNSWIndex.search self query k) = Ok res
    /\ is_top_k (Z.to_nat k) scored res
    /\ (exists ref, brute_force (HNSWIndex._items self) query k = Ok ref
                    /\ same_ranking res ref)
    /\ forall g : G,
        exists res',
          snd (HNSWIndex.search (HNSWIndex.set_rng self g) query k) = Ok res'
          /\ same_ranking res res'.
Proof.
  intros Hq Hef Hk Hs Hc.
  destruct (search_cover_store self query k scored Hq Hef Hs) as (s1 & E1 & P1).
  assert (C1 : scores_comparable s1)
    by (unfold scores_comparable; now rewrite P1).
  exists (rank_top k s1). split; [exact E1|]. split; [|split].
  - apply is_top_k_perm with (pool := s1); auto.
    now apply rank_top_is_top_k.
  - exists (rank_top k scored). split.
    + unfold brute_force. now rewrite Hs.
    + now apply rank_top_perm.
  - intros g.
    destruct (search_cover_store (HNSWIndex.set_rng self g) query k scored
                Hq Hef Hs) as (s2 & E2 & P2).
    exists (rank_top k s2). split; [exact E2|].
    apply rank_top_perm; auto. now rewrite P1, P2.
Qed.

Lemma hnsw_search_exact_when_ef_covers_store_witness :
  len Demo.query = HNSWIndex.dimension (Demo.hnsw 10 [[0; 1; 2]%nat])
  /\ len (HNSWIndex._items (Demo.hnsw 10 [[0; 1; 2]%nat]))
     <= HNSWIndex.ef (Demo.hnsw 10 [[0; 1; 2]%nat])
  /\ exists res,
      snd (HNSWIndex.search (Demo.hnsw 10 [[0; 1; 2]%nat]) Demo.query 2) = Ok res
      /\ is_top_k 2 Demo.scored res.
Proof.
  split; [reflexivity|]. split; [vm_compute; discriminate|].
  destruct (hnsw_search_exact_when_ef_covers_store
              (Demo.hnsw 10 [[0; 1; 2]%nat]) Demo.query 2 Demo.scored)
    as (res & E & T & _).
  - reflexivity.
  - vm_compute; discriminate.
  - lia.
  - vm_compute. reflexivity.
  - repeat constructor.
  - exists res. split; assumption.
Defined.

(** C3 (as stated, refuted). Constructing a Sampled Flat Index with
    dimension 0 and ef 0, or with a negative dimension and a negative ef,
    succeeds; so does constructing a Clustered Inverted Index with dimension
    0 and iterations 0. *)
Lemma index_construction_accepts_nonpositive_parameters :
  HNSWIndex.init 0 0 ([] : Replay.t)
  = Ok {| HNSWIndex.dimension := 0; HNSWIndex.ef := 1;
          HNSWIndex._rng := []; HNSWIndex._items := [] |}
  /\ HNSWIndex.init (-3) (-5) ([] : Replay.t)
     = Ok {| HNSWIndex.dimension := -3; HNSWIndex.ef := 1;
             HNSWIndex._rng := []; HNSWIndex._items := [] |}
  /\ IVFIndex.init 0 4 0 ([] : Replay.t)
     = Ok {| IVFIndex.dimension := 0; IVFIndex.n_lists := 4;
             IVFIndex.iterations := 1; IVFIndex._rng := [];
             IVFIndex._centroids := []; IVFIndex._lists := [] |}.
Proof. repeat split. Qed.

(** C3 (amended). Of the construction parameters only [n_lists] is
    validated: a Clustered Inverted Index with a non-positive [n_lists] fails
    with InvalidConfig. With a positive [n_lists] it is constructed
    untrained, whatever the dimension, with [iterations] raised to at least
    1; a Sampled Flat Index is always constructed, empty, whatever the
    dimension, with [ef] raised to at least 1. *)
Theorem index_construction_validates_n_lists_only
  {G : Type} `{RandomSource G} (dimension ef n_lists iterations : Z) (g : G) :
  (exists self,
      HNSWIndex.init dimension ef g = Ok self
      /\ HNSWIndex.dimension self = dimension
      /\ HNSWIndex.ef self = Z.max ef 1
      /\ HNSWIndex._items self = [])
  /\ (n_lists <= 0 ->
      exists e,
        IVFIndex.init dimension n_lists iterations g = Raise e
        /\ InvalidConfig e)
  /\ (0 < n_lists ->
      exists self,
        IVFIndex.init dimension n_lists iterations g = Ok self
        /\ IVFIndex.dimension self = dimension
        /\ IVFIndex.n_lists self = n_lists
        /\ IVFIndex.iterations self = Z.max iterations 1
        /\ IVFIndex._centroids self = []
        /\ IVFIndex._lists self = []).
Proof.
  split; [|split].
  - eexists. split; [reflexivity|]. repeat split.
  - intros Hn. unfold IVFIndex.init.
    replace (n_lists <=? 0) with true by (symmetry; now apply Z.leb_le).
    eexists. split; [reflexivity|]. now left.
  - intros Hn. unfold IVFIndex.init.
    replace (n_lists <=? 0) with false by (symmetry; apply Z.leb_gt; lia).
    eexists. split; [reflexivity|]. repeat split.
Qed.

Lemma index_construction_validates_n_lists_only_witness :
  (exists e, IVFIndex.init 2 0 5 ([] : Replay.t) = Raise e /\ InvalidConfig e)
  /\ (exists self,
         IVFIndex.init 2 4 0 ([] : Replay.t) = Ok self
         /\ IVFIndex.iterations self = 1).
Proof.
  destruct (index_construction_validates_n_lists_only 2 0 0 5 ([] : Replay.t))
    as (_ & Hbad & _).
  destruct (index_construction_validates_n_lists_only 2 0 4 0 ([] : Replay.t))
    as (_ & _ & Hgood).
  split.
  - apply Hbad. lia.
  - destruct Hgood as (self & E & _ & _ & Hi & _); [lia|].
    exists self. split; [exact E | exact Hi].
Defined.

(** C4 (the code departs from it). With [ef = 1] and two stored items the
    candidate subset should have [min(2, 1) = 1] element; [search] scores
    both items and can return both, whatever the generator draws. *)
Theorem hnsw_search_scores_one_more_than_ef
  {G : Type} `{RandomSource G} (g : G) :
  let self := {| HNSWIndex.dimension := 2; HNSWIndex.ef := 1;
                 HNSWIndex._rng := g;
                 HNSWIndex._items := firstn 2 Demo.items |} in
  Z.min (len (HNSWIndex._items self)) (HNSWIndex.ef self) = 1
  /\ (exists cs g',
         HNSWIndex.candidates self = (Ok cs, g') /\ len cs = 2)
  /\ (exists res,
         snd (HNSWIndex.search self Demo.query 5) = Ok res /\ len res = 2).
Proof.
  intros self. split; [reflexivity|].
  destruct (candidates_beyond_ef self) as (cs & g' & Ec & Hl).
  { cbn. repeat constructor; cbn; intuition discriminate. }
  { cbn. lia. }
  cbn in Hl. split; [now exists cs, g'|].
  unfold HNSWIndex.search. cbn [self HNSWIndex.dimension HNSWIndex._items].
  change (negb (len Demo.query =? 2)) with false. cbv iota.
  change (firstn 2 Demo.items) with
    [Demo.item 0 1 "north" 0; Demo.item (-1) 0 "west" 1].
  fold self. rewrite Ec. cbn [snd bind].
  destruct (mapM_incl (fun item => s <- cosine_similarity Demo.query (vector item) ;;
                                   Ok (s, metadata item))
                      (HNSWIndex._items self) cs
                      (firstn 2 Demo.scored))
    as (scores & Es).
  { now apply candidates_incl in Ec. }
  { reflexivity. }
  unfold score_all. rewrite Es. cbn [bind]. eexists. split; [reflexivity|].
  apply mapM_length in Es. unfold rank_top, slice_to, len in *.
  change (0 <=? 5) with true. cbv iota.
  rewrite length_firstn, (Permutation_length (sort_desc_perm fst scores)).
  lia.
Qed.

(** C5. Clustered Inverted Index: after a successful [fit] and a successful
    [add(items)], [search(query, k, n_probe = n_lists)] succeeds whenever the
    query can be scored against the centroids and the exhaustive scan
    succeeds, and it returns a top-[k] of the added items, ranked as the
    exhaustive scan over them ranks them (ties aside). The scores are taken
    to be numbers (no NaN). *)
Theorem ivf_full_probe_matches_brute_force
  {G : Type} `{RandomSource G} (self self1 self2 : IVFIndex.t G)
  (data : list Vector) (items : list IndexedVector) (query : Vector) (k : Z)
  (cscores : list float) (scored : Result) :
  0 < IVFIndex.n_lists self ->
  IVFIndex.fit self data = (self1, Ok tt) ->
  IVFIndex.add self1 items = (self2, Ok tt) ->
  len query = IVFIndex.dimension self2 ->
  0 <= k ->
  mapM (cosine_similarity query) (IVFIndex._centroids self2) = Ok cscores ->
  score_all query items = Ok scored ->
  scores_comparable scored ->
  exists res,
    IVFIndex.search self2 query k (Some (IVFIndex.n_lists self2)) = Ok res
    /\ is_top_k (Z.to_nat k) scored res
    /\ exists ref, brute_force items query k = Ok ref /\ same_ranking res ref.
Proof.
  intros Hn Hfit Hadd Hq Hk Hcs Hs Hc.
  destruct (fit_counts self self1 data Hn Hfit) as (C1 & L1 & _ & N1 & _).
  destruct (add_frame items self1 self2 (Ok tt) Hadd) as (C2 & L2 & _ & _ & N2 & _).
  pose proof (add_ok_loop items self1 self2 Hadd) as Hloop.
  pose proof (add_loop_concat items self1 self2 Hloop) as HP.
  rewrite L1, concat_empty in HP. cbn [app] in HP.
  destruct (mapM_perm _ _ _ _ (Permutation_sym HP) Hs) as (s0 & E0 & P0).
  destruct (search_all_buckets self2 query k cscores s0) as (s1 & E1 & P1); auto.
  - lia.
  - rewrite C2, N2, N1. exact C1.
  - rewrite L2, C2, L1. apply length_map.
  - assert (P : Permutation s1 scored) by (now rewrite P1).
    assert (Hc1 : scores_comparable s1)
      by (unfold scores_comparable; now rewrite P).
    exists (rank_top k s1). split; [exact E1|]. split.
    + apply is_top_k_perm with (pool := s1); auto.
      now apply rank_top_is_top_k.
    + exists (rank_top k scored). split.
      * unfold brute_force. now rewrite Hs.
      * now apply rank_top_perm.
Qed.

Lemma ivf_full_probe_matches_brute_force_witness :
  exists res,
    IVFIndex.search Demo.ivf Demo.query 2 (Some 2) = Ok res
    /\ is_top_k 2 Demo.scored res
    /\ exists ref,
        brute_force Demo.items Demo.query 2 = Ok ref /\ same_ranking res ref.
Proof.
  apply (ivf_full_probe_matches_brute_force
           Demo.ivf_new
           Demo.ivf_fitted Demo.ivf (map vector Demo.items)
           Demo.items Demo.query 2
           [(-1)%float; PrimFloat.div 0.5 (PrimFloat.sqrt 0.5)] Demo.scored).
  - cbn. lia.
  - vm_compute. reflexivity.
  - vm_compute. reflexivity.
  - reflexivity.
  - lia.
  - vm_compute. reflexivity.
  - vm_compute. reflexivity.
  - repeat constructor.
Defined.

(** C6. On a Clustered Inverted Index without centroids, [add] always fails
    with NotTrained and leaves the index as it is, while [search] with a
    query of the configured dimension returns the empty list. *)
Theorem ivf_untrained_add_fails_search_returns_empty
  {G : Type} `{RandomSource G} (self : IVFIndex.t G) :
  IVFIndex._centroids self = [] ->
  (forall items,
      exists e, IVFIndex.add self items = (self, Raise e) /\ NotTrained e)
  /\ (forall query k n_probe,
         len query = IVFIndex.dimension self ->
         IVFIndex.search self query k n_probe = Ok []).
Proof.
  intros Hc. split.
  - intros items. unfold IVFIndex.add. rewrite Hc.
    eexists. split; [reflexivity|]. now left.
  - intros query k n_probe Hq. unfold IVFIndex.search.
    now rewrite Hq, Z.eqb_refl, Hc.
Qed.

Lemma ivf_untrained_add_fails_search_returns_empty_witness :
  let self := Demo.ivf_new in
  IVFIndex.init 2 2 3 [[1; 0; 2]%nat] = Ok self
  /\ (exists e, IVFIndex.add self Demo.items = (self, Raise e) /\ NotTrained e)
  /\ IVFIndex.search self Demo.query 5 None = Ok [].
Proof.
  intros self.
  destruct (ivf_untrained_add_fails_search_returns_empty self eq_refl)
    as [Hadd Hsearch].
  split; [reflexivity|]. split.
  - apply Hadd.
  - apply Hsearch. reflexivity.
Defined.

(** C7. Clustered Inverted Index: a successful [fit] leaves exactly
    [n_lists] centroids paired with [n_lists] buckets, all empty. Every
    state reached afterwards by calls of [add] (successful or not; [search]
    returns no state) still has [n_lists] centroids and [n_lists] buckets,
    the same centroids as after [fit], and in bucket [i] only items whose
    nearest centroid is centroid [i]: the one of maximal cosine similarity,
    the first of them when several are as similar. A successful [add] keeps
    the centroids and extends each bucket by items of the batch whose
    nearest centroid is its own; every item of the batch is appended once,
    and nothing else is. *)
Theorem ivf_fit_pairs_buckets_and_freezes_centroids
  {G : Type} `{RandomSource G} (self self1 self2 : IVFIndex.t G)
  (data : list Vector) :
  0 < IVFIndex.n_lists self ->
  IVFIndex.fit self data = (self1, Ok tt) ->
  after self1 self2 ->
  (len (IVFIndex._centroids self1) = IVFIndex.n_lists self
   /\ IVFIndex._lists self1 = map (fun _ => []) (IVFIndex._centroids self1))
  /\ paired self2
  /\ IVFIndex._centroids self2 = IVFIndex._centroids self1
  /\ IVFIndex.n_lists self2 = IVFIndex.n_lists self
  /\ forall items self3,
      IVFIndex.add self2 items = (self3, Ok tt) ->
      IVFIndex._centroids self3 = IVFIndex._centroids self2
      /\ Permutation (concat (IVFIndex._lists self3))
                     (concat (IVFIndex._lists self2) ++ items)
      /\ forall i,
          exists added,
            nth i (IVFIndex._lists self3) []
            = nth i (IVFIndex._lists self2) [] ++ added
            /\ forall item,
                In item added ->
                In item items
                /\ nearest (IVFIndex._centroids self2) i (vector item).
Proof.
  intros Hn Hfit Hafter.
  destruct (fit_counts self self1 data Hn Hfit) as (C1 & L1 & _ & N1 & _).
  assert (P1 : routed self1).
  { unfold routed. rewrite N1. repeat split; auto.
    - unfold len in *. now rewrite L1, length_map.
    - intros i item Hin. rewrite L1, nth_empty_buckets in Hin.
      contradiction. }
  destruct (after_invariant self1 self2 P1 Hafter) as (P2 & C2 & _ & N2 & _).
  split; [now split|]. split; [now apply routed_paired|].
  split; [exact C2|]. split; [congruence|].
  intros items self3 Hadd.
  destruct (add_frame items self2 self3 (Ok tt) Hadd) as (C3 & _).
  split; [exact C3|]. apply add_ok_loop in Hadd.
  split; [now apply add_loop_concat|].
  intros i.
  exists (filter (assigned_to (IVFIndex._centroids self2) i) items).
  split; [now apply add_loop_buckets|].
  intros item Hin. apply filter_In in Hin. destruct Hin as [Hin Ha].
  split; [exact Hin|]. unfold assigned_to in Ha.
  destruct (IVFIndex.assign (IVFIndex._centroids self2) (vector item))
    as [bucket|e] eqn:Ea; [|discriminate].
  apply Nat.eqb_eq in Ha. subst bucket. now apply assign_nearest.
Qed.

Lemma ivf_fit_pairs_buckets_and_freezes_centroids_witness :
  paired Demo.ivf
  /\ IVFIndex._centroids Demo.ivf = IVFIndex._centroids Demo.ivf_fitted
  /\ len (IVFIndex._centroids Demo.ivf_fitted) = 2.
Proof.
  destruct (ivf_fit_pairs_buckets_and_freezes_centroids
              Demo.ivf_new
              Demo.ivf_fitted Demo.ivf (map vector Demo.items))
    as ((HC & _) & HP & HF & _).
  - cbn. lia.
  - vm_compute. reflexivity.
  - apply after_add with (self := Demo.ivf_fitted) (items := Demo.items)
                         (r := Ok tt).
    + apply after_refl.
    + vm_compute. reflexivity.
  - split; [exact HP|]. split; [exact HF | exact HC].
Defined.

(** C8 (as stated, refuted). On a Clustered Inverted Index that has not been
    trained, [add] of an item of the wrong dimension fails with NotTrained,
    not with DimensionMismatch: the check for centroids comes first. *)
Lemma ivf_untrained_add_reports_not_trained_before_dimension :
  let self := Demo.ivf_new in
  let bad := {| vector := [1%float]; metadata := []; obj_id := 0 |} in
  IVFIndex.init 2 2 3 [[1; 0; 2]%nat] = Ok self
  /\ len (vector bad) = 1
  /\ IVFIndex.add self [bad]
     = (self, Raise (RuntimeError "Index must be fit before adding items"))
  /\ ~ DimensionMismatch (RuntimeError "Index must be fit before adding items").
Proof.
  repeat split. intros [E|[E|E]]; discriminate.
Qed.

(** C8 (amended). A vector whose length differs from the configured
    dimension is rejected with DimensionMismatch by [search] of either index
    (which is left as it is), by [add] of the Sampled Flat Index, and by
    [add] of a trained Clustered Inverted Index; the state after the failed
    [add] is the state after adding the items that precede the offending one
    in the batch (all of the right dimension, and added without failure), so
    the offending item and those after it are not committed. *)
Theorem dimension_mismatch_rejected_without_commit
  {G : Type} `{RandomSource G} (h : HNSWIndex.t G) (v : IVFIndex.t G)
  (bad : IndexedVector) (post : list IndexedVector) (query : Vector) (k : Z)
  (n_probe : option Z) :
  len (vector bad) <> HNSWIndex.dimension h ->
  len (vector bad) <> IVFIndex.dimension v ->
  len query <> HNSWIndex.dimension h ->
  len query <> IVFIndex.dimension v ->
  (forall pre,
      Forall (fun item => len (vector item) = HNSWIndex.dimension h) pre ->
      exists e,
        DimensionMismatch e
        /\ HNSWIndex.add h (pre ++ bad :: post)
           = (fst (HNSWIndex.add h pre), Raise e)
        /\ HNSWIndex._items (fst (HNSWIndex.add h pre))
           = HNSWIndex._items h ++ pre)
  /\ (exists e,
         DimensionMismatch e /\ HNSWIndex.search h query k = (h, Raise e))
  /\ (forall pre v1,
         IVFIndex._centroids v <> [] ->
         IVFIndex.add v pre = (v1, Ok tt) ->
         exists e,
           DimensionMismatch e
           /\ IVFIndex.add v (pre ++ bad :: post) = (v1, Raise e))
  /\ (exists e,
         DimensionMismatch e /\ IVFIndex.search v query k n_probe = Raise e).
Proof.
  intros Hbh Hbv Hqh Hqv. split; [|split; [|split]].
  - intros pre Hpre. exists (ValueError "vector dimension mismatch").
    split; [now left|].
    rewrite add_app, (add_valid pre h Hpre). cbn [fst HNSWIndex.add].
    cbn [HNSWIndex.dimension].
    replace (len (vector bad) =? HNSWIndex.dimension h) with false
      by (symmetry; now apply Z.eqb_neq).
    split; reflexivity.
  - exists (ValueError "query dimension mismatch"). split; [right; now left|].
    unfold HNSWIndex.search.
    replace (len query =? HNSWIndex.dimension h) with false
      by (symmetry; now apply Z.eqb_neq).
    reflexivity.
  - intros pre v1 Hc Hadd. exists (ValueError "vector dimension mismatch").
    split; [now left|].
    pose proof (add_ok_loop pre v v1 Hadd) as Hloop.
    destruct (add_loop_frame pre v v1 (Ok tt) Hloop) as (_ & _ & _ & Hd & _).
    unfold IVFIndex.add. destruct (IVFIndex._centroids v); [congruence|].
    rewrite add_loop_app, Hloop. cbn [IVFIndex.add_loop]. rewrite Hd.
    replace (len (vector bad) =? IVFIndex.dimension v) with false
      by (symmetry; now apply Z.eqb_neq).
    reflexivity.
  - exists (ValueError "query dimension mismatch"). split; [right; now left|].
    unfold IVFIndex.search.
    replace (len query =? IVFIndex.dimension v) with false
      by (symmetry; now apply Z.eqb_neq).
    reflexivity.
Qed.

Lemma dimension_mismatch_rejected_without_commit_witness :
  let bad := {| vector := [1%float]; metadata := []; obj_id := 9 |} in
  (exists e,
      DimensionMismatch e
      /\ HNSWIndex.add (Demo.hnsw 10 [[0; 1; 2]%nat]) (Demo.items ++ [bad])
         = (fst (HNSWIndex.add (Demo.hnsw 10 [[0; 1; 2]%nat]) Demo.items), Raise e))
  /\ (exists e,
         DimensionMismatch e
         /\ IVFIndex.add Demo.ivf_fitted (Demo.items ++ [bad])
            = (Demo.ivf, Raise e)).
Proof.
  intros bad.
  destruct (dimension_mismatch_rejected_without_commit
              (Demo.hnsw 10 [[0; 1; 2]%nat]) Demo.ivf_fitted bad []
              [1%float] 5 None)
    as (Hh & _ & Hv & _).
  - vm_compute. discriminate.
  - vm_compute. discriminate.
  - vm_compute. discriminate.
  - vm_compute. discriminate.
  - split.
    + destruct (Hh Demo.items) as (e & He & Ea & _).
      * repeat constructor.
      * now exists e.
    + destruct (Hv Demo.items Demo.ivf) as (e & He & Ea).
      * vm_compute. discriminate.
      * vm_compute. reflexivity.
      * now exists e.
Defined.

(** C9 (as stated, refuted). A Sampled Flat Index with [ef = 1] over three
    stored items, whose generator draws position 0 for the first sample and
    position 2 for the second: two consecutive [search] calls with the same
    query and [k = 1] return different lists, because the second call draws
    its sample from the generator as the first call left it. *)
Lemma hnsw_consecutive_searches_differ :
  let self := Demo.hnsw 1 [[0]; [2]]%nat in
  snd (HNSWIndex.search self Demo.query 1)
  = Ok [(0%float, [("text", "north")])]%string
  /\ snd (HNSWIndex.search (fst (HNSWIndex.search self Demo.query 1))
                           Demo.query 1)
     = Ok [(1%float, [("text", "east")])]%string.
Proof. vm_compute. split; reflexivity. Qed.

(** C9 (amended). When [ef] is at least the number of stored items and no
    two different scored entries tie (the scores being numbers), two
    consecutive [search] calls with the same query and the same [k] return
    the same list, although the generator has advanced in between. *)
Theorem hnsw_consecutive_searches_agree_when_ef_covers_store
  {G : Type} `{RandomSource G} (self : HNSWIndex.t G) (query : Vector) (k : Z)
  (scored : Result) :
  len query = HNSWIndex.dimension self ->
  len (HNSWIndex._items self) <= HNSWIndex.ef self ->
  score_all query (HNSWIndex._items self) = Ok scored ->
  scores_comparable scored ->
  (forall a b, In a scored -> In b scored ->
               PrimFloat.eqb (fst a) (fst b) = true -> a = b) ->
  exists res,
    snd (HNSWIndex.search self query k) = Ok res
    /\ snd (HNSWIndex.search (fst (HNSWIndex.search self query k)) query k)
       = Ok res.
Proof.
  intros Hq Hef Hs Hc Hinj.
  destruct (search_cover_store self query k scored Hq Hef Hs) as (s1 & E1 & P1).
  destruct (search_state self query k) as (g & Eg). rewrite Eg.
  destruct (search_cover_store (HNSWIndex.set_rng self g) query k scored
              Hq Hef Hs) as (s2 & E2 & P2).
  exists (rank_top k scored). split.
  - rewrite E1. f_equal. symmetry. apply rank_top_perm_eq; auto.
    now apply Permutation_sym.
  - rewrite E2. f_equal. symmetry. apply rank_top_perm_eq; auto.
    now apply Permutation_sym.
Qed.

Lemma hnsw_consecutive_searches_agree_when_ef_covers_store_witness :
  exists res,
    snd (HNSWIndex.search (Demo.hnsw 10 [[0; 2; 1]; [0; 1; 2]]%nat)
                          Demo.query 1) = Ok res
    /\ snd (HNSWIndex.search
              (fst (HNSWIndex.search (Demo.hnsw 10 [[0; 2; 1]; [0; 1; 2]]%nat)
                                     Demo.query 1))
              Demo.query 1)
       = Ok res.
Proof.
  apply (hnsw_consecutive_searches_agree_when_ef_covers_store
           (Demo.hnsw 10 [[0; 2; 1]; [0; 1; 2]]%nat) Demo.query 1 Demo.scored).
  - reflexivity.
  - vm_compute. discriminate.
  - vm_compute. reflexivity.
  - repeat constructor.
  - intros a b Ha Hb.
    repeat (destruct Ha as [<-|Ha]; [|]); try contradiction;
      repeat (destruct Hb as [<-|Hb]; [|]); try contradiction;
      vm_compute; intros E; try reflexivity; discriminate.
Defined.

(** C10. Clustered Inverted Index: [search] with [n_probe = 0] probes
    [min(2, number of centroids)] buckets and returns what [search] without
    [n_probe] returns; on a trained index with stored items this can be a
    non-empty list. *)
Theorem ivf_search_n_probe_zero_uses_default
  {G : Type} `{RandomSource G} (self : IVFIndex.t G) (query : Vector) (k : Z) :
  IVFIndex.probes self (Some 0) = Z.min 2 (len (IVFIndex._centroids self))
  /\ IVFIndex.search self query k (Some 0) = IVFIndex.search self query k None
  /\ IVFIndex.search Demo.ivf Demo.query 2 (Some 0)
     = Ok [(1%float, [("text", "east")]); (0%float, [("text", "north")])]%string.
Proof.
  split; [reflexivity|]. split; [reflexivity|]. vm_compute. reflexivity.
Qed.

(** * Further properties of the retrieval code *)

(** ** Similarity *)

Lemma SFmul_comm (x y : spec_float) : SF64mul x y = SF64mul y x.
Proof.
  unfold SF64mul, SFmul.
  destruct x as [sx|sx| |sx mx ex], y as [sy|sy| |sy my ey];
    try reflexivity; try (now rewrite xorb_comm).
  now rewrite xorb_comm, Pos.mul_comm, Z.add_comm.
Qed.

Lemma mul_comm (x y : float) : PrimFloat.mul x y = PrimFloat.mul y x.
Proof.
  apply Prim2SF_inj. now rewrite !mul_spec, SFmul_comm.
Qed.

Lemma dot_products_comm (a b : Vector) :
  map (fun ab => PrimFloat.mul (fst ab) (snd ab)) (combine a b)
  = map (fun ab => PrimFloat.mul (fst ab) (snd ab)) (combine b a).
Proof.
  revert b. induction a as [|x a IH]; intros [|y b]; cbn; try reflexivity.
  now rewrite mul_comm, IH.
Qed.

(** X1. [cosine_similarity] is symmetric, bit for bit: swapping the
    arguments gives the same float, or the same exception. *)
Theorem cosine_similarity_symmetric (a b : Vector) :
  cosine_similarity a b = cosine_similarity b a.
Proof.
  unfold cosine_similarity.
  rewrite (Z.eqb_sym (len a) (len b)).
  destruct (negb (len b =? len a)); [reflexivity|].
  rewrite (orb_comm (PrimFloat.eqb (_l2_norm a) Float.zero)).
  destruct (_ || _); [reflexivity|].
  now rewrite dot_products_comm, (mul_comm (_l2_norm a)).
Qed.

(** X2. [cosine_similarity] raises the dimension mismatch exactly when the
    lengths differ; with equal lengths it returns [0.0] as soon as one norm
    is [0.0], and the only exception left to it is the [ZeroDivisionError]
    of its final division. *)
Theorem cosine_similarity_outcomes (a b : Vector) :
  (cosine_similarity a b = Raise (ValueError "dimension mismatch")
   <-> len a <> len b)
  /\ (len a = len b ->
      (PrimFloat.eqb (_l2_norm a) Float.zero = true
       \/ PrimFloat.eqb (_l2_norm b) Float.zero = true) ->
      cosine_similarity a b = Ok Float.zero)
  /\ (len a = len b ->
      (exists s, cosine_similarity a b = Ok s)
      \/ cosine_similarity a b = Raise ZeroDivisionError).
Proof.
  unfold cosine_similarity. split; [|split].
  - destruct (len a =? len b) eqn:E; cbn [negb].
    + apply Z.eqb_eq in E. split; [|congruence].
      destruct (_ || _); [discriminate|]. unfold Float.div.
      destruct (PrimFloat.eqb _ _); discriminate.
    + apply Z.eqb_neq in E. split; auto.
  - intros E Hz. rewrite E, Z.eqb_refl. cbn [negb].
    destruct Hz as [-> | ->]; [reflexivity | now rewrite orb_true_r].
  - intros E. rewrite E, Z.eqb_refl. cbn [negb].
    destruct (_ || _); [left; eauto|]. unfold Float.div.
    destruct (PrimFloat.eqb _ _); [now right | left; eauto].
Qed.

Lemma cosine_similarity_outcomes_witness :
  cosine_similarity [1%float; 0%float] [0%float; 0%float] = Ok Float.zero
  /\ ((exists s, cosine_similarity [1%float; 0%float] [0%float; 1%float] = Ok s)
      \/ cosine_similarity [1%float; 0%float] [0%float; 1%float]
         = Raise ZeroDivisionError).
Proof.
  destruct (cosine_similarity_outcomes [1%float; 0%float] [0%float; 0%float])
    as (_ & Hz & _).
  destruct (cosine_similarity_outcomes [1%float; 0%float] [0%float; 1%float])
    as (_ & _ & Ho).
  split.
  - apply Hz; [reflexivity | right; reflexivity].
  - apply Ho. reflexivity.
Defined.

(** ** Embedding model *)

Section EmbeddingMore.

Variable hash : string -> Z.
Variable lower : string -> string.

Definition total_count (grams : Counter) : Z :=
  fold_right (fun entry n => snd entry + n) 0 grams.

Definition well_counted (grams : Counter) : Prop :=
  NoDup (map fst grams) /\ Forall (fun entry => 1 <= snd entry) grams.

Lemma incr_keys (grams : Counter) (gram : string) :
  forall g, In g (map fst (incr grams gram)) <-> g = gram \/ In g (map fst grams).
Proof.
  induction grams as [|[g0 c] grams IH]; intros g; cbn [incr map fst In].
  - intuition auto.
  - destruct (String.eqb g0 gram) eqn:E; cbn [map fst In].
    + apply String.eqb_eq in E. subst. intuition auto.
    + rewrite IH. intuition auto.
Qed.

Lemma incr_well_counted (grams : Counter) (gram : string) :
  well_counted grams ->
  well_counted (incr grams gram)
  /\ total_count (incr grams gram) = total_count grams + 1.
Proof.
  unfold well_counted.
  induction grams as [|[g0 c] grams IH]; intros [HN HF];
    cbn [incr map fst total_count fold_right snd].
  - repeat split; try lia.
    + repeat constructor. intros [].
    + repeat constructor. cbn. lia.
  - inversion HN as [|? ? Hnot HN']; inversion HF as [|? ? Hc HF']; subst.
    cbn [snd] in Hc.
    destruct (String.eqb g0 gram) eqn:E;
      cbn [map fst total_count fold_right snd].
    + repeat split; try lia.
      * now constructor.
      * constructor; [cbn; lia | assumption].
    + destruct (IH (conj HN' HF')) as [[IN IF] IT].
      apply String.eqb_neq in E.
      repeat split.
      * constructor; [|assumption]. rewrite incr_keys. intros [->|Hin]; auto.
      * now constructor.
      * unfold total_count in *. lia.
Qed.

Lemma incr_all_well_counted (windows : list string) :
  forall grams : Counter,
    well_counted grams ->
    well_counted (fold_left incr windows grams)
    /\ total_count (fold_left incr windows grams)
       = total_count grams + len windows.
Proof.
  induction windows as [|w windows IH]; intros grams Hg; cbn [fold_left].
  - split; [assumption|]. unfold len. cbn. lia.
  - destruct (incr_well_counted grams w Hg) as [Hw Ht].
    destruct (IH _ Hw) as [Hw' Ht']. split; [assumption|].
    rewrite Ht', Ht. unfold len. cbn [length]. lia.
Qed.

(** Number of windows of length [n] in a text of [length] characters. *)
Definition window_count (length n : Z) : Z := Z.max 0 (length - n + 1).

Lemma windows_length (text : string) (n : Z) :
  len (LocalEmbeddingModel.windows text n)
  = window_count (Z.of_nat (String.length text)) n.
Proof.
  unfold LocalEmbeddingModel.windows, range, len, window_count.
  rewrite length_map, length_seq. lia.
Qed.

(** X3. [_generate_ngrams] returns a counter with distinct n-grams, each
    counted at least once, and the counts add up to the number of windows:
    [max(0, len(text) - n + 1)] for every [n] of the range, taken on the
    lower-cased text. *)
Theorem generate_ngrams_counts_every_window
  (self : LocalEmbeddingModel.t) (text : string) :
  let grams := LocalEmbeddingModel._generate_ngrams lower self text in
  let '(start, stop) := LocalEmbeddingModel.ngram_range self in
  NoDup (map fst grams)
  /\ Forall (fun entry => 1 <= snd entry) grams
  /\ total_count grams
     = fold_right
         (fun n total =>
            window_count (Z.of_nat (String.length (lower text))) n + total)
         0 (map (fun i => start + Z.of_nat i) (range (stop + 1 - start))).
Proof.
  unfold LocalEmbeddingModel._generate_ngrams.
  destruct (LocalEmbeddingModel.ngram_range self) as [start stop].
  cbv zeta.
  set (ns := map (fun i => start + Z.of_nat i) (range (stop + 1 - start))).
  assert (Hgen : forall grams : Counter,
             well_counted grams ->
             well_counted
               (fold_left (fun grams n =>
                             fold_left incr
                               (LocalEmbeddingModel.windows (lower text) n) grams)
                          ns grams)
             /\ total_count
                  (fold_left (fun grams n =>
                                fold_left incr
                                  (LocalEmbeddingModel.windows (lower text) n) grams)
                             ns grams)
                = total_count grams
                  + fold_right
                      (fun n total =>
                         window_count (Z.of_nat (String.length (lower text))) n
                         + total) 0 ns).
  { induction ns as [|n ns IH]; intros grams Hg; cbn [fold_left fold_right].
    - split; [assumption | lia].
    - destruct (incr_all_well_counted
                  (LocalEmbeddingModel.windows (lower text) n) grams Hg)
        as [Hw Ht].
      destruct (IH _ Hw) as [Hw' Ht']. split; [assumption|].
      rewrite Ht', Ht, windows_length. lia. }
  destruct (Hgen []) as [[HN HF] HT].
  { split; constructor. }
  repeat split; auto.
Qed.

(** X4. A model built by the constructor embeds every text into a vector of
    exactly the configured dimension and never raises: the bucket is always
    in range and the normalisation never divides by zero. *)
Theorem embed_returns_vector_of_dimension
  (dimension : Z) (ngram_range : Z * Z) (self : LocalEmbeddingModel.t)
  (text : string) :
  LocalEmbeddingModel.init dimension ngram_range = Ok self ->
  exists v,
    LocalEmbeddingModel.embed hash lower self text = Ok v /\ len v = dimension.
Proof.
  intros Hi.
  destruct (embed_total hash lower dimension ngram_range self text Hi)
    as (v & Ev & Hv).
  exists v. split; [exact Ev | exact Hv].
Qed.

(** X5. A text with fewer characters (after lower-casing) than the smallest
    n-gram length has no n-gram, and [embed] returns the zero vector of the
    configured dimension, not normalised. *)
Theorem embed_of_short_text_is_zero_vector
  (self : LocalEmbeddingModel.t) (text : string) :
  Z.of_nat (String.length (lower text))
  < fst (LocalEmbeddingModel.ngram_range self) ->
  LocalEmbeddingModel._generate_ngrams lower self text = []
  /\ LocalEmbeddingModel.embed hash lower self text
     = Ok (_zero_vector (LocalEmbeddingModel.dimension self)).
Proof.
  intros Hs. split.
  - now apply generate_ngrams_short.
  - now apply embed_short_text.
Qed.

(** X6. [embed_many] of a model built by the constructor never raises and
    returns one vector per text, in the order of the texts: the vector that
    [embed] returns for that text. *)
Theorem embed_many_embeds_each_text
  (dimension : Z) (ngram_range : Z * Z) (self : LocalEmbeddingModel.t)
  (texts : list string) :
  LocalEmbeddingModel.init dimension ngram_range = Ok self ->
  exists vs,
    LocalEmbeddingModel.embed_many hash lower self texts = Ok vs
    /\ Forall2 (fun text v =>
                  LocalEmbeddingModel.embed hash lower self text = Ok v
                  /\ len v = dimension)
               texts vs.
Proof.
  intros Hi. unfold LocalEmbeddingModel.embed_many.
  induction texts as [|text texts IH]; cbn [mapM].
  - exists []. split; [reflexivity | constructor].
  - destruct (embed_total hash lower dimension ngram_range self text Hi)
      as (v & Ev & Hv).
    destruct IH as (vs & Evs & HF).
    rewrite Ev. cbn [bind]. rewrite Evs. cbn [bind].
    exists (v :: vs). split; [reflexivity|]. constructor; auto.
Qed.

End EmbeddingMore.

(** A hash and a lower-casing to run the embedding model: the sum of the
    character codes, and [str.lower] on ASCII letters. *)

Module DemoText.

Definition hash (s : string) : Z :=
  fold_right (fun c n => Z.of_nat (Ascii.nat_of_ascii c) + n) 0
             (list_ascii_of_string s).

Definition lower_char (c : Ascii.ascii) : Ascii.ascii :=
  let n := Ascii.nat_of_ascii c in
  if (Nat.leb 65 n && Nat.leb n 90)%bool then Ascii.ascii_of_nat (n + 32)
  else c.

Definition lower (s : string) : string :=
  string_of_list_ascii (map lower_char (list_ascii_of_string s)).

(** [LocalEmbeddingModel(dimension=8)] *)
Definition model : LocalEmbeddingModel.t :=
  {| LocalEmbeddingModel.dimension := 8;
     LocalEmbeddingModel.ngram_range := (2, 4) |}.

End DemoText.

Lemma embed_returns_vector_of_dimension_witness :
  exists v,
    LocalEmbeddingModel.embed DemoText.hash DemoText.lower DemoText.model "Abc"
    = Ok v
    /\ len v = 8.
Proof.
  apply (embed_returns_vector_of_dimension
           DemoText.hash DemoText.lower 8 (2, 4) DemoText.model "Abc").
  reflexivity.
Defined.

Lemma embed_of_short_text_is_zero_vector_witness :
  LocalEmbeddingModel._generate_ngrams DemoText.lower DemoText.model "A" = []
  /\ LocalEmbeddingModel.embed DemoText.hash DemoText.lower DemoText.model "A"
     = Ok (_zero_vector 8).
Proof.
  apply (embed_of_short_text_is_zero_vector
           DemoText.hash DemoText.lower DemoText.model "A").
  vm_compute. reflexivity.
Defined.

(** *** The norm of an embedding *)

(** [math.isclose(a, b, rel_tol=rel_tol)], with its [abs_tol] of 0. *)
Definition isclose (a b rel_tol : float) : bool :=
  if PrimFloat.eqb a b then true
  else if PrimFloat.eqb (PrimFloat.abs a) infinity
          || PrimFloat.eqb (PrimFloat.abs b) infinity
  then false
  else
    let diff := PrimFloat.abs (PrimFloat.sub b a) in
    PrimFloat.leb diff (PrimFloat.abs (PrimFloat.mul rel_tol b))
    || PrimFloat.leb diff (PrimFloat.abs (PrimFloat.mul rel_tol a)).

(** The tolerance [1e-6] of [test_embedding_model_produces_normalised_vectors],
    as the binary64 number that the literal denotes. *)
Definition rel_tol : float := 0x1.0c6f7a0b5ed8dp-20%float.

(** What the contract of [embed] says of one text: a vector of the
    configured dimension, of norm 1.0 up to the tolerance of the test, or
    the zero vector. *)
Definition normalised (hash : string -> Z) (lower : string -> string)
  (self : LocalEmbeddingModel.t) (text : string) : Prop :=
  exists v,
    LocalEmbeddingModel.embed hash lower self text = Ok v
    /\ len v = LocalEmbeddingModel.dimension self
    /\ (isclose (_l2_norm v) 1%float rel_tol = true
        \/ v = _zero_vector (LocalEmbeddingModel.dimension self)).

(** The zero-vector half of the contract: a text without n-grams. *)
Lemma embed_without_ngrams_normalised (hash : string -> Z)
  (lower : string -> string) (self : LocalEmbeddingModel.t) (text : string) :
  0 <= LocalEmbeddingModel.dimension self ->
  LocalEmbeddingModel._generate_ngrams lower self text = [] ->
  normalised hash lower self text.
Proof.
  intros HD E. exists (_zero_vector (LocalEmbeddingModel.dimension self)).
  split; [now apply embed_without_ngrams|].
  split; [|now right].
  unfold len. rewrite zero_vector_length. lia.
Qed.

(** The unit-norm half on the input of the test,
    [LocalEmbeddingModel(dimension=32).embed("example text")]: the norm
    of the result is 1.0. *)
Example embed_of_test_text_normalised :
  normalised DemoText.hash DemoText.lower
             {| LocalEmbeddingModel.dimension := 32;
                LocalEmbeddingModel.ngram_range := (2, 4) |}
             "example text".
Proof.
  eexists. split; [vm_compute; reflexivity|]. split; [reflexivity|].
  left. vm_compute. reflexivity.
Qed.

Lemma embed_many_embeds_each_text_witness :
  exists vs,
    LocalEmbeddingModel.embed_many DemoText.hash DemoText.lower DemoText.model
                                   ["Abc"; ""; "retrieval"]%string
    = Ok vs
    /\ Forall2 (fun text v =>
                  LocalEmbeddingModel.embed DemoText.hash DemoText.lower
                                            DemoText.model text = Ok v
                  /\ len v = 8)
               ["Abc"; ""; "retrieval"]%string vs.
Proof.
  apply (embed_many_embeds_each_text
           DemoText.hash DemoText.lower 8 (2, 4) DemoText.model).
  reflexivity.
Defined.

(** ** Accumulating vectors *)

Lemma accumulate_at_ok (pairs : list (nat * float)) :
  forall target : Vector,
    Forall (fun iv => (fst iv < length target)%nat) pairs ->
    exists t,
      foldM (fun t iv => update t (fst iv) (fun x => PrimFloat.add x (snd iv)))
            pairs target = Ok t
      /\ length t = length target.
Proof.
  induction pairs as [|[i v] pairs IH]; intros target HF; cbn [foldM].
  - eauto.
  - inversion HF as [|? ? Hi HF']; subst. cbn [fst snd] in *.
    destruct (update_ok (fun x => PrimFloat.add x v) target i Hi) as (t1 & E1).
    rewrite E1. cbn [bind].
    pose proof (update_length _ _ _ _ E1) as L1.
    destruct (IH t1) as (t & Et & Lt).
    { rewrite L1. exact HF'. }
    exists t. split; [exact Et | congruence].
Qed.

(** [_add_inplace] succeeds when the source is no longer than the target,
    and keeps the length of the target. *)
Lemma add_inplace_ok (target source : Vector) :
  (length source <= length target)%nat ->
  exists t, _add_inplace target source = Ok t /\ length t = length target.
Proof.
  intros HL. unfold _add_inplace. apply accumulate_at_ok.
  apply Forall_forall. intros [i v] Hin. apply in_combine_l in Hin.
  apply in_seq in Hin. cbn [fst]. lia.
Qed.

Lemma mean_accumulation (dimension : Z) (vectors : list Vector) :
  forall accumulator : Vector,
    len accumulator = dimension ->
    (Forall (fun vector => len vector = dimension) vectors ->
     exists a,
       foldM (fun accumulator vector =>
                if negb (len vector =? dimension)
                then Raise (ValueError "dimension mismatch in mean computation")
                else _add_inplace accumulator vector)
             vectors accumulator = Ok a
       /\ len a = dimension)
    /\ (Exists (fun vector => len vector <> dimension) vectors ->
        foldM (fun accumulator vector =>
                 if negb (len vector =? dimension)
                 then Raise (ValueError "dimension mismatch in mean computation")
                 else _add_inplace accumulator vector)
              vectors accumulator
        = Raise (ValueError "dimension mismatch in mean computation")).
Proof.
  induction vectors as [|v vectors IH]; intros acc Ha; cbn [foldM].
  - split; [eauto|]. intros HE. inversion HE.
  - destruct (len v =? dimension) eqn:Ev; cbn [negb].
    + apply Z.eqb_eq in Ev.
      destruct (add_inplace_ok acc v) as (a1 & E1 & L1).
      { unfold len in *. lia. }
      rewrite E1. cbn [bind].
      destruct (IH a1) as [IHok IHbad]; [unfold len in *; lia|].
      split.
      * intros HF. inversion HF; subst. now apply IHok.
      * intros HE. inversion HE as [? ? Hbad|? ? Hrest]; subst;
          [congruence | now apply IHbad].
    + apply Z.eqb_neq in Ev. split; [|reflexivity].
      intros HF. inversion HF; subst. congruence.
Qed.

(** X7. [_mean]: the empty sequence is rejected; a vector whose length
    differs from the first one's is rejected with the dimension mismatch of
    the mean (never with an [IndexError] from the accumulation); and a mean
    that is returned has the length of the first vector. *)
Theorem mean_rejects_empty_and_unequal_lengths :
  _mean [] = Raise (ValueError "Cannot compute mean of empty sequence")
  /\ (forall first rest,
         Exists (fun vector => len vector <> len first) rest ->
         _mean (first :: rest)
         = Raise (ValueError "dimension mismatch in mean computation"))
  /\ (forall first rest m,
         _mean (first :: rest) = Ok m ->
         Forall (fun vector => len vector = len first) rest
         /\ len m = len first).
Proof.
  split; [reflexivity|]. split.
  - intros first rest HE. unfold _mean.
    destruct (mean_accumulation (len first) (first :: rest)
                                (_zero_vector (len first))) as [_ Hbad].
    { unfold len. rewrite zero_vector_length. lia. }
    rewrite Hbad; [reflexivity | now apply Exists_cons_tl].
  - intros first rest m E. unfold _mean in E.
    destruct (mean_accumulation (len first) (first :: rest)
                                (_zero_vector (len first))) as [Hok Hbad].
    { unfold len. rewrite zero_vector_length. lia. }
    assert (HF : Forall (fun vector => len vector = len first) rest).
    { apply Forall_forall. intros v Hv.
      destruct (Z.eq_dec (len v) (len first)) as [Heq|Hne]; [exact Heq|].
      exfalso. rewrite Hbad in E; [discriminate|].
      apply Exists_cons_tl, Exists_exists. eauto. }
    split; [exact HF|].
    destruct Hok as (a & Ea & La); [now constructor|].
    rewrite Ea in E. cbn [bind] in E. apply mapM_length in E.
    unfold len in *. lia.
Qed.

Lemma mean_rejects_empty_and_unequal_lengths_witness :
  _mean [[1%float; 2%float]; [3%float]]
  = Raise (ValueError "dimension mismatch in mean computation")
  /\ len [2%float; 3%float] = len [1%float; 2%float].
Proof.
  destruct mean_rejects_empty_and_unequal_lengths as (_ & Hbad & Hok).
  split.
  - apply Hbad. constructor. vm_compute. discriminate.
  - apply (Hok [1%float; 2%float] [[3%float; 4%float]] [2%float; 3%float]).
    vm_compute. reflexivity.
Defined.

(** ** Sampled Flat Index *)

Section HNSWExtra.

Context {G : Type} `{RandomSource G}.

(** X8. [add] of the Sampled Flat Index stores the items of the batch in
    order up to the first one of the wrong dimension, and nothing else
    changes: it succeeds when there is none, and otherwise raises the
    dimension mismatch with the items before the offending one kept. *)
Theorem hnsw_add_stores_items_up_to_first_mismatch
  (items : list IndexedVector) : forall self : HNSWIndex.t G,
  exists pre rest,
    items = pre ++ rest
    /\ Forall (fun item => len (vector item) = HNSWIndex.dimension self) pre
    /\ fst (HNSWIndex.add self items)
       = {| HNSWIndex.dimension := HNSWIndex.dimension self;
            HNSWIndex.ef := HNSWIndex.ef self;
            HNSWIndex._rng := HNSWIndex._rng self;
            HNSWIndex._items := HNSWIndex._items self ++ pre |}
    /\ match rest with
       | [] => snd (HNSWIndex.add self items) = Ok tt
       | bad :: _ =>
           len (vector bad) <> HNSWIndex.dimension self
           /\ snd (HNSWIndex.add self items)
              = Raise (ValueError "vector dimension mismatch")
       end.
Proof.
  induction items as [|item items IH]; intros self; cbn [HNSWIndex.add].
  - exists [], []. split; [reflexivity|]. split; [constructor|].
    split; [|reflexivity]. cbn [fst]. rewrite app_nil_r. now destruct self.
  - destruct (len (vector item) =? HNSWIndex.dimension self) eqn:E; cbn [negb].
    + apply Z.eqb_eq in E.
      destruct (IH (HNSWIndex.append self item)) as (pre & rest & E1 & F & S & R).
      exists (item :: pre), rest. cbn in F, S, R |- *.
      split; [now rewrite E1|]. split; [now constructor|].
      split; [|exact R]. rewrite S. now rewrite <- app_assoc.
    + apply Z.eqb_neq in E. exists [], (item :: items). cbn [fst snd app].
      split; [reflexivity|]. split; [constructor|].
      split; [|split; [exact E | reflexivity]].
      rewrite app_nil_r. now destruct self.
Qed.

Lemma insert_desc_locally_sorted {A : Type} (key : A -> float) (x : A)
  (l : list A) :
  Sorted (not_below key) l -> Sorted (not_below key) (insert_desc key x l).
Proof.
  induction 1 as [|y l Hs IH Hy]; cbn [insert_desc].
  - repeat constructor.
  - destruct (PrimFloat.ltb (key x) (key y)) eqn:E.
    + constructor; [exact IH|].
      destruct l as [|z l]; cbn [insert_desc].
      * constructor. unfold not_below. now apply ltb_asym.
      * destruct (PrimFloat.ltb (key x) (key z)).
        -- inversion Hy; subst. now constructor.
        -- constructor. unfold not_below. now apply ltb_asym.
    + constructor; [now constructor|]. now constructor.
Qed.

(** Whatever the keys are, NaN included, a sorted list never ascends from
    one element to the next. *)
Lemma sort_desc_locally_sorted {A : Type} (key : A -> float) (l : list A) :
  Sorted (not_below key) (sort_desc key l).
Proof.
  induction l as [|x l IH]; cbn [sort_desc]; [constructor|].
  now apply insert_desc_locally_sorted.
Qed.

Lemma firstn_locally_sorted {A : Type} (R : A -> A -> Prop) (n : nat) :
  forall l : list A, Sorted R l -> Sorted R (firstn n l).
Proof.
  induction n as [|n IH]; intros l Hs; cbn [firstn]; [constructor|].
  destruct Hs as [|x l Hs Hx]; [constructor|].
  constructor; [now apply IH|].
  destruct Hx as [|y l Hxy]; [destruct n; constructor|].
  destruct n; cbn [firstn]; now constructor.
Qed.

(** What [rank_top] returns of a scored pool. *)
Lemma rank_top_facts (k : Z) (scores : Result) :
  incl (rank_top k scores) scores
  /\ Sorted (fun a b => PrimFloat.ltb (fst a) (fst b) = false) (rank_top k scores)
  /\ len (rank_top k scores) <= len scores
  /\ (0 <= k -> len (rank_top k scores) <= k).
Proof.
  unfold rank_top. split; [|split; [|split]].
  - intros x Hx. apply slice_to_incl in Hx.
    now apply (Permutation_in _ (sort_desc_perm fst scores)).
  - unfold slice_to. destruct (0 <=? k); apply firstn_locally_sorted;
      apply (sort_desc_locally_sorted fst).
  - unfold len, slice_to.
    destruct (0 <=? k); rewrite length_firstn,
      (Permutation_length (sort_desc_perm fst scores)); lia.
  - intros Hk. unfold len, slice_to.
    replace (0 <=? k) with true by (symmetry; now apply Z.leb_le).
    rewrite length_firstn. lia.
Qed.

Lemma rank_top_strongly_sorted (k : Z) (scores : Result) :
  scores_comparable scores ->
  StronglySorted (fun a b => PrimFloat.ltb (fst a) (fst b) = false)
                 (rank_top k scores).
Proof.
  intros Hc. pose proof (sort_desc_sorted fst scores Hc) as Hs.
  unfold rank_top, slice_to.
  destruct (0 <=? k);
    match goal with
    | |- StronglySorted _ (firstn ?n _) =>
        rewrite <- (firstn_skipn n (sort_desc fst scores)) in Hs;
        apply sorted_app_inv in Hs; exact (proj1 Hs)
    end.
Qed.

Lemma score_all_entries (query : Vector) (candidates : list IndexedVector)
  (scores : Result) :
  score_all query candidates = Ok scores ->
  length scores = length candidates
  /\ Forall (fun r => exists item,
                 In item candidates
                 /\ cosine_similarity query (vector item) = Ok (fst r)
                 /\ metadata item = snd r) scores.
Proof.
  unfold score_all. revert scores.
  induction candidates as [|item candidates IH]; intros scores E; cbn [mapM] in E.
  - injection E as <-. split; [reflexivity | constructor].
  - destruct (cosine_similarity query (vector item)) as [s|e] eqn:Es;
      cbn [bind] in E; [|discriminate].
    destruct (mapM _ candidates) as [rest|e] eqn:Er; cbn [bind] in E;
      [|discriminate].
    injection E as <-. destruct (IH rest eq_refl) as [IL IF].
    split; [cbn; now rewrite IL|]. constructor.
    + exists item. cbn. auto.
    + apply Forall_forall. intros r Hr. rewrite Forall_forall in IF.
      destruct (IF r Hr) as (it & Hin & Hc & Hm). exists it. cbn. auto.
Qed.

Lemma hnsw_search_ok_inv (self : HNSWIndex.t G) (query : Vector) (k : Z)
  (res : Result) :
  snd (HNSWIndex.search self query k) = Ok res ->
  res = []
  \/ exists cs g scores,
      HNSWIndex.candidates self = (Ok cs, g)
      /\ score_all query cs = Ok scores
      /\ res = rank_top k scores.
Proof.
  unfold HNSWIndex.search.
  destruct (negb (len query =? HNSWIndex.dimension self)); [discriminate|].
  destruct (HNSWIndex._items self) as [|item items].
  - intros E. injection E as <-. now left.
  - destruct (HNSWIndex.candidates self) as [[cs|e] g]; cbn [snd bind];
      [|discriminate].
    destruct (score_all query cs) as [scores|e] eqn:Es; cbn [bind];
      [|discriminate].
    intros E. injection E as <-. right. now exists cs, g, scores.
Qed.

(** X9. Whatever [search] of the Sampled Flat Index returns, every entry is
    the cosine similarity to the query and the metadata of a stored item,
    and for [k >= 0] there are at most [k] entries; when no stored item has
    NaN for its similarity to the query, the entries are in descending order
    of score (no entry scores below a later one); the call changes nothing
    of the index but its generator. *)
Theorem hnsw_search_returns_scored_stored_items
  (self : HNSWIndex.t G) (query : Vector) (k : Z) (res : Result) :
  snd (HNSWIndex.search self query k) = Ok res ->
  Forall (fun r => exists item,
              In item (HNSWIndex._items self)
              /\ cosine_similarity query (vector item) = Ok (fst r)
              /\ metadata item = snd r) res
  /\ (Forall (fun item =>
                forall s, cosine_similarity query (vector item) = Ok s ->
                          Float.not_nan s)
             (HNSWIndex._items self) ->
      StronglySorted (fun a b => PrimFloat.ltb (fst a) (fst b) = false) res)
  /\ (0 <= k -> len res <= k)
  /\ exists g,
      fst (HNSWIndex.search self query k) = HNSWIndex.set_rng self g.
Proof.
  intros E.
  destruct (hnsw_search_ok_inv self query k res E)
    as [->|(cs & g & scores & Ec & Es & ->)].
  - split; [constructor|]. split; [intros _; constructor|].
    split; [intros Hk; cbn; lia | apply search_state].
  - destruct (rank_top_facts k scores) as (R1 & _ & R3 & R4).
    destruct (score_all_entries query cs scores Es) as [_ HF].
    rewrite Forall_forall in HF.
    split; [|split; [|split; [exact R4 | apply search_state]]].
    + apply Forall_forall. intros r Hr. apply R1 in Hr.
      destruct (HF r Hr) as (it & Hin & Hc & Hm).
      exists it. split; [|auto].
      now apply (candidates_incl self cs g Ec).
    + intros Hn. apply rank_top_strongly_sorted.
      apply Forall_forall. intros r Hr.
      destruct (HF r Hr) as (it & Hin & Hc & _).
      rewrite Forall_forall in Hn.
      exact (Hn it (candidates_incl self cs g Ec it Hin) (fst r) Hc).
Qed.

(** X10. With distinct stored objects and [ef >= 1], [search] scores
    [min(|store|, ef + 1)] candidates: the whole store when it has at most
    [ef] items, and one candidate more than [ef] otherwise. *)
Theorem hnsw_search_scores_ef_plus_one_candidates (self : HNSWIndex.t G) :
  NoDup (map obj_id (HNSWIndex._items self)) ->
  1 <= HNSWIndex.ef self ->
  exists cs g,
    HNSWIndex.candidates self = (Ok cs, g)
    /\ len cs = Z.min (len (HNSWIndex._items self)) (HNSWIndex.ef self + 1)
    /\ incl cs (HNSWIndex._items self).
Proof.
  intros HN Hef.
  destruct (Z_le_gt_dec (len (HNSWIndex._items self)) (HNSWIndex.ef self))
    as [Hle|Hgt].
  - destruct (candidates_cover_store self Hle) as (cs & g & Ec & HP).
    exists cs, g. split; [exact Ec|]. split.
    + unfold len in *. rewrite (Permutation_length HP). lia.
    + intros x Hx. now apply (Permutation_in _ HP).
  - destruct (candidates_beyond_ef self HN) as (cs & g & Ec & HL); [lia|].
    exists cs, g. split; [exact Ec|]. split; [lia|].
    now apply candidates_incl in Ec.
Qed.

End HNSWExtra.

Lemma hnsw_search_returns_scored_stored_items_witness :
  Forall (fun r => exists item,
              In item (HNSWIndex._items (Demo.hnsw 1 [[0]; [2]]%nat))
              /\ cosine_similarity Demo.query (vector item) = Ok (fst r)
              /\ metadata item = snd r)
         [(0%float, [("text", "north")]); ((-1)%float, [("text", "west")])]%string
  /\ StronglySorted
       (fun a b => PrimFloat.ltb (fst a) (fst b) = false)
       [(0%float, [("text", "north")]); ((-1)%float, [("text", "west")])]%string
  /\ len [(0%float, [("text", "north")]);
          ((-1)%float, [("text", "west")])]%string <= 2.
Proof.
  destruct (hnsw_search_returns_scored_stored_items
              (Demo.hnsw 1 [[0]; [2]]%nat) Demo.query 2
              [(0%float, [("text", "north")]);
               ((-1)%float, [("text", "west")])]%string)
    as (HF & HS & HL & _).
  - vm_compute. reflexivity.
  - split; [exact HF|]. split; [|apply HL; lia].
    apply HS. repeat constructor; intros s E; vm_compute in E;
      injection E as <-; reflexivity.
Defined.

Lemma hnsw_search_scores_ef_plus_one_candidates_witness :
  exists cs g,
    HNSWIndex.candidates (Demo.hnsw 1 [[0]; [2]]%nat) = (Ok cs, g)
    /\ len cs = 2.
Proof.
  destruct (hnsw_search_scores_ef_plus_one_candidates
              (Demo.hnsw 1 [[0]; [2]]%nat)) as (cs & g & Ec & HL & _).
  - cbn. repeat constructor; cbn; intuition discriminate.
  - cbn. lia.
  - exists cs, g. split; [exact Ec | exact HL].
Defined.

(** ** Clustered Inverted Index: training *)






Section Training.

Variable D : Z.








End Training.

Section IVFTraining.

Context {G : Type} `{RandomSource G}.



End IVFTraining.


(** ** Clustered Inverted Index: assignment and search *)

(** X12. [_assign] on centroids whose scores are numbers returns the
    position of the centroid most similar to the vector, the lowest such
    position when several tie: no centroid scores above the chosen one and
    every centroid before it scores strictly below. Without centroids it
    raises NotTrained. *)
Theorem ivf_assign_picks_first_most_similar_centroid
  (centroids : list Vector) (vector : Vector) (scores : list float) :
  mapM (cosine_similarity vector) centroids = Ok scores ->
  Forall Float.not_nan scores ->
  match centroids with
  | [] => exists e, IVFIndex.assign centroids vector = Raise e /\ NotTrained e
  | _ :: _ =>
      exists i,
        IVFIndex.assign centroids vector = Ok i
        /\ (i < length centroids)%nat
        /\ (forall j, (j < length centroids)%nat ->
                      PrimFloat.ltb (nth i scores Float.zero)
                                    (nth j scores Float.zero) = false)
        /\ (forall j, (j < i)%nat ->
                      PrimFloat.ltb (nth j scores Float.zero)
                                    (nth i scores Float.zero) = true)
  end.
Proof.
  intros Em Hc. unfold IVFIndex.assign.
  destruct centroids as [|c cs] eqn:Ec.
  { eexists. split; [reflexivity | now right]. }
  rewrite <- Ec in *. rewrite Em. cbn [bind].
  pose proof (mapM_length _ _ _ Em) as HL.
  unfold range, len. rewrite Nat2Z.id.
  destruct (length scores) as [|n] eqn:En; [rewrite Ec in HL; discriminate|].
  set (key := fun idx : nat => nth idx scores Float.zero).
  cbn [seq max_by].
  assert (Hcomp : comparable key (seq 0 (S n))).
  { apply Forall_forall. intros j Hj. apply in_seq in Hj. unfold key.
    rewrite Forall_forall in Hc. apply Hc, nth_In. lia. }
  pose proof (max_from_first_best key (seq 1 n) [] [] 0%nat Hcomp
                                  (Forall_nil _) (Forall_nil _)) as Hfb.
  cbn [app] in Hfb. change (0%nat :: seq 1 n) with (seq 0 (S n)) in Hfb.
  destruct Hfb as (l1 & l2 & E & H1 & H2).
  set (i := max_from key 0%nat (seq 1 n)) in *.
  destruct (seq_split_at (S n) i l1 l2 E) as [S1 S2].
  assert (Hi : (i < S n)%nat).
  { assert (Hin : In i (seq 0 (S n)))
      by (rewrite E; apply in_or_app; right; now left).
    apply in_seq in Hin. lia. }
  exists i. split; [reflexivity|]. rewrite <- HL.
  split; [exact Hi|]. split.
  - intros j Hj. fold (key i) (key j).
    destruct (Nat.lt_trichotomy j i) as [Hlt|[->|Hgt]].
    + apply ltb_asym. rewrite Forall_forall in H1. apply H1, S1, Hlt.
    + apply ltb_irrefl.
    + rewrite Forall_forall in H2. apply H2, S2. lia.
  - intros j Hj. fold (key i) (key j).
    rewrite Forall_forall in H1. apply H1, S1, Hj.
Qed.

Lemma ivf_assign_picks_first_most_similar_centroid_witness :
  exists i,
    IVFIndex.assign [[0%float; 1%float]; [1%float; 0%float]; [1%float; 0%float]]
                    [2%float; 0%float] = Ok i
    /\ (i < 3)%nat
    /\ (forall j, (j < i)%nat ->
                  PrimFloat.ltb (nth j [0%float; 1%float; 1%float] Float.zero)
                                (nth i [0%float; 1%float; 1%float] Float.zero)
                  = true).
Proof.
  destruct (ivf_assign_picks_first_most_similar_centroid
              [[0%float; 1%float]; [1%float; 0%float]; [1%float; 0%float]]
              [2%float; 0%float] [0%float; 1%float; 1%float])
    as (i & Ei & Hi & _ & Hb).
  - vm_compute. reflexivity.
  - repeat constructor.
  - exists i. split; [exact Ei|]. split; [exact Hi | exact Hb].
Defined.

Section IVFSearch.

Context {G : Type} `{RandomSource G}.

(** X13. [search] with [n_probe = 1] scores exactly the bucket of the
    centroid that [_assign] picks for the query (the bucket into which [add]
    would put an item with the query's vector), when the query's scores
    against the centroids are numbers. *)
Theorem ivf_search_single_probe_scores_bucket_of_query
  (self : IVFIndex.t G) (query : Vector) (k : Z) (scores : list float)
  (b : nat) :
  len query = IVFIndex.dimension self ->
  mapM (cosine_similarity query) (IVFIndex._centroids self) = Ok scores ->
  Forall Float.not_nan scores ->
  IVFIndex._assign self query = Ok b ->
  IVFIndex.search self query k (Some 1)
  = (bucket <- get (IVFIndex._lists self) b ;;
     results <- score_all query bucket ;;
     Ok (rank_top k results)).
Proof.
  intros Hq Em Hc Ha. unfold IVFIndex.search, IVFIndex.probes.
  rewrite Hq, Z.eqb_refl. cbn [negb].
  unfold IVFIndex._assign, IVFIndex.assign in Ha.
  destruct (IVFIndex._centroids self) as [|c cs] eqn:Ec; [discriminate|].
  rewrite <- Ec in *. rewrite Em in *. cbn [bind] in *.
  change (1 =? 0) with false. cbv iota.
  pose proof (mapM_length _ _ _ Em) as HL.
  unfold range, len in *. rewrite Nat2Z.id in *.
  destruct (length scores) as [|n] eqn:En; [rewrite Ec in HL; discriminate|].
  set (key := fun idx : nat => nth idx scores Float.zero) in *.
  cbn [seq max_by] in Ha. injection Ha as Hb.
  assert (Hcomp : comparable key (0%nat :: seq 1 n)).
  { apply Forall_forall. intros j Hj.
    change (0%nat :: seq 1 n) with (seq 0 (S n)) in Hj.
    apply in_seq in Hj. unfold key.
    rewrite Forall_forall in Hc. apply Hc, nth_In. lia. }
  destruct (sort_desc_head_is_max key 0%nat (seq 1 n) Hcomp) as (s & Es).
  cbn [seq]. rewrite Es, Hb. unfold slice_to. change (0 <=? 1) with true.
  cbv iota. change (Z.to_nat 1) with 1%nat. cbn [firstn mapM].
  destruct (get (IVFIndex._lists self) b) as [bucket|e]; cbn [bind concat];
    [|reflexivity].
  now rewrite app_nil_r.
Qed.

Lemma add_loop_prefix (items : list IndexedVector) :
  forall (self self' : IVFIndex.t G) (r : outcome unit),
    IVFIndex.add_loop self items = (self', r) ->
    exists n,
      Permutation (concat (IVFIndex._lists self'))
                  (concat (IVFIndex._lists self) ++ firstn n items)
      /\ (r = Ok tt -> n = length items).
Proof.
  induction items as [|item items IH]; intros self self' r E;
    cbn [IVFIndex.add_loop] in E.
  - injection E as <- <-. exists 0%nat. cbn. rewrite app_nil_r. auto.
  - destruct (negb (len (vector item) =? IVFIndex.dimension self)).
    { injection E as <- <-. exists 0%nat. cbn [firstn].
      rewrite app_nil_r. split; [reflexivity | discriminate]. }
    destruct (IVFIndex._assign self (vector item)) as [bucket|e];
      cbn [bind] in E.
    2: { injection E as <- <-. exists 0%nat. cbn [firstn].
         rewrite app_nil_r. split; [reflexivity | discriminate]. }
    destruct (update (IVFIndex._lists self) bucket _) as [lists|e] eqn:Eu.
    2: { injection E as <- <-. exists 0%nat. cbn [firstn].
         rewrite app_nil_r. split; [reflexivity | discriminate]. }
    destruct (IH _ _ _ E) as (n & HP & Hn). cbn in HP.
    exists (S n). cbn [firstn]. split.
    + rewrite HP, (update_append_concat _ _ _ _ Eu), <- app_assoc.
      reflexivity.
    + intros Hr. cbn [length]. f_equal. now apply Hn.
Qed.

(** X14. Whatever [add] of the Clustered Inverted Index does, the buckets
    afterwards hold, in some arrangement, what they held before together
    with a prefix of the batch: the whole batch when [add] succeeds, each
    item once. *)
Theorem ivf_add_stores_each_item_once
  (items : list IndexedVector) (self self' : IVFIndex.t G) (r : outcome unit) :
  IVFIndex.add self items = (self', r) ->
  exists n,
    Permutation (concat (IVFIndex._lists self'))
                (concat (IVFIndex._lists self) ++ firstn n items)
    /\ (r = Ok tt -> n = length items).
Proof.
  unfold IVFIndex.add. destruct (IVFIndex._centroids self).
  - intros E. injection E as <- <-. exists 0%nat. cbn [firstn].
    rewrite app_nil_r. split; [reflexivity | discriminate].
  - apply add_loop_prefix.
Qed.

(** X15. Whatever [search] of the Clustered Inverted Index returns, every
    entry is the cosine similarity to the query and the metadata of an item
    held in a bucket, and for [k >= 0] there are at most [k] entries; when
    neither a centroid nor an item of a bucket has NaN for its similarity to
    the query, the entries are in descending order of score (no entry
    scores below a later one). *)
Theorem ivf_search_returns_scored_bucket_items
  (self : IVFIndex.t G) (query : Vector) (k : Z) (n_probe : option Z)
  (res : Result) :
  IVFIndex.search self query k n_probe = Ok res ->
  Forall (fun r => exists item,
              In item (concat (IVFIndex._lists self))
              /\ cosine_similarity query (vector item) = Ok (fst r)
              /\ metadata item = snd r) res
  /\ (Forall (fun centroid =>
                forall s, cosine_similarity query centroid = Ok s ->
                          Float.not_nan s)
             (IVFIndex._centroids self) ->
      Forall (fun item =>
                forall s, cosine_similarity query (vector item) = Ok s ->
                          Float.not_nan s)
             (concat (IVFIndex._lists self)) ->
      StronglySorted (fun a b => PrimFloat.ltb (fst a) (fst b) = false) res)
  /\ (0 <= k -> len res <= k).
Proof.
  unfold IVFIndex.search.
  destruct (negb (len query =? IVFIndex.dimension self)); [discriminate|].
  destruct (IVFIndex._centroids self) as [|c cs].
  { intros E. injection E as <-. split; [constructor|].
    split; [intros _ _; constructor | intros; cbn; lia]. }
  destruct (mapM (cosine_similarity query) (c :: cs)) as [scores|e];
    cbn [bind]; [|discriminate].
  set (ranked := slice_to _ _).
  destruct (mapM (get (IVFIndex._lists self)) ranked) as [buckets|e] eqn:Eb;
    cbn [bind]; [|discriminate].
  destruct (score_all query (concat buckets)) as [results|e] eqn:Es;
    cbn [bind]; [|discriminate].
  intros E. injection E as <-.
  destruct (rank_top_facts k results) as (R1 & _ & _ & R4).
  destruct (score_all_entries query (concat buckets) results Es) as [_ HF].
  rewrite Forall_forall in HF.
  assert (Hheld : forall it, In it (concat buckets) ->
                             In it (concat (IVFIndex._lists self))).
  { intros it Hin.
    apply in_concat in Hin. destruct Hin as (bucket & Hb & Hit).
    apply in_concat. exists bucket. split; [|exact Hit].
    apply mapM_oks in Eb. destruct Eb as [_ ->].
    unfold oks in Hb. apply in_flat_map in Hb. destruct Hb as (i & _ & Hb).
    unfold get in Hb. destruct (nth_error (IVFIndex._lists self) i) eqn:En;
      [|contradiction].
    destruct Hb as [<-|[]]. eapply nth_error_In; eauto. }
  split; [|split; [|exact R4]].
  - apply Forall_forall. intros r Hr. apply R1 in Hr.
    destruct (HF r Hr) as (it & Hin & Hc & Hm).
    exists it. split; [|auto]. now apply Hheld.
  - intros _ Hn. apply rank_top_strongly_sorted.
    apply Forall_forall. intros r Hr.
    destruct (HF r Hr) as (it & Hin & Hc & _).
    rewrite Forall_forall in Hn. exact (Hn it (Hheld it Hin) (fst r) Hc).
Qed.

(** X16. Probing more buckets than there are centroids is probing them all:
    for [n_probe] at least the number of centroids, [search] returns what it
    returns for [n_probe] equal to that number. *)
Theorem ivf_search_probe_count_saturates
  (self : IVFIndex.t G) (query : Vector) (k : Z) (n_probe : Z) :
  len (IVFIndex._centroids self) <= n_probe ->
  IVFIndex.search self query k (Some n_probe)
  = IVFIndex.search self query k (Some (len (IVFIndex._centroids self))).
Proof.
  intros Hp. unfold IVFIndex.search, IVFIndex.probes.
  destruct (negb (len query =? IVFIndex.dimension self)); [reflexivity|].
  destruct (IVFIndex._centroids self) as [|c cs] eqn:Ec; [reflexivity|].
  rewrite <- Ec in *.
  assert (Hpos : 0 < len (IVFIndex._centroids self))
    by (rewrite Ec; unfold len; cbn; lia).
  replace (n_probe =? 0) with false by (symmetry; apply Z.eqb_neq; lia).
  replace (len (IVFIndex._centroids self) =? 0) with false
    by (symmetry; apply Z.eqb_neq; lia).
  destruct (mapM (cosine_similarity query) (IVFIndex._centroids self))
    as [scores|e] eqn:Em; cbn [bind]; [|reflexivity].
  pose proof (mapM_length _ _ _ Em) as HL.
  set (sorted := sort_desc _ _).
  assert (Hs : length sorted = length (IVFIndex._centroids self)).
  { unfold sorted. rewrite (Permutation_length (sort_desc_perm _ _)).
    unfold range, len. now rewrite length_seq, Nat2Z.id. }
  replace (slice_to n_probe sorted) with sorted.
  replace (slice_to (len (IVFIndex._centroids self)) sorted) with sorted.
  - reflexivity.
  - unfold slice_to, len in *.
    replace (0 <=? Z.of_nat (length (IVFIndex._centroids self))) with true
      by (symmetry; apply Z.leb_le; lia).
    symmetry. apply firstn_all2. lia.
  - unfold slice_to, len in *.
    replace (0 <=? n_probe) with true by (symmetry; apply Z.leb_le; lia).
    symmetry. apply firstn_all2. lia.
Qed.

End IVFSearch.

Lemma ivf_search_single_probe_scores_bucket_of_query_witness :
  IVFIndex.search Demo.ivf Demo.query 5 (Some 1)
  = Ok [(1%float, [("text", "east")]); (0%float, [("text", "north")])]%string.
Proof.
  rewrite (ivf_search_single_probe_scores_bucket_of_query
             Demo.ivf Demo.query 5
             [(-1)%float; PrimFloat.div 0.5 (PrimFloat.sqrt 0.5)] 1%nat).
  - vm_compute. reflexivity.
  - reflexivity.
  - vm_compute. reflexivity.
  - repeat constructor.
  - vm_compute. reflexivity.
Defined.

Lemma ivf_add_stores_each_item_once_witness :
  exists n,
    Permutation (concat (IVFIndex._lists Demo.ivf))
                (concat (IVFIndex._lists Demo.ivf_fitted) ++ firstn n Demo.items)
    /\ (@Ok unit tt = Ok tt -> n = length Demo.items).
Proof.
  apply (ivf_add_stores_each_item_once Demo.items Demo.ivf_fitted Demo.ivf).
  vm_compute. reflexivity.
Defined.

Lemma ivf_search_returns_scored_bucket_items_witness :
  Forall (fun r => exists item,
              In item (concat (IVFIndex._lists Demo.ivf))
              /\ cosine_similarity Demo.query (vector item) = Ok (fst r)
              /\ metadata item = snd r)
         [(1%float, [("text", "east")]); (0%float, [("text", "north")]);
          ((-1)%float, [("text", "west")])]%string
  /\ StronglySorted
       (fun a b => PrimFloat.ltb (fst a) (fst b) = false)
       [(1%float, [("text", "east")]); (0%float, [("text", "north")]);
        ((-1)%float, [("text", "west")])]%string
  /\ len [(1%float, [("text", "east")]); (0%float, [("text", "north")]);
          ((-1)%float, [("text", "west")])]%string <= 5.
Proof.
  destruct (ivf_search_returns_scored_bucket_items
              Demo.ivf Demo.query 5 None
              [(1%float, [("text", "east")]); (0%float, [("text", "north")]);
               ((-1)%float, [("text", "west")])]%string)
    as (HF & HS & HL).
  - vm_compute. reflexivity.
  - split; [exact HF|]. split; [|apply HL; lia].
    apply HS; repeat constructor; intros s E; vm_compute in E;
      injection E as <-; reflexivity.
Defined.

Lemma ivf_search_probe_count_saturates_witness :
  IVFIndex.search Demo.ivf Demo.query 5 (Some 7)
  = IVFIndex.search Demo.ivf Demo.query 5
                    (Some (len (IVFIndex._centroids Demo.ivf))).
Proof.
  apply (ivf_search_probe_count_saturates Demo.ivf Demo.query 5 7).
  vm_compute. discriminate.
Defined.

(** ** The state behind the retrieval API *)

Section RetrievalAPI.

Context {G : Type} `{RandomSource G}.

Variable hash : string -> Z.
Variable lower : string -> string.

Definition ivf_untrained (self : RetrievalState.t G) : Prop :=
  match RetrievalState.index self with
  | Some (RetrievalState.Ivf ix) => IVFIndex._centroids ix = []
  | _ => True
  end.

Lemma reachable_ivf_untrained (self : RetrievalState.t G) :
  RetrievalState.reachable self -> ivf_untrained self.
Proof.
  induction 1 as [|self kind dimension g _ IH|self vector metadata oid _ IH
                  |self vector k n_probe _ IH]; unfold ivf_untrained in *.
  - exact I.
  - unfold RetrievalState.ensure_index.
    destruct (match RetrievalState.index self with
              | Some ix => _
              | None => false
              end); [exact IH|].
    destruct (LocalEmbeddingModel.init dimension (2, 4)) as [model|e];
      [|exact IH].
    destruct (String.eqb kind "HNSWIndex"); [exact I|].
    destruct (String.eqb kind "IVFIndex"); [|exact IH].
    unfold IVFIndex.init. change (4 <=? 0) with false. reflexivity.
  - unfold RetrievalState.add_vector.
    destruct (RetrievalState.index self) as [[hx|vx]|] eqn:Ei; cbn [fst].
    + destruct (HNSWIndex.add hx _). exact I.
    + destruct (IVFIndex.add vx _) as [vx' r] eqn:Ea. cbn.
      destruct (add_frame _ _ _ _ Ea) as (Ec & _). congruence.
    + now rewrite Ei.
  - unfold RetrievalState.search.
    destruct (RetrievalState.index self) as [[hx|vx]|] eqn:Ei; cbn [fst].
    + destruct (HNSWIndex.search hx vector k). exact I.
    + rewrite Ei. exact IH.
    + rewrite Ei. exact I.
Qed.

(** X17. The retrieval API never trains its index: in every state that the
    handlers can reach, a Clustered Inverted Index has no centroids, so
    [add_vector] always fails with NotTrained and [search] with a vector of
    the right dimension always returns the empty list, both leaving the
    state as it is. *)
Theorem retrieval_state_ivf_index_is_never_trained
  (self : RetrievalState.t G) (ix : IVFIndex.t G) :
  RetrievalState.reachable self ->
  RetrievalState.index self = Some (RetrievalState.Ivf ix) ->
  IVFIndex._centroids ix = []
  /\ (forall vector metadata oid,
         exists e,
           RetrievalState.add_vector self vector metadata oid = (self, Raise e)
           /\ NotTrained e)
  /\ (forall vector k n_probe,
         len vector = IVFIndex.dimension ix ->
         RetrievalState.search self vector k n_probe = (self, Ok [])).
Proof.
  intros Hr Ei. pose proof (reachable_ivf_untrained self Hr) as Hu.
  unfold ivf_untrained in Hu. rewrite Ei in Hu.
  split; [exact Hu|]. split.
  - intros vector metadata oid. unfold RetrievalState.add_vector.
    rewrite Ei. unfold IVFIndex.add. rewrite Hu.
    eexists. split; [|now left]. f_equal. destruct self. cbn in *. now subst.
  - intros vector k n_probe Hq. unfold RetrievalState.search. rewrite Ei.
    unfold IVFIndex.search. now rewrite Hq, Z.eqb_refl, Hu.
Qed.

(** X18. [ensure_index] is idempotent: once it has succeeded, calling it
    again with the same kind and dimension changes nothing, so the stored
    documents survive a repeated configuration. *)
Theorem retrieval_state_ensure_index_is_idempotent
  (self self1 : RetrievalState.t G) (kind : string) (dimension : Z) (g g' : G) :
  RetrievalState.ensure_index self kind dimension g = (self1, Ok tt) ->
  RetrievalState.ensure_index self1 kind dimension g' = (self1, Ok tt).
Proof.
  unfold RetrievalState.ensure_index at 1.
  destruct (match RetrievalState.index self with
            | Some ix => _
            | None => false
            end) eqn:Ek.
  - intros E. injection E as <-. unfold RetrievalState.ensure_index.
    now rewrite Ek.
  - destruct (LocalEmbeddingModel.init dimension (2, 4)) as [model|e];
      [|discriminate].
    destruct (String.eqb kind "HNSWIndex") eqn:Eh.
    + apply String.eqb_eq in Eh. subst kind.
      cbn [bind HNSWIndex.init]. intros E. injection E as <-.
      unfold RetrievalState.ensure_index. cbn.
      now rewrite Z.eqb_refl.
    + destruct (String.eqb kind "IVFIndex") eqn:Ev; [|discriminate].
      apply String.eqb_eq in Ev. subst kind.
      unfold IVFIndex.init. change (4 <=? 0) with false. cbn [bind].
      intros E. injection E as <-.
      unfold RetrievalState.ensure_index. cbn.
      now rewrite Z.eqb_refl.
Qed.

(** X19. A failed reconfiguration leaves the API out of step: [ensure_index]
    with an unsupported kind and a new positive dimension raises, but only
    after it has replaced the embedding model. The old Sampled Flat Index
    stays, a later [ensure_index] with its own kind and dimension succeeds
    without repairing anything, and every text then embeds to a vector that
    [add_vector] rejects with the dimension mismatch. *)
Theorem retrieval_state_failed_reconfiguration_breaks_add_vector
  (self : RetrievalState.t G) (hx : HNSWIndex.t G) (kind : string)
  (dimension : Z) (g : G) (text : string) (metadata : Metadata) (oid : nat) :
  RetrievalState.index self = Some (RetrievalState.Hnsw hx) ->
  String.eqb kind "HNSWIndex" = false ->
  String.eqb kind "IVFIndex" = false ->
  0 < dimension ->
  dimension <> HNSWIndex.dimension hx ->
  exists self1,
    RetrievalState.ensure_index self kind dimension g
    = (self1, Raise (ValueError ("Unsupported index type: " ++ kind)))
    /\ RetrievalState.index self1 = Some (RetrievalState.Hnsw hx)
    /\ LocalEmbeddingModel.dimension (RetrievalState.embedding_model self1)
       = dimension
    /\ (forall g',
           RetrievalState.ensure_index self1 "HNSWIndex"
                                       (HNSWIndex.dimension hx) g'
           = (self1, Ok tt))
    /\ exists v,
        LocalEmbeddingModel.embed hash lower
          (RetrievalState.embedding_model self1) text = Ok v
        /\ RetrievalState.add_vector self1 v metadata oid
           = (self1, Raise (ValueError "vector dimension mismatch")).
Proof.
  intros Ei Eh Ev Hd Hne.
  unfold RetrievalState.ensure_index at 1. rewrite Ei. cbn [RetrievalState.index_dimension].
  replace (HNSWIndex.dimension hx =? dimension) with false
    by (symmetry; apply Z.eqb_neq; congruence).
  cbn [andb].
  assert (Em : LocalEmbeddingModel.init dimension (2, 4)
               = Ok {| LocalEmbeddingModel.dimension := dimension;
                       LocalEmbeddingModel.ngram_range := (2, 4) |}).
  { unfold LocalEmbeddingModel.init.
    replace (dimension <=? 0) with false by (symmetry; apply Z.leb_gt; lia).
    reflexivity. }
  rewrite Em, Eh, Ev. eexists. split; [reflexivity|]. cbn.
  split; [reflexivity|]. split; [reflexivity|]. split.
  - intros g'. unfold RetrievalState.ensure_index. cbn.
    now rewrite Z.eqb_refl.
  - destruct (embed_total hash lower dimension (2, 4) _ text Em) as (v & E & L).
    exists v. split; [exact E|].
    unfold RetrievalState.add_vector. cbn.
    replace (len v =? HNSWIndex.dimension hx) with false
      by (symmetry; apply Z.eqb_neq; congruence).
    reflexivity.
Qed.

(** X20. Round trip through a fresh Sampled Flat Index: after [ensure_index]
    has created one for a positive dimension, every text embeds to a vector
    that [add_vector] stores, and a following [search] with [k >= 1] for any
    embedded question returns exactly that document, with its metadata and
    its cosine similarity to the question (when that similarity is
    defined). *)
Theorem retrieval_state_round_trip_through_fresh_hnsw_index
  (self self1 : RetrievalState.t G) (dimension : Z) (g : G)
  (text question : string) (metadata : Metadata) (oid : nat) (k : Z) :
  RetrievalState.index self = None ->
  RetrievalState.ensure_index self "HNSWIndex" dimension g = (self1, Ok tt) ->
  1 <= k ->
  exists v q self2,
    LocalEmbeddingModel.embed hash lower
      (RetrievalState.embedding_model self1) text = Ok v
    /\ LocalEmbeddingModel.embed hash lower
         (RetrievalState.embedding_model self1) question = Ok q
    /\ RetrievalState.add_vector self1 v metadata oid = (self2, Ok tt)
    /\ forall s,
        cosine_similarity q v = Ok s ->
        snd (RetrievalState.search self2 q k None) = Ok [(s, metadata)].
Proof.
  intros Ei Ee Hk. unfold RetrievalState.ensure_index in Ee. rewrite Ei in Ee.
  destruct (LocalEmbeddingModel.init dimension (2, 4)) as [model|e] eqn:Em;
    [|discriminate].
  cbn in Ee. injection Ee as <-. cbn [RetrievalState.embedding_model].
  destruct (embed_total hash lower dimension (2, 4) model text Em)
    as (v & Ev & Lv).
  destruct (embed_total hash lower dimension (2, 4) model question Em)
    as (q & Eq & Lq).
  exists v, q. eexists. split; [exact Ev|]. split; [exact Eq|].
  unfold RetrievalState.add_vector. cbn.
  rewrite Lv, Z.eqb_refl. cbn. split; [reflexivity|].
  intros s Es. unfold RetrievalState.search. cbn [RetrievalState.index].
  set (hx := HNSWIndex.append _ _).
  destruct (search_cover_store hx q k [(s, metadata)]) as (scored & E & HP).
  { exact Lq. }
  { cbn. lia. }
  { unfold score_all. cbn. now rewrite Es. }
  destruct (HNSWIndex.search hx q k) as [hx' r]. cbn [snd] in *. rewrite E.
  apply Permutation_sym, Permutation_length_1_inv in HP. subst scored.
  unfold rank_top, slice_to. cbn [sort_desc insert_desc].
  replace (0 <=? k) with true by (symmetry; apply Z.leb_le; lia).
  destruct (Z.to_nat k) as [|n] eqn:En; [lia|].
  cbn [firstn]. now rewrite firstn_nil.
Qed.

End RetrievalAPI.

(** States of the retrieval API to run the model. *)

Module DemoAPI.

(** After [ensure_index("HNSWIndex", 8)] on a new state. *)
Definition hnsw8 : RetrievalState.t Replay.t :=
  fst (RetrievalState.ensure_index RetrievalState.init "HNSWIndex" 8 []).

(** After [ensure_index("IVFIndex", 2)] on a new state. *)
Definition ivf2 : RetrievalState.t Replay.t :=
  fst (RetrievalState.ensure_index RetrievalState.init "IVFIndex" 2 []).

End DemoAPI.

Lemma retrieval_state_ivf_index_is_never_trained_witness :
  (exists e,
      RetrievalState.add_vector DemoAPI.ivf2 Demo.query [] 0
      = (DemoAPI.ivf2, Raise e)
      /\ NotTrained e)
  /\ RetrievalState.search DemoAPI.ivf2 Demo.query 5 None
     = (DemoAPI.ivf2, Ok []).
Proof.
  destruct (retrieval_state_ivf_index_is_never_trained
              DemoAPI.ivf2
              {| IVFIndex.dimension := 2; IVFIndex.n_lists := 4;
                 IVFIndex.iterations := 5; IVFIndex._rng := [];
                 IVFIndex._centroids := []; IVFIndex._lists := [] |})
    as (_ & Ha & Hs).
  - apply RetrievalState.reach_ensure_index, RetrievalState.reach_init.
  - reflexivity.
  - split; [apply Ha | apply Hs; reflexivity].
Defined.

Lemma retrieval_state_ensure_index_is_idempotent_witness :
  RetrievalState.ensure_index DemoAPI.hnsw8 "HNSWIndex" 8 [[0]%nat]
  = (DemoAPI.hnsw8, Ok tt).
Proof.
  apply (retrieval_state_ensure_index_is_idempotent
           RetrievalState.init DemoAPI.hnsw8 "HNSWIndex" 8 [] [[0]%nat]).
  reflexivity.
Defined.

Lemma retrieval_state_failed_reconfiguration_breaks_add_vector_witness :
  exists self1,
    RetrievalState.ensure_index DemoAPI.hnsw8 "FlatIndex" 16 []
    = (self1, Raise (ValueError "Unsupported index type: FlatIndex"))
    /\ exists v,
        LocalEmbeddingModel.embed DemoText.hash DemoText.lower
          (RetrievalState.embedding_model self1) "Abc" = Ok v
        /\ RetrievalState.add_vector self1 v [] 0
           = (self1, Raise (ValueError "vector dimension mismatch")).
Proof.
  destruct (retrieval_state_failed_reconfiguration_breaks_add_vector
              DemoText.hash DemoText.lower DemoAPI.hnsw8
              {| HNSWIndex.dimension := 8; HNSWIndex.ef := 32;
                 HNSWIndex._rng := []; HNSWIndex._items := [] |}
              "FlatIndex" 16 [] "Abc" [] 0%nat)
    as (self1 & E1 & _ & _ & _ & Hv).
  - reflexivity.
  - reflexivity.
  - reflexivity.
  - lia.
  - cbn. lia.
  - exists self1. split; [exact E1 | exact Hv].
Defined.

Lemma retrieval_state_round_trip_through_fresh_hnsw_index_witness :
  exists v q self2,
    LocalEmbeddingModel.embed DemoText.hash DemoText.lower
      (RetrievalState.embedding_model DemoAPI.hnsw8) "local rag systems" = Ok v
    /\ LocalEmbeddingModel.embed DemoText.hash DemoText.lower
         (RetrievalState.embedding_model DemoAPI.hnsw8) "rag" = Ok q
    /\ RetrievalState.add_vector DemoAPI.hnsw8 v [("id", "1")]%string 0
       = (self2, Ok tt)
    /\ forall s,
        cosine_similarity q v = Ok s ->
        snd (RetrievalState.search self2 q 5 None)
        = Ok [(s, [("id", "1")]%string)].
Proof.
  apply (retrieval_state_round_trip_through_fresh_hnsw_index
           DemoText.hash DemoText.lower RetrievalState.init DemoAPI.hnsw8
           8 [] "local rag systems" "rag" [("id", "1")]%string 0%nat 5).
  - reflexivity.
  - reflexivity.
  - lia.
Defined.

(** * Ingestion and generation: what the code guarantees *)

(** ** Chunking *)

Lemma chunk_loop_step (text : string) (chunk_size overlap : Z)
  (meta : Metadata) (valid : overlap < chunk_size) (start index : Z) :
  chunk_loop text chunk_size overlap meta valid start index
  = if start <? Z.of_nat (String.length text)
    then
      let stop := Z.min (start + chunk_size) (Z.of_nat (String.length text)) in
      make_chunk text meta start stop index
      :: (if stop =? Z.of_nat (String.length text) then []
          else chunk_loop text chunk_size overlap meta valid
                          (stop - overlap) (index + 1))
    else [].
Proof.
  rewrite chunk_loop_equation_1.
  destruct (Z_lt_dec start (Z.of_nat (String.length text))) as [Hlt|Hge].
  - rewrite (proj2 (Z.ltb_lt _ _) Hlt). cbn.
    destruct (Z.eq_dec _ _) as [He|Hne]; cbn.
    + now rewrite (proj2 (Z.eqb_eq _ _) He).
    + now rewrite (proj2 (Z.eqb_neq _ _) Hne).
  - cbn. now rewrite (proj2 (Z.ltb_nlt _ _) Hge).
Qed.

(** The number of rounds of the loop of [chunk_text] from [start]. *)
Definition chunk_count (text_length chunk_size overlap start : Z) : Z :=
  if start <? text_length
  then 1 + (Z.max 0 (text_length - start - chunk_size)
            + (chunk_size - overlap) - 1) / (chunk_size - overlap)
  else 0.

Lemma chunk_count_nonneg (text_length chunk_size overlap start : Z) :
  overlap < chunk_size -> 0 <= chunk_count text_length chunk_size overlap start.
Proof.
  intros Hv. unfold chunk_count. destruct (start <? text_length); [|lia].
  assert (0 <= (Z.max 0 (text_length - start - chunk_size)
                + (chunk_size - overlap) - 1) / (chunk_size - overlap)).
  { apply Z.div_pos; lia. }
  lia.
Qed.

Lemma chunk_count_last (text_length chunk_size overlap start : Z) :
  overlap < chunk_size -> start < text_length ->
  text_length <= start + chunk_size ->
  chunk_count text_length chunk_size overlap start = 1.
Proof.
  intros Hv Hs Hl. unfold chunk_count.
  rewrite (proj2 (Z.ltb_lt _ _) Hs).
  rewrite Z.max_l by lia. rewrite Z.div_small; lia.
Qed.

Lemma chunk_count_next (text_length chunk_size overlap start : Z) :
  0 <= overlap < chunk_size -> start + chunk_size < text_length ->
  chunk_count text_length chunk_size overlap start
  = 1 + chunk_count text_length chunk_size overlap
                    (start + chunk_size - overlap).
Proof.
  intros Hv Hl. unfold chunk_count.
  assert (Hs : (start <? text_length) = true) by (apply Z.ltb_lt; lia).
  assert (Hs' : (start + chunk_size - overlap <? text_length) = true)
    by (apply Z.ltb_lt; lia).
  rewrite Hs, Hs'. f_equal. rewrite (Z.max_r 0 (text_length - start - chunk_size)) by lia.
  set (step := chunk_size - overlap). set (x := text_length - start - chunk_size).
  assert (Hstep : 0 < step) by (unfold step; lia).
  assert (Hx : 0 < x) by (unfold x; lia).
  replace (text_length - (start + chunk_size - overlap) - chunk_size)
    with (x - step) by (unfold x, step; lia).
  replace (x + step - 1) with ((x - 1) + 1 * step) by lia.
  rewrite Z.div_add by lia.
  destruct (Z_le_gt_dec step x) as [Hle|Hgt].
  - rewrite Z.max_r by lia. replace (x - step + step - 1) with (x - 1) by lia. lia.
  - rewrite Z.max_l by lia. rewrite (Z.div_small (x - 1)) by lia.
    rewrite Z.div_small by lia. lia.
Qed.

Lemma range_succ (n : Z) :
  0 <= n -> range (1 + n) = O :: map S (range n).
Proof.
  intros Hn. unfold range. replace (Z.to_nat (1 + n)) with (S (Z.to_nat n)) by lia.
  cbn [seq]. now rewrite seq_shift.
Qed.

Lemma chunk_loop_closed_form (text : string) (chunk_size overlap : Z)
  (meta : Metadata) (valid : overlap < chunk_size) :
  0 <= overlap ->
  forall (m : nat) (start index : Z),
    (Z.to_nat (Z.of_nat (String.length text) - start) <= m)%nat ->
    chunk_loop text chunk_size overlap meta valid start index
    = map (fun i =>
             let from := start + Z.of_nat i * (chunk_size - overlap) in
             make_chunk text meta from
                        (Z.min (from + chunk_size)
                               (Z.of_nat (String.length text)))
                        (index + Z.of_nat i))
          (range (chunk_count (Z.of_nat (String.length text)) chunk_size
                              overlap start)).
Proof.
  intros Ho. induction m as [|m IH]; intros start index Hm;
    rewrite chunk_loop_step.
  - assert (Hs : (start <? Z.of_nat (String.length text)) = false)
      by (apply Z.ltb_nlt; lia).
    rewrite Hs. unfold chunk_count. now rewrite Hs.
  - destruct (start <? Z.of_nat (String.length text)) eqn:Hs.
    2:{ unfold chunk_count. now rewrite Hs. }
    apply Z.ltb_lt in Hs. cbv zeta.
    destruct (Z.min (start + chunk_size) (Z.of_nat (String.length text))
              =? Z.of_nat (String.length text)) eqn:He.
    + apply Z.eqb_eq in He.
      rewrite chunk_count_last by lia. change (range 1) with [O].
      cbn [map]. cbv zeta. change (Z.of_nat 0) with 0.
      now rewrite Z.mul_0_l, !Z.add_0_r.
    + apply Z.eqb_neq in He.
      assert (Hl : start + chunk_size < Z.of_nat (String.length text)) by lia.
      rewrite chunk_count_next by lia.
      rewrite range_succ by (apply chunk_count_nonneg; lia).
      cbn [map]. f_equal.
      * cbv zeta. change (Z.of_nat 0) with 0.
        now rewrite Z.mul_0_l, !Z.add_0_r.
      * rewrite Z.min_l by lia. rewrite IH by lia.
        rewrite map_map. apply map_ext. intros i. cbv zeta.
        replace (start + chunk_size - overlap
                 + Z.of_nat i * (chunk_size - overlap))
          with (start + Z.of_nat (S i) * (chunk_size - overlap)) by lia.
        now replace (index + 1 + Z.of_nat i) with (index + Z.of_nat (S i)) by lia.
Qed.

(** *** Slices of a text *)

Lemma substring_nil (n m : nat) : String.substring n m "" = ""%string.
Proof. destruct n, m; reflexivity. Qed.

Lemma substring_zero (s : string) :
  forall n : nat, String.substring n 0 s = ""%string.
Proof.
  induction s as [|c s IH]; intros [|n]; try reflexivity. cbn. apply IH.
Qed.

Lemma substring_length (s : string) :
  forall n m : nat,
    String.length (String.substring n m s) = Nat.min m (String.length s - n).
Proof.
  induction s as [|c s IH]; intros n m.
  - rewrite substring_nil. cbn. now rewrite Nat.min_0_r.
  - destruct n as [|n].
    + destruct m as [|m]; [reflexivity|]. cbn [String.substring String.length].
      rewrite IH. lia.
    + cbn [String.substring String.length]. rewrite IH. lia.
Qed.

Lemma substring_all (s : string) : String.substring 0 (String.length s) s = s.
Proof. induction s as [|c s IH]; [reflexivity|]. cbn. now rewrite IH. Qed.

Lemma substring_join (s : string) :
  forall n m k : nat,
    (String.substring n m s ++ String.substring (n + m) k s)%string
    = String.substring n (m + k) s.
Proof.
  induction s as [|c s IH]; intros n m k.
  - now rewrite !substring_nil.
  - destruct n as [|n].
    + destruct m as [|m]; [reflexivity|].
      cbn [String.substring Nat.add String.append]. f_equal.
      exact (IH 0%nat m k).
    + cbn [String.substring Nat.add]. apply IH.
Qed.

Lemma substring_substring (s : string) :
  forall n k a m : nat,
    (a + m <= k)%nat ->
    String.substring a m (String.substring n k s) = String.substring (n + a) m s.
Proof.
  induction s as [|c s IH]; intros n k a m Hk.
  - now rewrite !substring_nil.
  - destruct n as [|n].
    + destruct k as [|k].
      * assert (a = O) by lia. assert (m = O) by lia. subst. reflexivity.
      * cbn [String.substring Nat.add]. destruct a as [|a].
        -- destruct m as [|m]; [reflexivity|]. cbn [String.substring]. f_equal.
           apply (IH 0%nat k 0%nat m). lia.
        -- cbn [String.substring]. apply (IH 0%nat k a m). lia.
    + cbn [String.substring Nat.add]. now apply IH.
Qed.

Lemma str_slice_length (text : string) (start stop : Z) :
  0 <= start <= stop -> stop <= Z.of_nat (String.length text) ->
  Z.of_nat (String.length (str_slice text start stop)) = stop - start.
Proof.
  intros Hs He. unfold str_slice. rewrite substring_length. lia.
Qed.

Lemma str_slice_join (text : string) (a b c : Z) :
  0 <= a <= b -> b <= c ->
  (str_slice text a b ++ str_slice text b c)%string = str_slice text a c.
Proof.
  intros Ha Hb. unfold str_slice.
  replace (Z.to_nat b) with (Z.to_nat a + Z.to_nat (b - a))%nat by lia.
  rewrite substring_join. f_equal. lia.
Qed.

Lemma str_slice_all (text : string) :
  str_slice text 0 (Z.of_nat (String.length text)) = text.
Proof.
  unfold str_slice. rewrite Z.sub_0_r, Nat2Z.id. apply substring_all.
Qed.

(** [chunk[k:]] of the chunk [text[a:b]] is [text[a+k:b]]. *)
Lemma str_slice_drop (text : string) (a b k : Z) :
  0 <= a -> 0 <= k -> a + k <= b -> b <= Z.of_nat (String.length text) ->
  str_slice (str_slice text a b) k
            (Z.of_nat (String.length (str_slice text a b)))
  = str_slice text (a + k) b.
Proof.
  intros Ha Hk Hb He. rewrite str_slice_length by lia.
  unfold str_slice at 1 3. unfold str_slice.
  rewrite substring_substring by lia. f_equal; lia.
Qed.

(** What is left of the chunks when the first [overlap] characters of each
    are dropped. *)
Definition without_overlap (overlap : Z) (chunks : list TextChunk.t) : string :=
  String.concat ""
    (map (fun chunk =>
            str_slice (TextChunk.text chunk) overlap
                      (Z.of_nat (String.length (TextChunk.text chunk))))
         chunks).

(** The text that the chunks came from: the first chunk, and the others
    without their overlap with the one before. *)
Definition reassemble (overlap : Z) (chunks : list TextChunk.t) : string :=
  match chunks with
  | [] => ""%string
  | first :: rest =>
      (TextChunk.text first ++ without_overlap overlap rest)%string
  end.

Lemma append_empty (s : string) : (s ++ "")%string = s.
Proof. induction s as [|c s IH]; [reflexivity|]. cbn. now rewrite IH. Qed.

Lemma string_concat_cons (s : string) (l : list string) :
  String.concat "" (s :: l) = (s ++ String.concat "" l)%string.
Proof.
  destruct l as [|t l]; cbn.
  - now rewrite append_empty.
  - reflexivity.
Qed.

Lemma chunk_loop_without_overlap (text : string) (chunk_size overlap : Z)
  (meta : Metadata) (valid : overlap < chunk_size) :
  0 <= overlap ->
  forall (m : nat) (start index : Z),
    (Z.to_nat (Z.of_nat (String.length text) - start) <= m)%nat ->
    0 <= start -> start + overlap <= Z.of_nat (String.length text) ->
    without_overlap overlap
      (chunk_loop text chunk_size overlap meta valid start index)
    = str_slice text (start + overlap) (Z.of_nat (String.length text)).
Proof.
  intros Ho. induction m as [|m IH]; intros start index Hm Hs Hl;
    rewrite chunk_loop_step.
  - assert (E : (start <? Z.of_nat (String.length text)) = false)
      by (apply Z.ltb_nlt; lia).
    rewrite E. unfold without_overlap, str_slice. cbn [map String.concat].
    replace (Z.to_nat (Z.of_nat (String.length text) - (start + overlap)))
      with O by lia.
    now rewrite substring_zero.
  - destruct (start <? Z.of_nat (String.length text)) eqn:E.
    2:{ apply Z.ltb_nlt in E. unfold without_overlap, str_slice.
        cbn [map String.concat].
        replace (Z.to_nat (Z.of_nat (String.length text) - (start + overlap)))
          with O by lia.
        now rewrite substring_zero. }
    apply Z.ltb_lt in E. cbv zeta.
    unfold without_overlap. cbn [map]. rewrite string_concat_cons.
    fold (without_overlap overlap).
    unfold make_chunk at 1 2. cbn [TextChunk.text].
    destruct (Z.min (start + chunk_size) (Z.of_nat (String.length text))
              =? Z.of_nat (String.length text)) eqn:He.
    + apply Z.eqb_eq in He. rewrite He.
      rewrite str_slice_drop by lia.
      unfold without_overlap. cbn [map String.concat].
      now rewrite append_empty.
    + apply Z.eqb_neq in He.
      assert (Hc : start + chunk_size < Z.of_nat (String.length text)) by lia.
      rewrite Z.min_l by lia.
      rewrite str_slice_drop by lia.
      fold (without_overlap overlap
              (chunk_loop text chunk_size overlap meta valid
                          (start + chunk_size - overlap) (index + 1))).
      rewrite IH by lia.
      replace (start + chunk_size - overlap + overlap)
        with (start + chunk_size) by lia.
      apply str_slice_join; lia.
Qed.

Lemma chunk_loop_nonempty (text : string) (chunk_size overlap : Z)
  (meta : Metadata) (valid : overlap < chunk_size) (start index : Z) :
  start < Z.of_nat (String.length text) ->
  chunk_loop text chunk_size overlap meta valid start index <> [].
Proof.
  intros Hs. rewrite chunk_loop_step.
  rewrite (proj2 (Z.ltb_lt _ _) Hs). discriminate.
Qed.

Lemma chunk_loop_sizes (text : string) (chunk_size overlap : Z)
  (meta : Metadata) (valid : overlap < chunk_size) :
  0 <= overlap ->
  forall (m : nat) (start index : Z),
    (Z.to_nat (Z.of_nat (String.length text) - start) <= m)%nat ->
    0 <= start ->
    Forall (fun chunk =>
              1 <= Z.of_nat (String.length (TextChunk.text chunk))
              <= chunk_size)
           (chunk_loop text chunk_size overlap meta valid start index)
    /\ Forall (fun chunk =>
                 Z.of_nat (String.length (TextChunk.text chunk)) = chunk_size)
              (removelast
                 (chunk_loop text chunk_size overlap meta valid start index)).
Proof.
  intros Ho. induction m as [|m IH]; intros start index Hm Hs;
    rewrite chunk_loop_step.
  - assert (E : (start <? Z.of_nat (String.length text)) = false)
      by (apply Z.ltb_nlt; lia).
    rewrite E. split; constructor.
  - destruct (start <? Z.of_nat (String.length text)) eqn:E;
      [|split; constructor].
    apply Z.ltb_lt in E. cbv zeta.
    destruct (Z.min (start + chunk_size) (Z.of_nat (String.length text))
              =? Z.of_nat (String.length text)) eqn:He.
    + apply Z.eqb_eq in He. split; [|constructor].
      constructor; [|constructor]. cbn [make_chunk TextChunk.text].
      rewrite str_slice_length by lia. lia.
    + apply Z.eqb_neq in He.
      assert (Hc : start + chunk_size < Z.of_nat (String.length text)) by lia.
      rewrite Z.min_l by lia.
      destruct (IH (start + chunk_size - overlap) (index + 1)) as [H1 H2];
        [lia | lia |].
      assert (Hlen : Z.of_nat (String.length
                                 (TextChunk.text
                                    (make_chunk text meta start
                                                (start + chunk_size) index)))
                     = chunk_size).
      { cbn [make_chunk TextChunk.text]. rewrite str_slice_length by lia. lia. }
      split.
      * constructor; [lia | exact H1].
      * pose proof (chunk_loop_nonempty text chunk_size overlap meta valid
                      (start + chunk_size - overlap) (index + 1)) as Hne.
        destruct (chunk_loop text chunk_size overlap meta valid
                             (start + chunk_size - overlap) (index + 1))
          as [|c rest] eqn:El.
        { exfalso. apply Hne; [lia | reflexivity]. }
        cbn [removelast]. constructor; [exact Hlen | exact H2].
Qed.

(** X21. For parameters that pass its checks, [chunk_text] cuts the text at
    regular positions: chunk [i] has id [i], starts at
    [i * (chunk_size - overlap)] and ends [chunk_size] characters later or
    where the text ends, and carries the metadata of the call updated with
    these two positions. There is no chunk for the empty text; otherwise the
    last chunk is the first one that reaches the end of the text. *)
Theorem chunk_text_slices_at_regular_positions
  (text : string) (chunk_size overlap : Z) (metadata : option Metadata) :
  0 <= overlap < chunk_size ->
  exists n : Z,
    chunk_text text chunk_size overlap metadata
    = Ok (map (fun i =>
                 let from := Z.of_nat i * (chunk_size - overlap) in
                 make_chunk text
                            (match metadata with Some m => m | None => [] end)
                            from
                            (Z.min (from + chunk_size)
                                   (Z.of_nat (String.length text)))
                            (Z.of_nat i))
              (range n))
    /\ (String.length text = O -> n = 0)
    /\ (String.length text <> O ->
        1 <= n
        /\ Z.of_nat (String.length text)
           <= (n - 1) * (chunk_size - overlap) + chunk_size
        /\ (2 <= n ->
            (n - 2) * (chunk_size - overlap) + chunk_size
            < Z.of_nat (String.length text))).
Proof.
  intros Hv.
  exists (chunk_count (Z.of_nat (String.length text)) chunk_size overlap 0).
  split; [|split].
  - unfold chunk_text.
    destruct (chunk_size <=? 0) eqn:E1; [apply Z.leb_le in E1; lia|].
    destruct (overlap <? 0) eqn:E2; [apply Z.ltb_lt in E2; lia|].
    destruct (Z_lt_dec overlap chunk_size) as [valid|Hn]; [|lia].
    cbv zeta. f_equal.
    rewrite (chunk_loop_closed_form text chunk_size overlap _ valid
               (proj1 Hv) (String.length text) 0 0) by lia.
    apply map_ext. intros i. cbv zeta. now rewrite !Z.add_0_l.
  - intros H0. unfold chunk_count. rewrite H0. reflexivity.
  - intros Hne. unfold chunk_count.
    assert (E : (0 <? Z.of_nat (String.length text)) = true)
      by (apply Z.ltb_lt; lia).
    rewrite E, Z.sub_0_r.
    set (step := chunk_size - overlap).
    set (x := Z.max 0 (Z.of_nat (String.length text) - chunk_size)).
    assert (Hstep : 0 < step) by (unfold step; lia).
    assert (Hx : 0 <= x) by (unfold x; lia).
    pose proof (Z.div_mod (x + step - 1) step ltac:(lia)) as Hdm.
    pose proof (Z.mod_pos_bound (x + step - 1) step Hstep) as Hmb.
    set (q := (x + step - 1) / step) in *.
    replace (1 + q - 1) with q by lia. replace (1 + q - 2) with (q - 1) by lia.
    assert (Hq : 0 <= q) by (apply Z.div_pos; lia).
    repeat split; [lia | nia | intros Hq2; nia].
Qed.

(** X22. The chunks that [chunk_text] returns give the text back: the first
    chunk followed by every other chunk without its first [overlap]
    characters is the text. No chunk is empty or longer than [chunk_size],
    and every chunk but the last has exactly [chunk_size] characters. *)
Theorem chunk_text_chunks_reassemble_to_text
  (text : string) (chunk_size overlap : Z) (metadata : option Metadata)
  (chunks : list TextChunk.t) :
  chunk_text text chunk_size overlap metadata = Ok chunks ->
  reassemble overlap chunks = text
  /\ Forall (fun chunk =>
               1 <= Z.of_nat (String.length (TextChunk.text chunk))
               <= chunk_size)
            chunks
  /\ Forall (fun chunk =>
               Z.of_nat (String.length (TextChunk.text chunk)) = chunk_size)
            (removelast chunks).
Proof.
  unfold chunk_text.
  destruct (chunk_size <=? 0) eqn:E1; [discriminate|].
  destruct (overlap <? 0) eqn:E2; [discriminate|].
  destruct (Z_lt_dec overlap chunk_size) as [valid|Hn]; [|discriminate].
  apply Z.ltb_ge in E2. cbv zeta. intros E. injection E as <-.
  set (meta := match metadata with Some m => m | None => [] end).
  split.
  - rewrite chunk_loop_step.
    destruct (0 <? Z.of_nat (String.length text)) eqn:E0.
    2:{ apply Z.ltb_ge in E0. destruct text; [reflexivity | cbn in E0; lia]. }
    apply Z.ltb_lt in E0. cbv zeta. cbn [reassemble].
    cbn [make_chunk TextChunk.text]. rewrite Z.add_0_l.
    destruct (Z.min chunk_size (Z.of_nat (String.length text))
              =? Z.of_nat (String.length text)) eqn:He.
    + apply Z.eqb_eq in He. rewrite He. unfold without_overlap.
      cbn [map String.concat]. rewrite append_empty. apply str_slice_all.
    + apply Z.eqb_neq in He. rewrite Z.min_l by lia.
      rewrite (chunk_loop_without_overlap text chunk_size overlap meta valid
                 E2 (String.length text)) by lia.
      replace (chunk_size - overlap + overlap) with chunk_size by lia.
      rewrite str_slice_join by lia. apply str_slice_all.
  - apply (chunk_loop_sizes text chunk_size overlap meta valid E2
             (String.length text)); lia.
Qed.

Lemma chunk_text_slices_at_regular_positions_witness :
  exists n : Z,
    chunk_text "abcdefghij" 4 1 None
    = Ok (map (fun i =>
                 let from := Z.of_nat i * (4 - 1) in
                 make_chunk "abcdefghij" [] from
                            (Z.min (from + 4)
                                   (Z.of_nat (String.length "abcdefghij")))
                            (Z.of_nat i))
              (range n))
    /\ (String.length "abcdefghij" = O -> n = 0)
    /\ (String.length "abcdefghij" <> O ->
        1 <= n
        /\ Z.of_nat (String.length "abcdefghij") <= (n - 1) * (4 - 1) + 4
        /\ (2 <= n ->
            (n - 2) * (4 - 1) + 4 < Z.of_nat (String.length "abcdefghij"))).
Proof.
  apply (chunk_text_slices_at_regular_positions "abcdefghij" 4 1 None). lia.
Defined.

Lemma chunk_text_chunks_reassemble_to_text_witness :
  let chunks :=
    [make_chunk "abcdefghij" [] 0 4 0; make_chunk "abcdefghij" [] 3 7 1;
     make_chunk "abcdefghij" [] 6 10 2] in
  reassemble 1 chunks = "abcdefghij"%string
  /\ Forall (fun chunk =>
               1 <= Z.of_nat (String.length (TextChunk.text chunk)) <= 4)
            chunks
  /\ Forall (fun chunk =>
               Z.of_nat (String.length (TextChunk.text chunk)) = 4)
            (removelast chunks).
Proof.
  apply (chunk_text_chunks_reassemble_to_text "abcdefghij" 4 1 None).
  vm_compute. reflexivity.
Defined.

(** ** Dicts *)

Section DictFacts.

Context {V : Type}.

Lemma dict_get_set (d : list (string * V)) (key key' : string) (value : V) :
  dict_get (dict_set d key value) key'
  = if String.eqb key key' then Some value else dict_get d key'.
Proof.
  induction d as [|[k v] d IH]; cbn [dict_set dict_get].
  - reflexivity.
  - destruct (String.eqb k key) eqn:E; cbn [dict_get].
    + apply String.eqb_eq in E. subst k.
      now destruct (String.eqb key key').
    + destruct (String.eqb k key') eqn:E'; [|exact IH].
      apply String.eqb_eq in E'. subst k. now rewrite String.eqb_sym, E.
Qed.

Lemma dict_get_setdefault (d : list (string * V)) (key key' : string)
  (value : V) :
  dict_get (dict_setdefault d key value) key'
  = match dict_get d key' with
    | Some v => Some v
    | None => if String.eqb key key' then Some value else None
    end.
Proof.
  unfold dict_setdefault. destruct (dict_get d key) as [v|] eqn:E.
  - destruct (dict_get d key') as [v'|] eqn:E'; [reflexivity|].
    destruct (String.eqb key key') eqn:Ek; [|reflexivity].
    apply String.eqb_eq in Ek. subst key'. congruence.
  - rewrite dict_get_set. destruct (String.eqb key key') eqn:Ek.
    + apply String.eqb_eq in Ek. subst key'. now rewrite E.
    + now destruct (dict_get d key').
Qed.

Lemma dict_set_absent (d : list (string * V)) (key : string) (value : V) :
  dict_get d key = None -> dict_set d key value = d ++ [(key, value)].
Proof.
  induction d as [|[k v] d IH]; cbn [dict_set dict_get app]; [reflexivity|].
  destruct (String.eqb k key); [discriminate|]. intros E. now rewrite IH.
Qed.

End DictFacts.

(** ** Deduplication *)

Section DeduplicationFacts.

Variable sha256 : string -> string.
Variable strip : string -> string.
Variable salt : string.

(** The fingerprint that [deduplicate_chunks] computes for a chunk. *)
Definition fingerprint (chunk : TextChunk.t) : string :=
  _hash_text sha256 (strip (TextChunk.text chunk)) salt.

Definition seen_entry (chunk : TextChunk.t) : string * TextChunk.t :=
  (fingerprint chunk, chunk).

Lemma seen_lookup (ordered : list TextChunk.t) (f : string) :
  dict_get (map seen_entry ordered) f
  = find (fun chunk => String.eqb (fingerprint chunk) f) ordered.
Proof.
  induction ordered as [|c l IH]; cbn [map dict_get find seen_entry];
    [reflexivity|].
  now destruct (String.eqb (fingerprint c) f).
Qed.

Lemma find_none_existsb {A : Type} (p : A -> bool) (l : list A) :
  find p l = None <-> existsb p l = false.
Proof.
  induction l as [|x l IH]; cbn [find existsb]; [tauto|].
  destruct (p x); cbn [orb]; [split; discriminate | exact IH].
Qed.

(** The chunks whose fingerprint no chunk before them has. *)
Definition first_of_each (chunks : list TextChunk.t) : list TextChunk.t :=
  map snd
      (filter (fun entry =>
                 negb (existsb (fun before =>
                                  String.eqb (fingerprint before)
                                             (fingerprint (snd entry)))
                               (firstn (fst entry) chunks)))
              (combine (seq 0 (length chunks)) chunks)).

(** The ids recorded under a fingerprint: those of the chunks that have it,
    but for the first. *)
Definition later_ids (f : string) (chunks : list TextChunk.t)
  : option (list string) :=
  match filter (fun chunk => String.eqb (fingerprint chunk) f) chunks with
  | _ :: later :: more =>
      Some (map (fun chunk => str_int (TextChunk.id chunk)) (later :: more))
  | _ => None
  end.

Lemma combine_snoc {A B : Type} (l : list A) (l' : list B) (a : A) (b : B) :
  length l = length l' ->
  combine (l ++ [a]) (l' ++ [b]) = combine l l' ++ [(a, b)].
Proof.
  revert l'. induction l as [|x l IH]; intros [|y l'] E; try discriminate.
  - reflexivity.
  - cbn. f_equal. apply IH. now injection E.
Qed.

Lemma in_combine_seq {A : Type} (l : list A) (i : nat) (x : A) :
  In (i, x) (combine (seq 0 (length l)) l) -> (i < length l)%nat.
Proof.
  intros Hin. apply in_combine_l in Hin. apply in_seq in Hin. lia.
Qed.

Lemma first_of_each_snoc (chunks : list TextChunk.t) (chunk : TextChunk.t) :
  first_of_each (chunks ++ [chunk])
  = first_of_each chunks
    ++ (if existsb (fun before =>
                      String.eqb (fingerprint before) (fingerprint chunk))
                   chunks
        then [] else [chunk]).
Proof.
  unfold first_of_each. rewrite length_app. cbn [length].
  rewrite Nat.add_1_r, seq_S, Nat.add_0_l.
  rewrite combine_snoc by now rewrite length_seq.
  rewrite filter_app, map_app. f_equal.
  - f_equal. apply filter_ext_in. intros [i x] Hin. cbn [fst snd].
    apply in_combine_seq in Hin.
    rewrite firstn_app. replace (i - length chunks)%nat with O by lia.
    cbn [firstn]. now rewrite app_nil_r.
  - cbn [filter fst snd]. rewrite firstn_app, firstn_all, Nat.sub_diag.
    cbn [firstn]. rewrite app_nil_r.
    now destruct (existsb _ chunks).
Qed.

Lemma later_ids_snoc (f : string) (chunks : list TextChunk.t)
  (chunk : TextChunk.t) :
  later_ids f (chunks ++ [chunk])
  = if String.eqb (fingerprint chunk) f
    then
      if existsb (fun before => String.eqb (fingerprint before) f) chunks
      then Some (match later_ids f chunks with
                 | Some ids => ids
                 | None => []
                 end ++ [str_int (TextChunk.id chunk)])
      else None
    else later_ids f chunks.
Proof.
  unfold later_ids. rewrite filter_app. cbn [filter].
  destruct (String.eqb (fingerprint chunk) f) eqn:E.
  2:{ now rewrite app_nil_r. }
  assert (Hex : existsb (fun before => String.eqb (fingerprint before) f) chunks
                = match filter (fun c => String.eqb (fingerprint c) f) chunks with
                  | [] => false
                  | _ :: _ => true
                  end).
  { clear. induction chunks as [|c l IH]; cbn [existsb filter]; [reflexivity|].
    destruct (String.eqb (fingerprint c) f); [reflexivity | exact IH]. }
  rewrite Hex.
  destruct (filter _ chunks) as [|a [|b l]]; cbn [app map]; try reflexivity.
  now rewrite map_app.
Qed.

(** The state of the loop of [deduplicate_chunks] after the chunks. *)
Lemma dedup_loop_state (chunks : list TextChunk.t) :
  exists duplicates,
    fold_left (dedup_round sha256 strip salt) chunks ([], [], [])
    = (map seen_entry (first_of_each chunks), duplicates,
       first_of_each chunks)
    /\ (forall f, dict_get duplicates f = later_ids f chunks)
    /\ (forall f,
           existsb (fun chunk => String.eqb (fingerprint chunk) f)
                   (first_of_each chunks)
           = existsb (fun chunk => String.eqb (fingerprint chunk) f) chunks)
    /\ NoDup (map fingerprint (first_of_each chunks)).
Proof.
  induction chunks as [|chunk chunks IH] using rev_ind.
  - exists []. repeat split; try reflexivity. constructor.
  - destruct IH as (duplicates & Ef & Hd & Hs & Hn).
    rewrite fold_left_app, Ef. cbn [fold_left dedup_round].
    fold (fingerprint chunk). rewrite seen_lookup.
    rewrite first_of_each_snoc.
    pose proof (Hs (fingerprint chunk)) as Hsc.
    destruct (find (fun c => String.eqb (fingerprint c) (fingerprint chunk))
                   (first_of_each chunks)) as [c|] eqn:Efind.
    + assert (Hex : existsb (fun before =>
                               String.eqb (fingerprint before)
                                          (fingerprint chunk)) chunks = true).
      { rewrite <- Hsc. apply not_false_iff_true. intros Hf.
        apply find_none_existsb in Hf. congruence. }
      rewrite Hex, app_nil_r.
      eexists. split; [reflexivity|]. split; [|split].
      * intros f. rewrite dict_get_set, later_ids_snoc.
        destruct (String.eqb (fingerprint chunk) f) eqn:E.
        -- apply String.eqb_eq in E. subst f. rewrite Hex. f_equal. f_equal.
           unfold dict_get_or. rewrite dict_get_setdefault, String.eqb_refl.
           rewrite Hd. now destruct (later_ids (fingerprint chunk) chunks).
        -- rewrite dict_get_setdefault, E, Hd.
           now destruct (later_ids f chunks).
      * intros f. rewrite existsb_app. cbn [existsb]. rewrite orb_false_r.
        rewrite Hs. destruct (String.eqb (fingerprint chunk) f) eqn:E.
        -- apply String.eqb_eq in E. subst f. rewrite Hex. reflexivity.
        -- now rewrite orb_false_r.
      * exact Hn.
    + apply find_none_existsb in Efind. rewrite Hsc in Efind.
      rewrite Efind.
      rewrite dict_set_absent
        by (rewrite seen_lookup; apply find_none_existsb; now rewrite Hsc).
      exists duplicates. split; [|split; [|split]].
      * now rewrite map_app.
      * intros f. rewrite later_ids_snoc, Hd.
        destruct (String.eqb (fingerprint chunk) f) eqn:E; [|reflexivity].
        apply String.eqb_eq in E. subst f. rewrite Efind.
        unfold later_ids.
        assert (Hf : filter (fun c => String.eqb (fingerprint c)
                                                 (fingerprint chunk)) chunks
                     = []).
        { clear - Efind. induction chunks as [|c l IH]; [reflexivity|].
          cbn [existsb filter] in *.
          destruct (String.eqb (fingerprint c) (fingerprint chunk));
            [discriminate | now apply IH]. }
        now rewrite Hf.
      * intros f. rewrite !existsb_app. now rewrite Hs.
      * rewrite map_app. cbn [map].
        apply NoDup_app; [exact Hn | repeat constructor; intros [] |].
        intros f Hin [<-|[]]. rewrite <- Hsc in Efind.
        apply in_map_iff in Hin. destruct Hin as (c & Ec & Hc).
        assert (Ht : existsb (fun c0 => String.eqb (fingerprint c0)
                                                   (fingerprint chunk))
                             (first_of_each chunks) = true).
        { apply existsb_exists. exists c. split; [exact Hc|].
          now apply String.eqb_eq. }
        congruence.
Qed.

Lemma dedup_unique_incl (chunks : list TextChunk.t) :
  incl (DeduplicatedResult.unique_chunks
          (deduplicate_chunks sha256 strip chunks salt))
       chunks.
Proof.
  unfold deduplicate_chunks.
  destruct (dedup_loop_state chunks) as (duplicates & Ef & _).
  rewrite Ef. cbn [DeduplicatedResult.unique_chunks].
  intros chunk Hin. unfold first_of_each in Hin.
  apply in_map_iff in Hin. destruct Hin as ([i c] & <- & Hf).
  apply filter_In in Hf. destruct Hf as [Hc _].
  now apply in_combine_r in Hc.
Qed.

(** X23. [deduplicate_chunks] keeps, in the order of the input, exactly
    the chunks whose fingerprint (the salted SHA-256 of the stripped text) no
    earlier chunk has, and records under each fingerprint the ids of the
    later chunks that have it, in the order of the input; a fingerprint that
    only one chunk has is not recorded. *)
Theorem deduplicate_chunks_keeps_first_of_each_fingerprint
  (chunks : list TextChunk.t) :
  let result := deduplicate_chunks sha256 strip chunks salt in
  let fp chunk := _hash_text sha256 (strip (TextChunk.text chunk)) salt in
  DeduplicatedResult.unique_chunks result
  = map snd
        (filter (fun entry =>
                   negb (existsb (fun before =>
                                    String.eqb (fp before) (fp (snd entry)))
                                 (firstn (fst entry) chunks)))
                (combine (seq 0 (length chunks)) chunks))
  /\ forall f : string,
      dict_get (DeduplicatedResult.duplicates result) f
      = match filter (fun chunk => String.eqb (fp chunk) f) chunks with
        | _ :: later :: more =>
            Some (map (fun chunk => str_int (TextChunk.id chunk))
                      (later :: more))
        | _ => None
        end.
Proof.
  cbv zeta. unfold deduplicate_chunks.
  destruct (dedup_loop_state chunks) as (duplicates & Ef & Hd & _ & _).
  rewrite Ef. cbn [DeduplicatedResult.unique_chunks
                     DeduplicatedResult.duplicates].
  split; [reflexivity | exact Hd].
Qed.

Lemma dedup_loop_distinct (chunks : list TextChunk.t) :
  NoDup (map fingerprint chunks) ->
  forall (ordered : list TextChunk.t)
         (duplicates : list (string * list string)),
    NoDup (map fingerprint (ordered ++ chunks)) ->
    fold_left (dedup_round sha256 strip salt) chunks
              (map seen_entry ordered, duplicates, ordered)
    = (map seen_entry (ordered ++ chunks), duplicates, ordered ++ chunks).
Proof.
  intros _. induction chunks as [|chunk chunks IH]; intros ordered duplicates Hn.
  - cbn [fold_left]. now rewrite app_nil_r.
  - cbn [fold_left dedup_round]. fold (fingerprint chunk).
    assert (Hnone : dict_get (map seen_entry ordered) (fingerprint chunk)
                    = None).
    { rewrite seen_lookup. apply find_none_existsb.
      apply not_true_iff_false. intros Ht.
      apply existsb_exists in Ht. destruct Ht as (c & Hc & Ec).
      apply String.eqb_eq in Ec.
      rewrite map_app in Hn. cbn [map] in Hn.
      apply NoDup_remove_2 in Hn. apply Hn. apply in_or_app. left.
      rewrite <- Ec. now apply in_map. }
    rewrite Hnone. rewrite dict_set_absent by exact Hnone.
    replace (map seen_entry ordered ++ [(fingerprint chunk, chunk)])
      with (map seen_entry (ordered ++ [chunk]))
      by (rewrite map_app; reflexivity).
    rewrite IH by (now rewrite <- app_assoc).
    now rewrite <- app_assoc.
Qed.

(** X24. The chunks that [deduplicate_chunks] keeps have pairwise different
    fingerprints, and every fingerprint of the input is the fingerprint of
    a kept chunk. Deduplicating the kept chunks again (with the same salt)
    keeps them all and reports no duplicate. *)
Theorem deduplicate_chunks_is_idempotent (chunks : list TextChunk.t) :
  let result := deduplicate_chunks sha256 strip chunks salt in
  let fp chunk := _hash_text sha256 (strip (TextChunk.text chunk)) salt in
  NoDup (map fp (DeduplicatedResult.unique_chunks result))
  /\ (forall chunk,
         In chunk chunks ->
         exists kept,
           In kept (DeduplicatedResult.unique_chunks result)
           /\ fp kept = fp chunk)
  /\ deduplicate_chunks sha256 strip
                        (DeduplicatedResult.unique_chunks result) salt
     = {| DeduplicatedResult.unique_chunks :=
            DeduplicatedResult.unique_chunks result;
          DeduplicatedResult.duplicates := [] |}.
Proof.
  cbv zeta.
  destruct (dedup_loop_state chunks) as (duplicates & Ef & Hd & Hs & Hn).
  assert (Er : deduplicate_chunks sha256 strip chunks salt
               = {| DeduplicatedResult.unique_chunks := first_of_each chunks;
                    DeduplicatedResult.duplicates := duplicates |}).
  { unfold deduplicate_chunks. now rewrite Ef. }
  rewrite Er. cbn [DeduplicatedResult.unique_chunks].
  split; [exact Hn|]. split.
  - intros chunk Hin.
    assert (Ht : existsb (fun c => String.eqb (fingerprint c)
                                              (fingerprint chunk))
                         (first_of_each chunks) = true).
    { rewrite Hs. apply existsb_exists. exists chunk.
      split; [exact Hin | apply String.eqb_refl]. }
    apply existsb_exists in Ht. destruct Ht as (kept & Hk & Ek).
    exists kept. split; [exact Hk|]. now apply String.eqb_eq.
  - unfold deduplicate_chunks.
    pose proof (dedup_loop_distinct (first_of_each chunks) Hn [] [] Hn) as E.
    cbn [map app] in E. now rewrite E.
Qed.

End DeduplicationFacts.



(** ** Context fusion *)

Section FusionFacts.

Variable split : string -> list string.

(** The token estimates of the snippets, added up. *)
Definition total_cost (snippets : list ContextSnippet.t) : Z :=
  fold_right
    (fun snippet total =>
       ContextFusion._token_estimate split (ContextSnippet.content snippet)
       + total)
    0 snippets.

Lemma token_estimate_positive (text : string) :
  1 <= ContextFusion._token_estimate split text.
Proof. unfold ContextFusion._token_estimate. lia. Qed.

Lemma total_cost_nonneg (snippets : list ContextSnippet.t) :
  0 <= total_cost snippets.
Proof.
  induction snippets as [|s l IH]; cbn [total_cost fold_right]; [lia|].
  fold (total_cost l).
  pose proof (token_estimate_positive (ContextSnippet.content s)). lia.
Qed.

Lemma total_cost_app (l l' : list ContextSnippet.t) :
  total_cost (l ++ l') = total_cost l + total_cost l'.
Proof.
  induction l as [|s l IH]; cbn [app total_cost fold_right]; [reflexivity|].
  fold (total_cost (l ++ l')). fold (total_cost l). lia.
Qed.

Lemma total_cost_perm (l l' : list ContextSnippet.t) :
  Permutation l l' -> total_cost l = total_cost l'.
Proof.
  induction 1 as [|x l l' Hp IH|x y l|l l' l'' H1 IH1 H2 IH2];
    cbn [total_cost fold_right].
  - reflexivity.
  - fold (total_cost l). fold (total_cost l'). lia.
  - lia.
  - congruence.
Qed.

Lemma fuse_loop_acc (ordered : list ContextSnippet.t) :
  forall (budget : Z) (fused : list ContextSnippet.t),
    ContextFusion.fuse_loop split budget fused ordered
    = fused ++ ContextFusion.fuse_loop split budget [] ordered.
Proof.
  induction ordered as [|s rest IH]; intros budget fused;
    cbn [ContextFusion.fuse_loop].
  - now rewrite app_nil_r.
  - cbv zeta.
    destruct (budget <? ContextFusion._token_estimate
                          split (ContextSnippet.content s)); [apply IH|].
    destruct (budget - ContextFusion._token_estimate
                         split (ContextSnippet.content s) <=? 0);
      [reflexivity|].
    rewrite (IH _ (fused ++ [s])), (IH _ ([] ++ [s])).
    now rewrite <- app_assoc.
Qed.

(** What the loop of [fuse] selects from the ordered snippets with a budget
    that is not negative: the selection fits the budget, it is taken from
    the snippets in their order, and no snippet left out fits into what the
    selection leaves of the budget. *)
Lemma fuse_loop_selection (ordered : list ContextSnippet.t) :
  forall budget : Z,
    0 <= budget ->
    exists left_out,
      Permutation (ContextFusion.fuse_loop split budget [] ordered ++ left_out)
                  ordered
      /\ total_cost (ContextFusion.fuse_loop split budget [] ordered) <= budget
      /\ Forall (fun snippet =>
                   budget
                   - total_cost (ContextFusion.fuse_loop split budget [] ordered)
                   < ContextFusion._token_estimate
                       split (ContextSnippet.content snippet))
                left_out.
Proof.
  induction ordered as [|s rest IH]; intros budget Hb;
    cbn [ContextFusion.fuse_loop].
  - exists []. repeat split; [constructor | cbn; lia | constructor].
  - cbv zeta.
    pose proof (token_estimate_positive (ContextSnippet.content s)) as Hpos.
    set (cost := ContextFusion._token_estimate
                   split (ContextSnippet.content s)) in *.
    destruct (budget <? cost) eqn:E1.
    + apply Z.ltb_lt in E1.
      destruct (IH budget Hb) as (left_out & Hp & Ht & Hl).
      exists (s :: left_out). split; [|split].
      * apply Permutation_sym.
        apply (Permutation_trans (Permutation_cons eq_refl (Permutation_sym Hp))).
        apply Permutation_middle.
      * exact Ht.
      * constructor; [|exact Hl].
        fold cost.
        pose proof (total_cost_nonneg
                      (ContextFusion.fuse_loop split budget [] rest)). lia.
    + apply Z.ltb_ge in E1. cbn [app].
      destruct (budget - cost <=? 0) eqn:E2.
      * apply Z.leb_le in E2. exists rest. split; [|split].
        -- reflexivity.
        -- cbn [total_cost fold_right]. fold cost. lia.
        -- apply Forall_forall. intros r _.
           pose proof (token_estimate_positive (ContextSnippet.content r)).
           cbn [total_cost fold_right]. fold cost. lia.
      * apply Z.leb_gt in E2. rewrite fuse_loop_acc.
        destruct (IH (budget - cost) ltac:(lia)) as (left_out & Hp & Ht & Hl).
        exists left_out. cbn [app]. split; [|split].
        -- now constructor.
        -- cbn [total_cost fold_right]. fold cost.
           fold (total_cost
                   (ContextFusion.fuse_loop split (budget - cost) [] rest)).
           lia.
        -- eapply Forall_impl; [|exact Hl]. intros r Hr. cbv beta in *.
           cbn [total_cost fold_right]. fold cost.
           fold (total_cost
                   (ContextFusion.fuse_loop split (budget - cost) [] rest)).
           lia.
Qed.

Lemma fuse_loop_all (ordered : list ContextSnippet.t) :
  forall budget : Z,
    total_cost ordered <= budget ->
    ContextFusion.fuse_loop split budget [] ordered = ordered.
Proof.
  induction ordered as [|s rest IH]; intros budget Hb;
    cbn [ContextFusion.fuse_loop]; [reflexivity|].
  cbv zeta. cbn [total_cost fold_right] in Hb. fold (total_cost rest) in Hb.
  pose proof (total_cost_nonneg rest) as Hr.
  set (cost := ContextFusion._token_estimate
                 split (ContextSnippet.content s)) in *.
  assert (E1 : (budget <? cost) = false) by (apply Z.ltb_ge; lia).
  rewrite E1. cbn [app].
  destruct (budget - cost <=? 0) eqn:E2.
  - apply Z.leb_le in E2. destruct rest as [|r rest]; [reflexivity|].
    exfalso. cbn [total_cost fold_right] in Hb, Hr.
    fold (total_cost rest) in Hb, Hr.
    pose proof (token_estimate_positive (ContextSnippet.content r)).
    pose proof (total_cost_nonneg rest). lia.
  - rewrite fuse_loop_acc. cbn [app]. f_equal. apply IH. lia.
Qed.

(** X25. [fuse] of a fusion built by the constructor respects the budget:
    the token estimates of the selected snippets add up to at most
    [max_tokens]. Every selected snippet is one of the given snippets, none
    is selected twice, and the selection cannot be extended: no snippet that
    is left out fits into what remains of the budget. *)
Theorem fuse_respects_budget_and_is_maximal
  (max_tokens : Z) (self : ContextFusion.t)
  (snippets : list ContextSnippet.t) :
  ContextFusion.init max_tokens = Ok self ->
  let fused := ContextFusion.fuse split self snippets in
  total_cost fused <= max_tokens
  /\ exists left_out,
      Permutation (fused ++ left_out) snippets
      /\ Forall (fun snippet =>
                   max_tokens - total_cost fused
                   < ContextFusion._token_estimate
                       split (ContextSnippet.content snippet))
                left_out.
Proof.
  unfold ContextFusion.init.
  destruct (max_tokens <=? 0) eqn:E; [discriminate|].
  apply Z.leb_gt in E. intros Ei. injection Ei as <-. cbv zeta.
  unfold ContextFusion.fuse. cbn [ContextFusion.max_tokens].
  destruct (fuse_loop_selection (sort_desc ContextSnippet.score snippets)
                                max_tokens ltac:(lia))
    as (left_out & Hp & Ht & Hl).
  split; [exact Ht|]. exists left_out. split; [|exact Hl].
  apply (Permutation_trans Hp). apply sort_desc_perm.
Qed.

Lemma fuse_loop_sorted (R : ContextSnippet.t -> ContextSnippet.t -> Prop)
  (ordered : list ContextSnippet.t) :
  StronglySorted R ordered ->
  forall budget : Z,
    0 <= budget ->
    StronglySorted R (ContextFusion.fuse_loop split budget [] ordered).
Proof.
  induction 1 as [|s rest Hs IH Hr]; intros budget Hb;
    cbn [ContextFusion.fuse_loop]; [constructor|].
  cbv zeta.
  pose proof (token_estimate_positive (ContextSnippet.content s)) as Hpos.
  set (cost := ContextFusion._token_estimate
                 split (ContextSnippet.content s)) in *.
  destruct (budget <? cost) eqn:E1; [now apply IH|].
  apply Z.ltb_ge in E1. cbn [app].
  destruct (budget - cost <=? 0) eqn:E2; [repeat constructor|].
  rewrite fuse_loop_acc. cbn [app].
  constructor; [apply IH; lia|].
  destruct (fuse_loop_selection rest (budget - cost) ltac:(lia))
    as (left_out & Hp & _ & _).
  apply Forall_forall. intros x Hx.
  apply (proj1 (Forall_forall _ _) Hr).
  apply (Permutation_in _ Hp). apply in_or_app. now left.
Qed.

(** X26. When no score is NaN, [fuse] returns the selected snippets ranked
    by descending score. When all the snippets together fit into the budget
    it returns every one of them, snippets of equal score in the order
    given; and the best-ranked snippet comes first in the result whenever
    it fits the budget by itself. *)
Theorem fuse_ranks_the_selection_by_score
  (max_tokens : Z) (self : ContextFusion.t)
  (snippets : list ContextSnippet.t) :
  ContextFusion.init max_tokens = Ok self ->
  Forall (fun snippet => Float.not_nan (ContextSnippet.score snippet))
         snippets ->
  StronglySorted
    (fun a b =>
       PrimFloat.ltb (ContextSnippet.score a) (ContextSnippet.score b) = false)
    (ContextFusion.fuse split self snippets)
  /\ (total_cost snippets <= max_tokens ->
      ContextFusion.fuse split self snippets
      = sort_desc ContextSnippet.score snippets)
  /\ (forall best rest,
         sort_desc ContextSnippet.score snippets = best :: rest ->
         ContextFusion._token_estimate split (ContextSnippet.content best)
         <= max_tokens ->
         exists more,
           ContextFusion.fuse split self snippets = best :: more).
Proof.
  unfold ContextFusion.init.
  destruct (max_tokens <=? 0) eqn:E; [discriminate|].
  apply Z.leb_gt in E. intros Ei Hc. injection Ei as <-.
  unfold ContextFusion.fuse. cbn [ContextFusion.max_tokens].
  split; [|split].
  - apply fuse_loop_sorted; [|lia].
    exact (sort_desc_sorted ContextSnippet.score snippets Hc).
  - intros Ht. apply fuse_loop_all.
    rewrite (total_cost_perm _ _ (sort_desc_perm ContextSnippet.score snippets)).
    exact Ht.
  - intros best rest Es Hb. rewrite Es. cbn [ContextFusion.fuse_loop].
    cbv zeta.
    assert (E1 : (max_tokens
                  <? ContextFusion._token_estimate
                       split (ContextSnippet.content best)) = false)
      by (apply Z.ltb_ge; lia).
    rewrite E1. cbn [app].
    destruct (_ <=? 0); [now exists []|].
    rewrite fuse_loop_acc. cbn [app]. eexists. reflexivity.
Qed.

End FusionFacts.

(** Stand-ins for the library functions on ASCII texts: [str.split] and
    [str.strip] on white space, and for the digest the text itself. *)
Module DemoWords.

Definition is_space (c : Ascii.ascii) : bool :=
  let n := Ascii.nat_of_ascii c in
  (Nat.eqb n 32 || (Nat.leb 9 n && Nat.leb n 13)
   || (Nat.leb 28 n && Nat.leb n 31))%bool.

Fixpoint split_from (word s : string) : list string :=
  match s with
  | EmptyString =>
      match word with
      | EmptyString => []
      | _ => [word]
      end
  | String c rest =>
      if is_space c
      then
        match word with
        | EmptyString => split_from EmptyString rest
        | _ => word :: split_from EmptyString rest
        end
      else split_from (word ++ String c EmptyString) rest
  end.

Definition split (s : string) : list string := split_from EmptyString s.

Fixpoint lstrip (s : string) : string :=
  match s with
  | EmptyString => EmptyString
  | String c rest => if is_space c then lstrip rest else s
  end.

Definition reverse (s : string) : string :=
  string_of_list_ascii (rev (list_ascii_of_string s)).

Definition strip (s : string) : string :=
  reverse (lstrip (reverse (lstrip s))).

Definition digest (s : string) : string := s.

Definition snippet (content : string) (score : float) : ContextSnippet.t :=
  {| ContextSnippet.content := content;
     ContextSnippet.metadata := [];
     ContextSnippet.score := score |}.

Definition snippets : list ContextSnippet.t :=
  [snippet "a b c" 0.5; snippet "d e" 0.75; snippet "f" 0.25].

End DemoWords.

Lemma fuse_respects_budget_and_is_maximal_witness :
  let fused :=
    ContextFusion.fuse DemoWords.split {| ContextFusion.max_tokens := 4 |}
                       DemoWords.snippets in
  total_cost DemoWords.split fused <= 4
  /\ exists left_out,
      Permutation (fused ++ left_out) DemoWords.snippets
      /\ Forall (fun snippet =>
                   4 - total_cost DemoWords.split fused
                   < ContextFusion._token_estimate
                       DemoWords.split (ContextSnippet.content snippet))
                left_out.
Proof.
  apply (fuse_respects_budget_and_is_maximal
           DemoWords.split 4 {| ContextFusion.max_tokens := 4 |}
           DemoWords.snippets).
  reflexivity.
Defined.

Lemma fuse_ranks_the_selection_by_score_witness :
  StronglySorted
    (fun a b =>
       PrimFloat.ltb (ContextSnippet.score a) (ContextSnippet.score b) = false)
    (ContextFusion.fuse DemoWords.split {| ContextFusion.max_tokens := 4 |}
                        DemoWords.snippets)
  /\ (total_cost DemoWords.split DemoWords.snippets <= 4 ->
      ContextFusion.fuse DemoWords.split {| ContextFusion.max_tokens := 4 |}
                         DemoWords.snippets
      = sort_desc ContextSnippet.score DemoWords.snippets)
  /\ (forall best rest,
         sort_desc ContextSnippet.score DemoWords.snippets = best :: rest ->
         ContextFusion._token_estimate DemoWords.split
                                       (ContextSnippet.content best)
         <= 4 ->
         exists more,
           ContextFusion.fuse DemoWords.split
                              {| ContextFusion.max_tokens := 4 |}
                              DemoWords.snippets
           = best :: more).
Proof.
  apply (fuse_ranks_the_selection_by_score
           DemoWords.split 4 {| ContextFusion.max_tokens := 4 |}
           DemoWords.snippets).
  - reflexivity.
  - repeat constructor.
Defined.

(** ** More on dicts, chunks and the Sampled Flat Index *)

Lemma dict_get_update {V : Type} (other : list (string * V)) :
  forall (d : list (string * V)) (key : string),
    dict_get other key = None ->
    dict_get (dict_update d other) key = dict_get d key.
Proof.
  unfold dict_update.
  induction other as [|[k v] other IH]; intros d key Hn; cbn [fold_left];
    [reflexivity|].
  cbn [dict_get] in Hn. cbn [fst snd].
  destruct (String.eqb k key) eqn:E; [discriminate|].
  rewrite IH by exact Hn. now rewrite dict_get_set, E.
Qed.

Lemma dict_get_map {V W : Type} (f : V -> W) (d : list (string * V))
  (key : string) :
  dict_get (map (fun entry => (fst entry, f (snd entry))) d) key
  = option_map f (dict_get d key).
Proof.
  induction d as [|[k v] d IH]; cbn [map dict_get fst snd]; [reflexivity|].
  now destruct (String.eqb k key).
Qed.

Lemma dict_get_stringify (metadata : list (string * object)) (key : string) :
  dict_get (_stringify_metadata metadata) key
  = option_map str (dict_get metadata key).
Proof. apply dict_get_map. Qed.

Lemma chunk_text_metadata (text : string) (chunk_size overlap : Z)
  (meta : Metadata) (chunks : list TextChunk.t) (key : string) :
  chunk_text text chunk_size overlap (Some meta) = Ok chunks ->
  String.eqb "start" key = false -> String.eqb "end" key = false ->
  Forall (fun chunk => dict_get (TextChunk.metadata chunk) key
                       = dict_get meta key)
         chunks.
Proof.
  unfold chunk_text.
  destruct (chunk_size <=? 0); [discriminate|].
  destruct (overlap <? 0) eqn:E2; [discriminate|].
  destruct (Z_lt_dec overlap chunk_size) as [valid|]; [|discriminate].
  apply Z.ltb_ge in E2. cbv zeta. intros E Hs He. injection E as <-.
  rewrite (chunk_loop_closed_form text chunk_size overlap meta valid E2
             (String.length text) 0 0) by lia.
  apply Forall_map, Forall_forall. intros i _. cbv zeta.
  cbn [make_chunk TextChunk.metadata].
  apply dict_get_update. cbn [dict_get]. now rewrite Hs, He.
Qed.

Lemma Forall2_in_right {A B : Type} (R : A -> B -> Prop) (l : list A)
  (l' : list B) (y : B) :
  Forall2 R l l' -> In y l' -> exists x, In x l /\ R x y.
Proof.
  induction 1 as [|a b l l' Hab HF IH]; intros Hin; [destruct Hin|].
  destruct Hin as [<-|Hin].
  - exists a. split; [now left | exact Hab].
  - destruct (IH Hin) as (x & Hx & Hr). exists x. split; [now right | exact Hr].
Qed.

Lemma hnsw_add_ok {G : Type} `{RandomSource G} (items : list IndexedVector) :
  forall self self' : HNSWIndex.t G,
    HNSWIndex.add self items = (self', Ok tt) ->
    HNSWIndex._items self' = HNSWIndex._items self ++ items
    /\ HNSWIndex.dimension self' = HNSWIndex.dimension self
    /\ HNSWIndex.ef self' = HNSWIndex.ef self.
Proof.
  induction items as [|item items IH]; intros self self' E;
    cbn [HNSWIndex.add] in E.
  - injection E as <-. now rewrite app_nil_r.
  - destruct (negb (len (vector item) =? HNSWIndex.dimension self));
      [discriminate|].
    apply IH in E. destruct E as (Hi & Hd & He).
    cbn [HNSWIndex.append HNSWIndex._items HNSWIndex.dimension HNSWIndex.ef]
      in Hi, Hd, He.
    rewrite Hi, <- app_assoc. auto.
Qed.

(** * The gateway: what the code guarantees *)

Section GatewayFacts.

Context {G : Type} `{RandomSource G}.

Variable hash : string -> Z.
Variable lower : string -> string.
Variable sha256 : string -> string.
Variable strip : string -> string.
Variable split : string -> list string.

Lemma set_index_same (self : PipelineState.t G) :
  PipelineState.set_index self (PipelineState.index self) = self.
Proof. now destruct self. Qed.

Lemma chunk_text_invalid (text : string) (chunk_size overlap : Z)
  (metadata : option Metadata) :
  chunk_size <= 0 \/ overlap < 0 \/ chunk_size <= overlap ->
  exists msg,
    chunk_text text chunk_size overlap metadata = Raise (ValueError msg).
Proof.
  intros Hbad. unfold chunk_text.
  destruct (chunk_size <=? 0) eqn:E1; [eexists; reflexivity|].
  destruct (overlap <? 0) eqn:E2; [eexists; reflexivity|].
  destruct (Z_lt_dec overlap chunk_size) as [Hv|Hn]; [|eexists; reflexivity].
  apply Z.leb_gt in E1. apply Z.ltb_ge in E2. lia.
Qed.

Lemma prepare_chunks_invalid (self : PipelineState.t G)
  (document : list (string * object)) (document_id : Z) :
  PipelineState.chunk_size self <= 0
  \/ PipelineState.overlap self < 0
  \/ PipelineState.chunk_size self <= PipelineState.overlap self ->
  exists msg,
    PipelineState._prepare_chunks strip self document document_id
    = Raise (ValueError msg).
Proof.
  intros Hbad. unfold PipelineState._prepare_chunks.
  destruct (dict_get_or document "content" (Str "")) as [content| |];
    try (eexists; reflexivity).
  destruct (String.eqb (strip content) ""); [eexists; reflexivity|].
  destruct (dict_get_or document "metadata" (Dict [] "{}")) as [|metadata repr|];
    try (eexists; reflexivity).
  now apply chunk_text_invalid.
Qed.

(** X27. [configure] does not check the chunking parameters: whenever it
    succeeds for some chunk size and overlap, it succeeds with the same
    other arguments for every chunk size and overlap, and stores them as
    they are: also a chunk size that is not positive, a negative overlap and
    an overlap that is not below the chunk size. With such parameters the
    pipeline rejects every batch of documents: [ingest] raises a
    [ValueError] at the first document and changes nothing. *)
Theorem configure_accepts_chunking_that_ingest_rejects
  (self self0 : PipelineState.t G) (index_type : string)
  (dimension chunk_size0 overlap0 : Z) (generator_max_tokens : option Z)
  (index_params : option (list (string * Z))) (g : G)
  (configured0 : Configured.t) :
  PipelineState.configure lower self index_type dimension chunk_size0 overlap0
                          generator_max_tokens index_params g
  = (self0, Ok configured0) ->
  forall chunk_size overlap : Z,
  exists self1 configured,
    PipelineState.configure lower self index_type dimension chunk_size overlap
                            generator_max_tokens index_params g
    = (self1, Ok configured)
    /\ PipelineState.chunk_size self1 = chunk_size
    /\ PipelineState.overlap self1 = overlap
    /\ (chunk_size <= 0 \/ overlap < 0 \/ chunk_size <= overlap ->
        forall document rest fresh,
        exists msg,
          PipelineState.ingest hash lower sha256 strip self1
                               (document :: rest) fresh
          = (self1, Raise (ValueError msg))).
Proof.
  intros Ec chunk_size overlap. unfold PipelineState.configure in *.
  destruct (LocalEmbeddingModel.init dimension (2, 4)) as [model|e];
    [|discriminate].
  destruct (PipelineState._initialise_index lower index_type dimension _ g)
    as [ix|e]; [|discriminate].
  destruct (match generator_max_tokens with
            | Some max_tokens => _
            | None => _
            end) as [generator|e]; [|discriminate].
  eexists _, _. split; [reflexivity|].
  cbn [PipelineState.chunk_size PipelineState.overlap].
  split; [reflexivity|]. split; [reflexivity|].
  intros Hbad document rest fresh. unfold PipelineState.ingest.
  cbn [PipelineState.index PipelineState.ingest_loop].
  match goal with
  | |- context [PipelineState._prepare_chunks strip ?s document ?id] =>
      destruct (prepare_chunks_invalid s document id Hbad) as (msg & ->)
  end.
  exists msg. reflexivity.
Qed.

(** *** Embedding the chunks of a document *)

(** The metadata that [_embed_chunks] gives the item of a chunk, when the
    chunk counter stands at [counter]. *)
Definition item_metadata (chunk : TextChunk.t) (counter : Z) : Metadata :=
  _stringify_metadata
    (map (fun entry => (fst entry, Str (snd entry)))
         (dict_setdefault
            (dict_setdefault (TextChunk.metadata chunk) "chunk_id"
                             (str_int counter))
            "text" (TextChunk.text chunk))).

(** All of the state but the chunk counter. *)
Definition same_but_counter (self self' : PipelineState.t G) : Prop :=
  PipelineState.embedding_model self' = PipelineState.embedding_model self
  /\ PipelineState.index self' = PipelineState.index self
  /\ PipelineState.generator self' = PipelineState.generator self
  /\ PipelineState.chunk_size self' = PipelineState.chunk_size self
  /\ PipelineState.overlap self' = PipelineState.overlap self
  /\ PipelineState._ingested_documents self'
     = PipelineState._ingested_documents self.

Lemma embed_chunks_ok (chunks : list TextChunk.t) :
  forall (self self1 : PipelineState.t G) (fresh : nat)
         (vectors : list IndexedVector),
    PipelineState._embed_chunks hash lower self chunks fresh
    = (self1, Ok vectors) ->
    same_but_counter self self1
    /\ PipelineState._chunk_counter self1
       = PipelineState._chunk_counter self + len chunks
    /\ Forall2 (fun chunk item =>
                  LocalEmbeddingModel.embed
                    hash lower (PipelineState.embedding_model self)
                    (TextChunk.text chunk)
                  = Ok (vector item)
                  /\ exists counter,
                      metadata item = item_metadata chunk counter)
               chunks vectors.
Proof.
  induction chunks as [|chunk chunks IH]; intros self self1 fresh vectors E;
    cbn [PipelineState._embed_chunks] in E.
  - injection E as <- <-. unfold same_but_counter, len. cbn [length].
    repeat split; try reflexivity; [lia | constructor].
  - cbv zeta in E.
    destruct (LocalEmbeddingModel.embed hash lower _ _) as [v|e] eqn:Ev;
      [|discriminate].
    destruct (PipelineState._embed_chunks hash lower _ chunks (S fresh))
      as [self2 [vs|e]] eqn:Er; cbn [bind] in E; [|discriminate].
    injection E as E1 E2. subst self1 vectors.
    destruct (IH _ _ _ _ Er) as ((H1 & H2 & H3 & H4 & H5 & H6) & Hc & HF).
    cbn in H1, H2, H3, H4, H5, H6, Hc, HF.
    split; [unfold same_but_counter; repeat split; assumption|]. split.
    + rewrite Hc. unfold len. cbn [length]. lia.
    + constructor; [|exact HF]. cbn [vector metadata].
      split; [exact Ev|]. eexists. reflexivity.
Qed.

Lemma embed_chunks_total (dimension : Z) (ngram_range : Z * Z)
  (chunks : list TextChunk.t) :
  forall (self : PipelineState.t G) (fresh : nat),
    LocalEmbeddingModel.init dimension ngram_range
    = Ok (PipelineState.embedding_model self) ->
    exists self1 vectors,
      PipelineState._embed_chunks hash lower self chunks fresh
      = (self1, Ok vectors)
      /\ Forall (fun item => len (vector item) = dimension) vectors.
Proof.
  induction chunks as [|chunk chunks IH]; intros self fresh Hm;
    cbn [PipelineState._embed_chunks].
  - exists self, []. split; [reflexivity | constructor].
  - cbv zeta.
    destruct (embed_total hash lower dimension ngram_range _
                          (TextChunk.text chunk) Hm) as (v & Ev & Lv).
    rewrite Ev.
    destruct (IH (PipelineState.set_chunk_counter
                    self (PipelineState._chunk_counter self + 1))
                 (S fresh) Hm) as (self1 & vs & Er & HF).
    rewrite Er. cbn [bind]. eexists _, _. split; [reflexivity|].
    constructor; [exact Lv | exact HF].
Qed.

(** *** One round of the loop of [ingest] *)

Lemma ingest_loop_round
  (self self' : PipelineState.t G) (ix ix' : PipelineState.index_t G)
  (document : list (string * object))
  (rest : list (list (string * object))) (doc_index : Z) (fresh : nat)
  (summaries : list Summary.t) (total_chunks : Z)
  (duplicates_summary : list (string * list string)) (report : Ingested.t) :
  PipelineState.ingest_loop hash lower sha256 strip self ix (document :: rest)
                            doc_index fresh summaries total_chunks
                            duplicates_summary
  = (self', ix', Ok report) ->
  exists chunks self1 vectors ix1 ix2 summary entry duplicates,
    PipelineState._prepare_chunks
      strip self document
      (len (PipelineState._ingested_documents self) + doc_index)
    = Ok chunks
    /\ PipelineState._embed_chunks
         hash lower self
         (DeduplicatedResult.unique_chunks
            (deduplicate_chunks sha256 strip chunks ""))
         fresh
       = (self1, Ok vectors)
    /\ PipelineState.fit_if_untrained ix vectors = (ix1, Ok tt)
    /\ PipelineState.index_add ix1 vectors = (ix2, Ok tt)
    /\ Summary.chunks summary = len vectors
    /\ PipelineState.ingest_loop
         hash lower sha256 strip
         (PipelineState.append_ingested self1 entry) ix2 rest (doc_index + 1)
         (fresh + length vectors) (summaries ++ [summary])
         (total_chunks + len vectors) duplicates
       = (self', ix', Ok report).
Proof.
  cbn [PipelineState.ingest_loop].
  destruct (PipelineState._prepare_chunks strip self document _)
    as [chunks|e] eqn:Ep; [|discriminate].
  destruct (PipelineState._embed_chunks hash lower self _ fresh)
    as [self1 [vectors|e]] eqn:Ee; [|discriminate].
  destruct (PipelineState.fit_if_untrained ix vectors) as [ix1 [[]|e]] eqn:Ef;
    [|discriminate].
  destruct (PipelineState.index_add ix1 vectors) as [ix2 [[]|e]] eqn:Ea;
    [|discriminate].
  cbv zeta. intros E.
  exists chunks, self1, vectors, ix1, ix2. do 3 eexists.
  split; [reflexivity|]. split; [exact Ee|]. split; [exact Ef|].
  split; [exact Ea|]. split; [|exact E]. reflexivity.
Qed.

Lemma ingest_loop_counts (documents : list (list (string * object))) :
  forall (self self' : PipelineState.t G) (ix ix' : PipelineState.index_t G)
         (doc_index : Z) (fresh : nat) (summaries : list Summary.t)
         (total_chunks : Z)
         (duplicates_summary : list (string * list string))
         (report : Ingested.t),
    PipelineState.ingest_loop hash lower sha256 strip self ix documents
                              doc_index fresh summaries total_chunks
                              duplicates_summary
    = (self', ix', Ok report) ->
    total_chunks <= Ingested.chunks report
    /\ PipelineState._chunk_counter self'
       = PipelineState._chunk_counter self
         + (Ingested.chunks report - total_chunks)
    /\ len (PipelineState._ingested_documents self')
       = len (PipelineState._ingested_documents self) + len documents
    /\ exists later,
        Ingested.documents report = summaries ++ later
        /\ length later = length documents.
Proof.
  induction documents as [|document rest IH];
    intros self self' ix ix' doc_index fresh summaries total_chunks
           duplicates_summary report E.
  - cbn [PipelineState.ingest_loop] in E. injection E as <- _ <-.
    cbn [Ingested.chunks Ingested.documents]. unfold len. cbn [length].
    repeat split; try lia. exists []. now rewrite app_nil_r.
  - apply ingest_loop_round in E.
    destruct E as (chunks & self1 & vectors & ix1 & ix2 & summary & entry
                   & duplicates & Ep & Ee & Ef & Ea & Es & El).
    apply embed_chunks_ok in Ee.
    destruct Ee as ((_ & _ & _ & _ & _ & Hi) & Hc & HF).
    apply IH in El. destruct El as (Ht & Hcount & Hdocs & later & Hl & Hn).
    cbn [PipelineState.append_ingested PipelineState._chunk_counter
           PipelineState._ingested_documents] in Hcount, Hdocs.
    pose proof (Forall2_length HF) as Hlen.
    unfold len in *. rewrite length_app in Hdocs. cbn [length] in *.
    rewrite Hi in Hdocs.
    repeat split; try lia.
    exists (summary :: later). rewrite Hl, <- app_assoc. split; [reflexivity|].
    cbn [length]. lia.
Qed.

(** *** Ingesting into a Clustered Inverted Index *)

Lemma ingest_loop_trained (documents : list (list (string * object))) :
  forall (self self' : PipelineState.t G) (ivf : IVFIndex.t G)
         (ix' : PipelineState.index_t G) (doc_index : Z) (fresh : nat)
         (summaries : list Summary.t) (total_chunks : Z)
         (duplicates_summary : list (string * list string))
         (report : Ingested.t),
    IVFIndex._centroids ivf <> [] ->
    PipelineState.ingest_loop hash lower sha256 strip self
                              (PipelineState.Ivf ivf) documents doc_index
                              fresh summaries total_chunks duplicates_summary
    = (self', ix', Ok report) ->
    exists ivf',
      ix' = PipelineState.Ivf ivf'
      /\ IVFIndex._centroids ivf' = IVFIndex._centroids ivf
      /\ length (IVFIndex._lists ivf') = length (IVFIndex._lists ivf)
      /\ len (concat (IVFIndex._lists ivf'))
         = len (concat (IVFIndex._lists ivf))
           + (Ingested.chunks report - total_chunks).
Proof.
  induction documents as [|document rest IH];
    intros self self' ivf ix' doc_index fresh summaries total_chunks
           duplicates_summary report Hc E.
  - cbn [PipelineState.ingest_loop] in E. injection E as _ <- <-.
    exists ivf. cbn [Ingested.chunks]. repeat split; lia.
  - apply ingest_loop_round in E.
    destruct E as (chunks & self1 & vectors & ix1 & ix2 & summary & entry
                   & duplicates & Ep & Ee & Ef & Ea & Es & El).
    unfold PipelineState.fit_if_untrained in Ef.
    destruct (IVFIndex._centroids ivf) as [|c cs] eqn:Ec; [congruence|].
    injection Ef as <-. unfold PipelineState.index_add in Ea.
    destruct (IVFIndex.add ivf vectors) as [ivf2 r] eqn:Eadd.
    injection Ea as <- ->.
    destruct (add_frame _ _ _ _ Eadd) as (Hcen & Hlen & _ & _).
    pose proof (add_loop_concat _ _ _ (add_ok_loop _ _ _ Eadd)) as HP.
    apply Permutation_length in HP. rewrite length_app in HP.
    apply IH in El; [|rewrite Hcen, Ec; discriminate].
    destruct El as (ivf' & -> & Hcen' & Hlen' & Hcount).
    exists ivf'. split; [reflexivity|]. split; [congruence|].
    split; [congruence|]. unfold len in *. lia.
Qed.

(** X29. The gateway trains a Clustered Inverted Index at the first
    document it ingests: when [ingest] of at least one document succeeds on
    an index without centroids, the index has [n_lists] centroids and
    buckets afterwards, the buckets hold as many items as the report counts
    chunks, and the first document alone had at least [n_lists] unique
    chunks. When the first document has fewer, [ingest] raises a
    [ValueError] and leaves the index as it was, though the chunk counter
    has moved on by the unique chunks of that document. *)
Theorem ingest_trains_ivf_index_on_first_document
  (self : PipelineState.t G) (ivf : IVFIndex.t G) :
  PipelineState.index self = Some (PipelineState.Ivf ivf) ->
  IVFIndex._centroids ivf = [] ->
  0 < IVFIndex.n_lists ivf ->
  (forall documents fresh self' report,
      documents <> [] ->
      PipelineState.ingest hash lower sha256 strip self documents fresh
      = (self', Ok report) ->
      exists ivf' first later,
        PipelineState.index self' = Some (PipelineState.Ivf ivf')
        /\ len (IVFIndex._centroids ivf') = IVFIndex.n_lists ivf
        /\ len (IVFIndex._lists ivf') = IVFIndex.n_lists ivf
        /\ len (concat (IVFIndex._lists ivf')) = Ingested.chunks report
        /\ Ingested.documents report = first :: later
        /\ IVFIndex.n_lists ivf <= Summary.chunks first)
  /\ (forall document rest fresh chunks dimension ngram_range,
         PipelineState._prepare_chunks
           strip self document
           (len (PipelineState._ingested_documents self) + 1)
         = Ok chunks ->
         LocalEmbeddingModel.init dimension ngram_range
         = Ok (PipelineState.embedding_model self) ->
         let unique :=
           DeduplicatedResult.unique_chunks
             (deduplicate_chunks sha256 strip chunks "") in
         len unique < IVFIndex.n_lists ivf ->
         exists self',
           PipelineState.ingest hash lower sha256 strip self
                                (document :: rest) fresh
           = (self',
              Raise (ValueError
                       ("Not enough unique chunks to initialise IVF index; "
                        ++ "expected at least "
                        ++ str_int (IVFIndex.n_lists ivf)
                        ++ ", received " ++ str_int (len unique))))
           /\ PipelineState.index self' = Some (PipelineState.Ivf ivf)
           /\ PipelineState._chunk_counter self'
              = PipelineState._chunk_counter self + len unique).
Proof.
  intros Ei Ec Hn. split.
  - intros documents fresh self' report Hne E.
    unfold PipelineState.ingest in E. rewrite Ei in E.
    destruct (PipelineState.ingest_loop hash lower sha256 strip self _
                                        documents 1 fresh [] 0 [])
      as [[self1 ix1] r] eqn:El.
    injection E as <- ->. cbn [PipelineState.set_index PipelineState.index].
    destruct documents as [|document rest]; [congruence|].
    pose proof (ingest_loop_counts _ _ _ _ _ _ _ _ _ _ _ El)
      as (_ & _ & _ & later & Hdocs & _).
    apply ingest_loop_round in El.
    destruct El as (chunks & self2 & vectors & ix2 & ix3 & summary & entry
                    & duplicates & Ep & Ee & Ef & Ea & Es & El).
    unfold PipelineState.fit_if_untrained in Ef. rewrite Ec in Ef.
    destruct (len (map vector vectors) <? IVFIndex.n_lists ivf) eqn:Elt;
      [discriminate|].
    apply Z.ltb_ge in Elt. unfold len in Elt. rewrite length_map in Elt.
    destruct (IVFIndex.fit ivf (map vector vectors)) as [ivf1 r1] eqn:Efit.
    injection Ef as <- ->.
    destruct (fit_counts _ _ _ Hn Efit) as (Hcen & Hlists & _).
    unfold PipelineState.index_add in Ea.
    destruct (IVFIndex.add ivf1 vectors) as [ivf2 r2] eqn:Eadd.
    injection Ea as <- ->.
    destruct (add_frame _ _ _ _ Eadd) as (Hcen2 & Hlen2 & _ & _).
    pose proof (add_loop_concat _ _ _ (add_ok_loop _ _ _ Eadd)) as HP.
    apply Permutation_length in HP. rewrite length_app in HP.
    assert (Hempty : concat (IVFIndex._lists ivf1) = []).
    { rewrite Hlists. clear. induction (IVFIndex._centroids ivf1);
        [reflexivity | exact IHl]. }
    rewrite Hempty in HP. cbn [length Nat.add] in HP.
    pose proof El as El'.
    apply ingest_loop_counts in El'.
    destruct El' as (_ & _ & _ & later' & Hdocs' & _).
    apply ingest_loop_trained in El.
    2:{ rewrite Hcen2. intros Hnil. rewrite Hnil in Hcen.
        unfold len in Hcen. cbn in Hcen. lia. }
    destruct El as (ivf' & -> & Hcen' & Hlen' & Hcount).
    exists ivf', summary, later'.
    split; [reflexivity|]. split; [rewrite Hcen', Hcen2; exact Hcen|].
    split.
    { unfold len in *. rewrite Hlen', Hlen2, Hlists, length_map. exact Hcen. }
    split; [unfold len in *; lia|].
    split; [exact Hdocs'|]. rewrite Es. unfold len. lia.
  - intros document rest fresh chunks dimension ngram_range Ep Hm unique Hlt.
    unfold PipelineState.ingest. rewrite Ei.
    cbn [PipelineState.ingest_loop]. rewrite Ep. fold unique.
    destruct (embed_chunks_total dimension ngram_range unique self fresh Hm)
      as (self1 & vectors & Ee & _).
    rewrite Ee.
    destruct (embed_chunks_ok _ _ _ _ _ Ee) as ((_ & Hix & _) & Hc & HF).
    apply Forall2_length in HF.
    unfold PipelineState.fit_if_untrained. rewrite Ec.
    assert (Hl : len (map vector vectors) = len unique)
      by (unfold len; rewrite length_map; lia).
    rewrite Hl. rewrite (proj2 (Z.ltb_lt _ _) Hlt).
    eexists. split; [reflexivity|].
    cbn [PipelineState.set_index PipelineState.index
           PipelineState._chunk_counter].
    split; [reflexivity | exact Hc].
Qed.

(** *** The ids of the documents *)

Lemma item_metadata_keeps (chunk : TextChunk.t) (counter : Z)
  (key value : string) :
  dict_get (TextChunk.metadata chunk) key = Some value ->
  dict_get (item_metadata chunk counter) key = Some value.
Proof.
  intros Hk. unfold item_metadata.
  rewrite dict_get_stringify, dict_get_map, !dict_get_setdefault, Hk.
  reflexivity.
Qed.

Lemma prepare_chunks_document_id (self : PipelineState.t G)
  (document : list (string * object)) (document_id : Z)
  (chunks : list TextChunk.t) :
  PipelineState._prepare_chunks strip self document document_id = Ok chunks ->
  dict_get (dict_items (dict_get_or document "metadata" (Dict [] "{}")))
           "document_id" = None ->
  Forall (fun chunk =>
            dict_get (TextChunk.metadata chunk) "document_id"
            = Some (str_int document_id))
         chunks.
Proof.
  unfold PipelineState._prepare_chunks.
  destruct (dict_get_or document "content" (Str "")) as [content| |];
    try discriminate.
  destruct (String.eqb (strip content) ""); [discriminate|].
  destruct (dict_get_or document "metadata" (Dict [] "{}"))
    as [|metadata repr|]; try discriminate.
  cbv zeta. cbn [dict_items]. intros E Hn.
  eapply Forall_impl;
    [|exact (chunk_text_metadata _ _ _ _ _ "document_id" E eq_refl eq_refl)].
  intros chunk ->. rewrite dict_get_update; [reflexivity|].
  now rewrite dict_get_stringify, Hn.
Qed.

(** The items that an index holds. *)
Definition stored (ix : PipelineState.index_t G) : list IndexedVector :=
  match ix with
  | PipelineState.Hnsw hnsw => HNSWIndex._items hnsw
  | PipelineState.Ivf ivf => concat (IVFIndex._lists ivf)
  end.

(** The items of the index that [ingest] of the documents keeps: all of
    them, unless it trains the index, which empties the buckets. *)
Definition kept (ix : PipelineState.index_t G)
  (documents : list (list (string * object))) : list IndexedVector :=
  match ix, documents with
  | PipelineState.Ivf ivf, _ :: _ =>
      match IVFIndex._centroids ivf with
      | [] => []
      | _ :: _ => stored ix
      end
  | _, _ => stored ix
  end.

(** The items of a document: one for each of its unique chunks, in their
    order, with the embedding of the chunk and the metadata that
    [_embed_chunks] gives it. *)
Definition items_of_chunks (self : PipelineState.t G)
  (chunks : list TextChunk.t) (group : list IndexedVector) : Prop :=
  Forall2 (fun chunk item =>
             LocalEmbeddingModel.embed
               hash lower (PipelineState.embedding_model self)
               (TextChunk.text chunk)
             = Ok (vector item)
             /\ exists counter, metadata item = item_metadata chunk counter)
          (DeduplicatedResult.unique_chunks
             (deduplicate_chunks sha256 strip chunks ""))
          group.

Lemma prepare_chunks_same (self self' : PipelineState.t G)
  (document : list (string * object)) (document_id : Z) :
  PipelineState.chunk_size self' = PipelineState.chunk_size self ->
  PipelineState.overlap self' = PipelineState.overlap self ->
  PipelineState._prepare_chunks strip self' document document_id
  = PipelineState._prepare_chunks strip self document document_id.
Proof.
  intros Hc Ho. unfold PipelineState._prepare_chunks. now rewrite Hc, Ho.
Qed.

Lemma fit_empties_buckets (ivf ivf1 : IVFIndex.t G) (data : list Vector) :
  IVFIndex.fit ivf data = (ivf1, Ok tt) ->
  concat (IVFIndex._lists ivf1) = [].
Proof.
  unfold IVFIndex.fit.
  destruct (len data <? IVFIndex.n_lists ivf); [discriminate|].
  destruct (existsb (fun vector => negb (len vector =? IVFIndex.dimension ivf))
                    data); [discriminate|].
  destruct (IVFIndex._initialise_centroids ivf data) as [ivf0 [[]|e]];
    [|discriminate].
  destruct (IVFIndex.train _ _ _ data) as [centroids [[]|e]]; [|discriminate].
  intros E. injection E as <-. cbn. apply concat_empty.
Qed.

Lemma fit_if_untrained_kept (ix ix1 : PipelineState.index_t G)
  (vectors : list IndexedVector) (document : list (string * object))
  (rest : list (list (string * object))) :
  PipelineState.fit_if_untrained ix vectors = (ix1, Ok tt) ->
  stored ix1 = kept ix (document :: rest)
  /\ forall hnsw, ix = PipelineState.Hnsw hnsw -> ix1 = ix.
Proof.
  unfold PipelineState.fit_if_untrained, kept.
  destruct ix as [hnsw|ivf].
  - intros E. injection E as <-. split; [reflexivity | auto].
  - destruct (IVFIndex._centroids ivf) as [|c cs].
    + destruct (len (map vector vectors) <? IVFIndex.n_lists ivf);
        [discriminate|].
      destruct (IVFIndex.fit ivf (map vector vectors)) as [ivf1 r] eqn:Ef.
      intros E. injection E as <- ->. split; [|discriminate].
      cbn [stored]. exact (fit_empties_buckets _ _ _ Ef).
    + intros E. injection E as <-. split; [reflexivity | discriminate].
Qed.

Lemma index_add_stored (ix1 ix2 : PipelineState.index_t G)
  (vectors : list IndexedVector) :
  PipelineState.index_add ix1 vectors = (ix2, Ok tt) ->
  Permutation (stored ix2) (stored ix1 ++ vectors)
  /\ (forall documents, kept ix2 documents = stored ix2)
  /\ forall hnsw,
      ix1 = PipelineState.Hnsw hnsw ->
      exists hnsw2,
        ix2 = PipelineState.Hnsw hnsw2
        /\ HNSWIndex._items hnsw2 = HNSWIndex._items hnsw ++ vectors.
Proof.
  unfold PipelineState.index_add. destruct ix1 as [hnsw|ivf].
  - destruct (HNSWIndex.add hnsw vectors) as [hnsw2 r] eqn:Ea.
    intros E. injection E as <- ->. apply hnsw_add_ok in Ea.
    destruct Ea as (Hi & _ & _). cbn [stored]. rewrite Hi.
    split; [reflexivity|]. split; [now destruct documents|].
    intros h Eh. injection Eh as <-. now exists hnsw2.
  - destruct (IVFIndex.add ivf vectors) as [ivf2 r] eqn:Ea.
    intros E. injection E as <- ->.
    destruct (add_frame _ _ _ _ Ea) as (Hc & _).
    pose proof (add_loop_concat _ _ _ (add_ok_loop _ _ _ Ea)) as HP.
    split; [exact HP|]. split; [|discriminate].
    intros documents. unfold kept. destruct documents; [reflexivity|].
    rewrite Hc. unfold IVFIndex.add in Ea.
    destruct (IVFIndex._centroids ivf); [discriminate | reflexivity].
Qed.

Lemma ingest_loop_groups (documents : list (list (string * object))) :
  forall (self self' : PipelineState.t G) (ix ix' : PipelineState.index_t G)
         (doc_index : Z) (fresh : nat) (summaries : list Summary.t)
         (total_chunks : Z)
         (duplicates_summary : list (string * list string))
         (report : Ingested.t),
    PipelineState.ingest_loop hash lower sha256 strip self ix documents
                              doc_index fresh summaries total_chunks
                              duplicates_summary
    = (self', ix', Ok report) ->
    exists groups,
      length groups = length documents
      /\ Permutation (stored ix') (kept ix documents ++ concat groups)
      /\ (forall hnsw,
             ix = PipelineState.Hnsw hnsw ->
             exists hnsw',
               ix' = PipelineState.Hnsw hnsw'
               /\ HNSWIndex._items hnsw'
                  = HNSWIndex._items hnsw ++ concat groups)
      /\ forall i document,
          nth_error documents i = Some document ->
          exists group chunks,
            nth_error groups i = Some group
            /\ PipelineState._prepare_chunks
                 strip self document
                 (len (PipelineState._ingested_documents self) + doc_index
                  + 2 * Z.of_nat i)
               = Ok chunks
            /\ items_of_chunks self chunks group
            /\ (dict_get (dict_items (dict_get_or document "metadata"
                                                  (Dict [] "{}")))
                         "document_id" = None ->
                Forall (fun item =>
                          dict_get (metadata item) "document_id"
                          = Some (str_int
                                    (len (PipelineState._ingested_documents
                                            self)
                                     + doc_index + 2 * Z.of_nat i)))
                       group).
Proof.
  induction documents as [|document rest IH];
    intros self self' ix ix' doc_index fresh summaries total_chunks
           duplicates_summary report E.
  - cbn [PipelineState.ingest_loop] in E. injection E as _ <- _.
    exists []. cbn [concat length]. rewrite app_nil_r.
    split; [reflexivity|]. split; [now destruct ix|].
    split; [intros hnsw ->; exists hnsw; now rewrite app_nil_r|].
    intros [|i] ? Hd; discriminate.
  - apply ingest_loop_round in E.
    destruct E as (chunks & self1 & vectors & ix1 & ix2 & summary & entry
                   & duplicates & Ep & Ee & Ef & Ea & Es & El).
    destruct (fit_if_untrained_kept _ _ _ document rest Ef) as (Hk & Hh1).
    destruct (index_add_stored _ _ _ Ea) as (HP & Hk2 & Hh2).
    destruct (embed_chunks_ok _ _ _ _ _ Ee)
      as ((Hm & _ & _ & Hcs & Hov & Hing) & _ & HF).
    apply IH in El. destruct El as (groups & Hl & HP' & Hh' & Hg).
    exists (vectors :: groups).
    split; [cbn [length]; now rewrite Hl|]. split; [|split].
    + cbn [concat]. rewrite Hk2 in HP'.
      apply (Permutation_trans HP'). rewrite app_assoc.
      apply Permutation_app_tail. now rewrite <- Hk.
    + intros hnsw Eh. specialize (Hh1 hnsw Eh). subst ix1.
      destruct (Hh2 hnsw Eh) as (hnsw2 & E2 & Hi2).
      destruct (Hh' hnsw2 E2) as (hnsw' & E' & Hi').
      exists hnsw'. split; [exact E'|]. cbn [concat].
      now rewrite Hi', Hi2, <- app_assoc.
    + intros [|i] doc Hd; cbn [nth_error] in Hd.
      * injection Hd as <-. exists vectors, chunks.
        split; [reflexivity|].
        replace (len (PipelineState._ingested_documents self) + doc_index
                 + 2 * Z.of_nat 0)
          with (len (PipelineState._ingested_documents self) + doc_index)
          by lia.
        split; [exact Ep|]. split; [exact HF|].
        intros Hn.
        pose proof (prepare_chunks_document_id _ _ _ _ Ep Hn) as Hc.
        apply Forall_forall. intros item Hin.
        destruct (Forall2_in_right _ _ _ _ HF Hin)
          as (chunk & Hch & _ & counter & ->).
        apply item_metadata_keeps.
        apply (proj1 (Forall_forall _ _) Hc).
        apply (dedup_unique_incl sha256 strip "" chunks). exact Hch.
      * destruct (Hg i doc Hd) as (group & chunks' & Hgr & Ep' & HF' & Hid).
        cbn [PipelineState.append_ingested PipelineState._ingested_documents
               PipelineState.chunk_size PipelineState.overlap
               PipelineState.embedding_model] in Ep', HF', Hid.
        assert (Eid : len (PipelineState._ingested_documents self1 ++ [entry])
                      + (doc_index + 1) + 2 * Z.of_nat i
                      = len (PipelineState._ingested_documents self)
                        + doc_index + 2 * Z.of_nat (S i)).
        { rewrite Hing. unfold len. rewrite length_app. cbn [length]. lia. }
        rewrite Eid in Ep', Hid.
        exists group, chunks'. split; [exact Hgr|]. split.
        { rewrite <- Ep'. symmetry. apply prepare_chunks_same.
          - cbn [PipelineState.chunk_size]. exact Hcs.
          - cbn [PipelineState.overlap]. exact Hov. }
        split; [|exact Hid].
        unfold items_of_chunks in *.
        cbn [PipelineState.append_ingested PipelineState.embedding_model]
          in HF'.
        now rewrite Hm in HF'.
Qed.

(** X28. [ingest] numbers the documents of a batch in steps of two: with
    [n] documents ingested before the call, the [i]-th document of the batch
    (counted from 0) is chunked under the id [n + 2 * i + 1]. Whatever the
    index, after a successful [ingest] it holds what it kept and, for each
    document, one item for each unique chunk of that document chunked under
    this id, and every such item carries the id as ["document_id"] unless
    the document's own metadata sets that key; the Sampled Flat Index holds
    them in this order behind its former items. The call leaves [n] plus the
    size of the batch documents ingested, so after a batch of two on a new
    pipeline (ids 1 and 3) the next document gets the id 3 again. *)
Theorem ingest_numbers_documents_in_steps_of_two
  (self self' : PipelineState.t G) (ix : PipelineState.index_t G)
  (documents : list (list (string * object))) (fresh : nat)
  (report : Ingested.t) :
  PipelineState.index self = Some ix ->
  PipelineState.ingest hash lower sha256 strip self documents fresh
  = (self', Ok report) ->
  exists ix' groups,
    PipelineState.index self' = Some ix'
    /\ length groups = length documents
    /\ Permutation (stored ix') (kept ix documents ++ concat groups)
    /\ (forall hnsw,
           ix = PipelineState.Hnsw hnsw ->
           exists hnsw',
             ix' = PipelineState.Hnsw hnsw'
             /\ HNSWIndex._items hnsw'
                = HNSWIndex._items hnsw ++ concat groups)
    /\ len (PipelineState._ingested_documents self')
       = len (PipelineState._ingested_documents self) + len documents
    /\ forall i document,
        nth_error documents i = Some document ->
        exists group chunks,
          nth_error groups i = Some group
          /\ PipelineState._prepare_chunks
               strip self document
               (len (PipelineState._ingested_documents self)
                + 2 * Z.of_nat i + 1)
             = Ok chunks
          /\ items_of_chunks self chunks group
          /\ (dict_get (dict_items (dict_get_or document "metadata"
                                                (Dict [] "{}")))
                       "document_id" = None ->
              Forall (fun item =>
                        dict_get (metadata item) "document_id"
                        = Some (str_int
                                  (len (PipelineState._ingested_documents self)
                                   + 2 * Z.of_nat i + 1)))
                     group).
Proof.
  intros Ei E. unfold PipelineState.ingest in E. rewrite Ei in E.
  destruct (PipelineState.ingest_loop hash lower sha256 strip self ix
                                      documents 1 fresh [] 0 [])
    as [[self1 ix1] r] eqn:El.
  injection E as <- ->.
  pose proof (ingest_loop_counts _ _ _ _ _ _ _ _ _ _ _ El)
    as (_ & _ & Hdocs & _).
  apply ingest_loop_groups in El.
  destruct El as (groups & Hl & HP & Hh & Hg).
  exists ix1, groups.
  cbn [PipelineState.set_index PipelineState.index
         PipelineState._ingested_documents].
  split; [reflexivity|]. split; [exact Hl|]. split; [exact HP|].
  split; [exact Hh|]. split; [exact Hdocs|].
  intros i document Hd.
  destruct (Hg i document Hd) as (group & chunks & Hgr & Ep & HF & Hid).
  replace (len (PipelineState._ingested_documents self) + 1 + 2 * Z.of_nat i)
    with (len (PipelineState._ingested_documents self) + 2 * Z.of_nat i + 1)
    in Ep, Hid by lia.
  now exists group, chunks.
Qed.

(** *** From a document to the answer *)

Lemma chunk_text_single (text : string) (chunk_size overlap : Z)
  (meta : Metadata) :
  0 <= overlap < chunk_size ->
  0 < Z.of_nat (String.length text) <= chunk_size ->
  chunk_text text chunk_size overlap (Some meta)
  = Ok [{| TextChunk.id := 0;
           TextChunk.text := text;
           TextChunk.metadata :=
             dict_update meta
                         [("start"%string, str_int 0);
                          ("end"%string,
                           str_int (Z.of_nat (String.length text)))] |}].
Proof.
  intros Hv Hl. unfold chunk_text.
  destruct (chunk_size <=? 0) eqn:E1; [apply Z.leb_le in E1; lia|].
  destruct (overlap <? 0) eqn:E2; [apply Z.ltb_lt in E2; lia|].
  destruct (Z_lt_dec overlap chunk_size) as [valid|]; [|lia].
  cbv zeta. f_equal. rewrite chunk_loop_step.
  rewrite (proj2 (Z.ltb_lt _ _) (proj1 Hl)). cbv zeta.
  rewrite Z.add_0_l, Z.min_r by lia. rewrite Z.eqb_refl.
  unfold make_chunk. now rewrite str_slice_all.
Qed.

Lemma configure_ok (self self1 : PipelineState.t G) (index_type : string)
  (dimension chunk_size overlap : Z) (generator_max_tokens : option Z)
  (index_params : option (list (string * Z))) (g : G)
  (configured : Configured.t) :
  PipelineState.configure lower self index_type dimension chunk_size overlap
                          generator_max_tokens index_params g
  = (self1, Ok configured) ->
  exists ix,
    LocalEmbeddingModel.init dimension (2, 4)
    = Ok (PipelineState.embedding_model self1)
    /\ PipelineState._initialise_index
         lower index_type dimension
         (match index_params with Some p => p | None => [] end) g
       = Ok ix
    /\ PipelineState.index self1 = Some ix
    /\ PipelineState.chunk_size self1 = chunk_size
    /\ PipelineState.overlap self1 = overlap
    /\ PipelineState._ingested_documents self1 = []
    /\ PipelineState._chunk_counter self1 = 0.
Proof.
  unfold PipelineState.configure.
  destruct (LocalEmbeddingModel.init dimension (2, 4)) as [model|e];
    [|discriminate].
  destruct (PipelineState._initialise_index lower index_type dimension _ g)
    as [ix|e]; [|discriminate].
  destruct (match generator_max_tokens with
            | Some max_tokens => _
            | None => _
            end) as [generator|e]; [|discriminate].
  intros E. injection E as <- _. exists ix. cbn. repeat split; reflexivity.
Qed.

(** X30. What is ingested can be asked for. After [configure] has set up a
    Sampled Flat Index, [ingest] of one document whose content fits a single
    chunk (and whose metadata has no ["text"] entry of its own) stores one
    chunk, and [query] then answers every question that is not blank with
    exactly one snippet: the content of the document, scored with the
    cosine similarity of the two embeddings (when that similarity is
    defined). *)
Theorem query_finds_the_document_ingested_as_one_chunk
  (self self1 : PipelineState.t G) (index_type : string)
  (dimension chunk_size overlap : Z) (generator_max_tokens : option Z)
  (index_params : option (list (string * Z))) (g : G)
  (configured : Configured.t) (document : list (string * object))
  (content repr : string) (own : list (string * object)) (fresh : nat) :
  PipelineState.configure lower self index_type dimension chunk_size overlap
                          generator_max_tokens index_params g
  = (self1, Ok configured) ->
  lower index_type = "hnsw"%string ->
  dict_get_or document "content" (Str "") = Str content ->
  dict_get_or document "metadata" (Dict [] "{}") = Dict own repr ->
  dict_get own "text" = None ->
  String.eqb (strip content) "" = false ->
  0 <= overlap < chunk_size ->
  0 < Z.of_nat (String.length content) <= chunk_size ->
  exists self2 report v,
    PipelineState.ingest hash lower sha256 strip self1 [document] fresh
    = (self2, Ok report)
    /\ Ingested.chunks report = 1
    /\ LocalEmbeddingModel.embed
         hash lower (PipelineState.embedding_model self1) content
       = Ok v
    /\ forall question k n_probe q s,
        String.eqb (strip question) "" = false ->
        1 <= k ->
        LocalEmbeddingModel.embed
          hash lower (PipelineState.embedding_model self1) question
        = Ok q ->
        cosine_similarity q v = Ok s ->
        exists self3 answered snippet_metadata,
          PipelineState.query hash lower strip split self2 question k n_probe
          = (self3, Ok answered)
          /\ Answered.snippets answered
             = [{| ContextSnippet.content := content;
                   ContextSnippet.metadata := snippet_metadata;
                   ContextSnippet.score := s |}].
Proof.
  intros Ec Eh Econtent Eown Htext Hstrip Hv Hl.
  destruct (configure_ok _ _ _ _ _ _ _ _ _ _ Ec)
    as (ix & Hm & Hix & Hi & Hcs & Hov & Hing & Hcount).
  unfold PipelineState._initialise_index in Hix. rewrite Eh in Hix.
  cbn [String.eqb Ascii.eqb Bool.eqb andb] in Hix. cbv zeta in Hix.
  cbn [HNSWIndex.init bind] in Hix. injection Hix as <-.
  destruct (embed_total hash lower dimension (2, 4) _ content Hm)
    as (v & Ev & Lv).
  set (hx := {| HNSWIndex.dimension := dimension;
                HNSWIndex.ef := _;
                HNSWIndex._rng := g;
                HNSWIndex._items := [] |}) in Hi.
  (* the one chunk of the document *)
  assert (Ep : exists meta,
             PipelineState._prepare_chunks strip self1 document
               (len (PipelineState._ingested_documents self1) + 1)
             = Ok [{| TextChunk.id := 0;
                      TextChunk.text := content;
                      TextChunk.metadata := meta |}]
             /\ dict_get meta "text" = None).
  { unfold PipelineState._prepare_chunks.
    rewrite Econtent, Hstrip, Eown, Hcs, Hov. cbv zeta.
    rewrite chunk_text_single by assumption.
    eexists. split; [reflexivity|].
    rewrite dict_get_update by reflexivity.
    rewrite dict_get_update by (now rewrite dict_get_stringify, Htext).
    reflexivity. }
  destruct Ep as (meta & Ep & Hmeta).
  set (chunk := {| TextChunk.id := 0;
                   TextChunk.text := content;
                   TextChunk.metadata := meta |}) in *.
  set (item := {| vector := v;
                  metadata := item_metadata chunk 0;
                  obj_id := fresh |}).
  set (hx1 := {| HNSWIndex.dimension := dimension;
                 HNSWIndex.ef := HNSWIndex.ef hx;
                 HNSWIndex._rng := g;
                 HNSWIndex._items := [item] |}).
  assert (Eingest :
            exists self2 report,
              PipelineState.ingest hash lower sha256 strip self1 [document]
                                   fresh
              = (self2, Ok report)
              /\ Ingested.chunks report = 1
              /\ PipelineState.index self2 = Some (PipelineState.Hnsw hx1)
              /\ PipelineState.embedding_model self2
                 = PipelineState.embedding_model self1).
  { unfold PipelineState.ingest. rewrite Hi.
    cbn [PipelineState.ingest_loop]. rewrite Ep.
    unfold deduplicate_chunks. cbn [fold_left dedup_round dict_get].
    cbn [dict_set app DeduplicatedResult.unique_chunks
           DeduplicatedResult.duplicates].
    cbn [PipelineState._embed_chunks]. cbv zeta.
    cbn [TextChunk.text chunk]. rewrite Ev. cbn [bind].
    cbn [PipelineState.fit_if_untrained PipelineState.index_add].
    cbn [HNSWIndex.add vector]. unfold hx at 1.
    cbn [HNSWIndex.dimension]. rewrite Lv, Z.eqb_refl. cbn [negb].
    eexists _, _. split; [reflexivity|].
    cbn [Ingested.chunks PipelineState.set_index PipelineState.index
           PipelineState.embedding_model PipelineState.append_ingested
           PipelineState.set_chunk_counter].
    split; [reflexivity|]. split; [|reflexivity].
    unfold hx1, item, item_metadata, HNSWIndex.append. cbn.
    rewrite Hcount. reflexivity. }
  destruct Eingest as (self2 & report & Eingest & Hchunks & Hi2 & Hm2).
  exists self2, report, v. split; [exact Eingest|]. split; [exact Hchunks|].
  split; [exact Ev|].
  intros question k n_probe q s Hq Hk Eq Es.
  destruct (embed_total hash lower dimension (2, 4) _ question Hm)
    as (q' & Eq' & Lq).
  assert (q' = q) by congruence. subst q'.
  unfold PipelineState.query. rewrite Hi2, Hq, Hm2, Eq.
  cbn [PipelineState.index_search].
  destruct (search_cover_store hx1 q k [(s, metadata item)])
    as (scored & E & HP).
  { exact Lq. }
  { cbn. unfold hx. cbn [HNSWIndex.ef]. lia. }
  { unfold score_all. cbn. now rewrite Es. }
  destruct (HNSWIndex.search hx1 q k) as [hx2 r]. cbn [snd] in E. rewrite E.
  apply Permutation_sym, Permutation_length_1_inv in HP. subst scored.
  assert (Er : rank_top k [(s, metadata item)] = [(s, metadata item)]).
  { unfold rank_top, slice_to. cbn [sort_desc insert_desc].
    replace (0 <=? k) with true by (symmetry; apply Z.leb_le; lia).
    destruct (Z.to_nat k) as [|n] eqn:En; [lia|].
    cbn [firstn]. now rewrite firstn_nil. }
  rewrite Er.
  assert (Et : dict_get_or (metadata item) "text" ""%string = content).
  { unfold dict_get_or, item. cbn [metadata]. unfold item_metadata.
    rewrite dict_get_stringify, dict_get_map, dict_get_setdefault.
    rewrite dict_get_setdefault. cbn [TextChunk.metadata TextChunk.text chunk].
    rewrite Hmeta. reflexivity. }
  cbn [PipelineState._build_snippets]. cbv zeta. rewrite Et.
  assert (Hne : String.eqb content "" = false).
  { destruct content; [cbn in Hl; lia | reflexivity]. }
  rewrite Hne.
  eexists _, _, _. split; reflexivity.
Qed.

End GatewayFacts.

(** States of the gateway to run the model, on the scripted generator and
    the stand-ins for the library functions. *)
Module DemoGateway.

(** [configure(dimension=8, chunk_size=4, overlap=1)] on a new state *)
Definition hnsw8 : PipelineState.t Replay.t :=
  fst (PipelineState.configure DemoText.lower PipelineState.init "hnsw" 8 4 1
                               None None []).

(** [configure(index_type="ivf", dimension=8, chunk_size=4, overlap=1,
    index_params={"n_lists": 2})] on a new state *)
Definition ivf8 : PipelineState.t Replay.t :=
  fst (PipelineState.configure DemoText.lower PipelineState.init "ivf" 8 4 1
                               None (Some [("n_lists"%string, 2)]) []).

Definition documents : list (list (string * object)) :=
  [[("content"%string, Str "abcdefghij")]; [("content"%string, Str "klm")]].

Definition ingested : PipelineState.t Replay.t * outcome Ingested.t :=
  PipelineState.ingest DemoText.hash DemoText.lower DemoWords.digest
                       DemoWords.strip hnsw8 documents 0.

Definition report : Ingested.t :=
  match snd ingested with
  | Ok report => report
  | Raise _ =>
      {| Ingested.documents := []; Ingested.chunks := 0;
         Ingested.duplicates := [] |}
  end.

End DemoGateway.

Lemma configure_accepts_chunking_that_ingest_rejects_witness :
  (exists self1 configured,
      PipelineState.configure DemoText.lower PipelineState.init "hnsw" 8 0 0
                              None None ([] : Replay.t)
      = (self1, Ok configured)
      /\ PipelineState.chunk_size self1 = 0
      /\ forall document rest fresh,
          exists msg,
            PipelineState.ingest DemoText.hash DemoText.lower DemoWords.digest
                                 DemoWords.strip self1 (document :: rest) fresh
            = (self1, Raise (ValueError msg)))
  /\ (exists self1 configured,
         PipelineState.configure DemoText.lower PipelineState.init "hnsw" 8 5
                                 (-1) None None ([] : Replay.t)
         = (self1, Ok configured)
         /\ PipelineState.overlap self1 = -1
         /\ forall document rest fresh,
             exists msg,
               PipelineState.ingest DemoText.hash DemoText.lower
                                    DemoWords.digest DemoWords.strip self1
                                    (document :: rest) fresh
               = (self1, Raise (ValueError msg)))
  /\ (exists self1 configured,
         PipelineState.configure DemoText.lower PipelineState.init "hnsw" 8 3 3
                                 None None ([] : Replay.t)
         = (self1, Ok configured)
         /\ PipelineState.overlap self1 = 3
         /\ forall document rest fresh,
             exists msg,
               PipelineState.ingest DemoText.hash DemoText.lower
                                    DemoWords.digest DemoWords.strip self1
                                    (document :: rest) fresh
               = (self1, Raise (ValueError msg))).
Proof.
  pose proof (configure_accepts_chunking_that_ingest_rejects
                DemoText.hash DemoText.lower DemoWords.digest DemoWords.strip
                PipelineState.init DemoGateway.hnsw8 "hnsw" 8 4 1 None None
                ([] : Replay.t)
                {| Configured.index := "hnsw"; Configured.dimension := 8;
                   Configured.chunk_size := 4; Configured.overlap := 1;
                   Configured.index_params := [];
                   Configured.generator_max_tokens := None |}
                eq_refl) as Hall.
  split; [|split].
  - destruct (Hall 0 0) as (self1 & configured & E & H1 & _ & Hi).
    exists self1, configured. split; [exact E|]. split; [exact H1|].
    apply Hi. lia.
  - destruct (Hall 5 (-1)) as (self1 & configured & E & _ & H2 & Hi).
    exists self1, configured. split; [exact E|]. split; [exact H2|].
    apply Hi. lia.
  - destruct (Hall 3 3) as (self1 & configured & E & _ & H2 & Hi).
    exists self1, configured. split; [exact E|]. split; [exact H2|].
    apply Hi. lia.
Defined.

Lemma ingest_numbers_documents_in_steps_of_two_witness :
  let ix : PipelineState.index_t Replay.t :=
    PipelineState.Hnsw {| HNSWIndex.dimension := 8; HNSWIndex.ef := 32;
                          HNSWIndex._rng := []; HNSWIndex._items := [] |} in
  exists ix' groups,
    PipelineState.index (fst DemoGateway.ingested) = Some ix'
    /\ length groups = length DemoGateway.documents
    /\ Permutation (stored ix')
                   (kept ix DemoGateway.documents ++ concat groups)
    /\ (forall hnsw,
           ix = PipelineState.Hnsw hnsw ->
           exists hnsw',
             ix' = PipelineState.Hnsw hnsw'
             /\ HNSWIndex._items hnsw'
                = HNSWIndex._items hnsw ++ concat groups)
    /\ len (PipelineState._ingested_documents (fst DemoGateway.ingested))
       = len (PipelineState._ingested_documents DemoGateway.hnsw8)
         + len DemoGateway.documents
    /\ forall i document,
        nth_error DemoGateway.documents i = Some document ->
        exists group chunks,
          nth_error groups i = Some group
          /\ PipelineState._prepare_chunks
               DemoWords.strip DemoGateway.hnsw8 document
               (len (PipelineState._ingested_documents DemoGateway.hnsw8)
                + 2 * Z.of_nat i + 1)
             = Ok chunks
          /\ items_of_chunks DemoText.hash DemoText.lower DemoWords.digest
                             DemoWords.strip DemoGateway.hnsw8 chunks group
          /\ (dict_get (dict_items (dict_get_or document "metadata"
                                                (Dict [] "{}")))
                       "document_id" = None ->
              Forall (fun item =>
                        dict_get (metadata item) "document_id"
                        = Some (str_int
                                  (len (PipelineState._ingested_documents
                                          DemoGateway.hnsw8)
                                   + 2 * Z.of_nat i + 1)))
                     group).
Proof.
  intros ix.
  apply (ingest_numbers_documents_in_steps_of_two
           DemoText.hash DemoText.lower DemoWords.digest DemoWords.strip
           DemoGateway.hnsw8 (fst DemoGateway.ingested) ix
           DemoGateway.documents 0 DemoGateway.report).
  - reflexivity.
  - vm_compute. reflexivity.
Defined.

Lemma ingest_trains_ivf_index_on_first_document_witness :
  let ivf : IVFIndex.t Replay.t :=
    {| IVFIndex.dimension := 8; IVFIndex.n_lists := 2;
       IVFIndex.iterations := 5; IVFIndex._rng := [];
       IVFIndex._centroids := []; IVFIndex._lists := [] |} in
  (forall documents fresh self' report,
      documents <> [] ->
      PipelineState.ingest DemoText.hash DemoText.lower DemoWords.digest
                           DemoWords.strip DemoGateway.ivf8 documents fresh
      = (self', Ok report) ->
      exists ivf' first later,
        PipelineState.index self' = Some (PipelineState.Ivf ivf')
        /\ len (IVFIndex._centroids ivf') = IVFIndex.n_lists ivf
        /\ len (IVFIndex._lists ivf') = IVFIndex.n_lists ivf
        /\ len (concat (IVFIndex._lists ivf')) = Ingested.chunks report
        /\ Ingested.documents report = first :: later
        /\ IVFIndex.n_lists ivf <= Summary.chunks first)
  /\ (forall document rest fresh chunks dimension ngram_range,
         PipelineState._prepare_chunks
           DemoWords.strip DemoGateway.ivf8 document
           (len (PipelineState._ingested_documents DemoGateway.ivf8) + 1)
         = Ok chunks ->
         LocalEmbeddingModel.init dimension ngram_range
         = Ok (PipelineState.embedding_model DemoGateway.ivf8) ->
         let unique :=
           DeduplicatedResult.unique_chunks
             (deduplicate_chunks DemoWords.digest DemoWords.strip chunks "") in
         len unique < IVFIndex.n_lists ivf ->
         exists self',
           PipelineState.ingest DemoText.hash DemoText.lower DemoWords.digest
                                DemoWords.strip DemoGateway.ivf8
                                (document :: rest) fresh
           = (self',
              Raise (ValueError
                       ("Not enough unique chunks to initialise IVF index; "
                        ++ "expected at least "
                        ++ str_int (IVFIndex.n_lists ivf)
                        ++ ", received " ++ str_int (len unique))))
           /\ PipelineState.index self' = Some (PipelineState.Ivf ivf)
           /\ PipelineState._chunk_counter self'
              = PipelineState._chunk_counter DemoGateway.ivf8 + len unique).
Proof.
  apply (ingest_trains_ivf_index_on_first_document
           DemoText.hash DemoText.lower DemoWords.digest DemoWords.strip
           DemoGateway.ivf8).
  - reflexivity.
  - reflexivity.
  - cbn. lia.
Defined.

Lemma query_finds_the_document_ingested_as_one_chunk_witness :
  exists self2 report v,
    PipelineState.ingest DemoText.hash DemoText.lower DemoWords.digest
                         DemoWords.strip DemoGateway.hnsw8
                         [[("content"%string, Str "klm")]] 0
    = (self2, Ok report)
    /\ Ingested.chunks report = 1
    /\ LocalEmbeddingModel.embed
         DemoText.hash DemoText.lower
         (PipelineState.embedding_model DemoGateway.hnsw8) "klm"
       = Ok v
    /\ forall question k n_probe q s,
        String.eqb (DemoWords.strip question) "" = false ->
        1 <= k ->
        LocalEmbeddingModel.embed
          DemoText.hash DemoText.lower
          (PipelineState.embedding_model DemoGateway.hnsw8) question
        = Ok q ->
        cosine_similarity q v = Ok s ->
        exists self3 answered snippet_metadata,
          PipelineState.query DemoText.hash DemoText.lower DemoWords.strip
                              DemoWords.split self2 question k n_probe
          = (self3, Ok answered)
          /\ Answered.snippets answered
             = [{| ContextSnippet.content := "klm";
                   ContextSnippet.metadata := snippet_metadata;
                   ContextSnippet.score := s |}].
Proof.
  apply (query_finds_the_document_ingested_as_one_chunk
           DemoText.hash DemoText.lower DemoWords.digest DemoWords.strip
           DemoWords.split PipelineState.init DemoGateway.hnsw8 "hnsw" 8 4 1
           None None []
           {| Configured.index := "hnsw"; Configured.dimension := 8;
              Configured.chunk_size := 4; Configured.overlap := 1;
              Configured.index_params := [];
              Configured.generator_max_tokens := None |}
           [("content"%string, Str "klm")] "klm" "{}" [] 0).
  - reflexivity.
  - reflexivity.
  - reflexivity.
  - reflexivity.
  - reflexivity.
  - reflexivity.
  - lia.
  - cbn. lia.
Defined.
